(** * A shallow embedding of [torii/hdl/ast.py]

    The expression and statement IR of the Torii HDL: shapes, values, operator
    shape inference, arrays with their freeze-on-proxy discipline, pattern
    matching, switch keys and the structural keys used by value collections.

    Python integers are unbounded, so they are [Z]; the bit operations of the
    source ([&], [|], [~], [<<], [>>]) are [Z.land], [Z.lor], [Z.lnot],
    [Z.shiftl] and [Z.shiftr].  Code that may raise returns a [result];
    code that also warns returns its warnings next to the result. *)

From Stdlib Require Import ZArith List String Ascii Bool Lia.
Import ListNotations.

Local Open Scope Z_scope.

Set Warnings "-register-all".

(** ** Exceptions and the error monad *)

Inductive exn_kind : Type :=
| TypeError
| SyntaxError
| IndexError
| ValueError
| NotImplementedError
| AssertionError
| RecursionError.

(** [tracer.get_src_loc()] yields a (file name, line number) pair. *)
Definition src_loc : Type := (string * Z)%type.

(** An exception: its class and, when the message cites one, a source
    location (only the frozen-[Array] error does). *)
Record exn : Type := MkExn {
  exn_class : exn_kind;
  exn_site : option src_loc
}.

Inductive result (A : Type) : Type :=
| Ok (a : A)
| Error (e : exn).

Arguments Ok {A} a.
Arguments Error {A} e.

Definition raise {A : Type} (k : exn_kind) : result A := Error (MkExn k None).

Definition bind {A B : Type} (c : result A) (f : A -> result B) : result B :=
  match c with
  | Ok a => f a
  | Error e => Error e
  end.

Notation "x <- c ;; k" := (bind c (fun x => k))
  (at level 61, c at next level, right associativity).

Notation "' pat <- c ;; k" := (bind c (fun x => match x with pat => k end))
  (at level 61, pat pattern, c at next level, right associativity).

(** ** Python primitives used by the module *)

Module Py.

(** [int.bit_length()]. *)
Definition bit_length (n : Z) : Z :=
  if n =? 0 then 0 else Z.log2 (Z.abs n) + 1.

(** Truthiness of an integer. *)
Definition truthy (n : Z) : bool := negb (n =? 0).

(** [a << b] and [a >> b] raise [ValueError] on a negative shift count. *)
Definition shl (a b : Z) : result Z :=
  if b <? 0 then raise ValueError else Ok (Z.shiftl a b).

Definition shr (a b : Z) : result Z :=
  if b <? 0 then raise ValueError else Ok (Z.shiftr a b).

(** [range(start, stop, step)], with [step <> 0]. *)
Record range : Type := Range {
  start : Z;
  stop : Z;
  step : Z
}.

Definition range_len (r : range) : Z :=
  if 0 <? step r then
    if start r <? stop r then (stop r - start r - 1) / step r + 1 else 0
  else
    if stop r <? start r then (start r - stop r - 1) / (- step r) + 1 else 0.

Definition range_elems (r : range) : list Z :=
  map (fun i => start r + Z.of_nat i * step r)
      (seq 0 (Z.to_nat (range_len r))).

(** A Python string is modelled as the sequence of its code points, one
    character each, so a [string] stands for a Python string whose code
    points lie below 256, and [len] counts code points.

    Characters that [str.split()] treats as separators, which is where
    [str.isspace] holds: among the code points below 256, the tab, line
    feed, vertical tab, form feed and carriage return (9 to 13), the four
    separator controls and the space (28 to 32), the next-line control
    U+0085 and the no-break space U+00A0. *)
Definition isspace (c : ascii) : bool :=
  let n := Z.of_nat (nat_of_ascii c) in
  ((9 <=? n) && (n <=? 13)) || ((28 <=? n) && (n <=? 32))
  || (n =? 133) || (n =? 160).

(** [''.join(s.split())]. *)
Fixpoint join_split (s : string) : string :=
  match s with
  | EmptyString => EmptyString
  | String c s' => if isspace c then join_split s' else String c (join_split s')
  end.

(** [s.replace(a, b)] for single characters. *)
Fixpoint replace (a b : ascii) (s : string) : string :=
  match s with
  | EmptyString => EmptyString
  | String c s' => String (if Ascii.eqb c a then b else c) (replace a b s')
  end.

(** [c in s] for a character. *)
Fixpoint char_in (c : ascii) (s : string) : bool :=
  match s with
  | EmptyString => false
  | String d s' => Ascii.eqb c d || char_in c s'
  end.

(** [any(f(c) for c in s)]. *)
Fixpoint any_char (f : ascii -> bool) (s : string) : bool :=
  match s with
  | EmptyString => false
  | String c s' => f c || any_char f s'
  end.

Definition len (s : string) : Z := Z.of_nat (String.length s).

(** [int(s, 2)] on a string of the digits 0 and 1, which is all this module
    passes it: the empty string is a [ValueError]; so is, here, any other
    character. *)
Fixpoint int2_digits (acc : Z) (s : string) : result Z :=
  match s with
  | EmptyString => Ok acc
  | String c s' =>
      if Ascii.eqb c "0" then int2_digits (2 * acc) s'
      else if Ascii.eqb c "1" then int2_digits (2 * acc + 1) s'
      else raise ValueError
  end.

Definition int2 (s : string) : result Z :=
  match s with
  | EmptyString => raise ValueError
  | _ => int2_digits 0 s
  end.

(** [format(n, 'b')]: binary digits, most significant first. *)
Fixpoint bin_pos (p : positive) (acc : string) : string :=
  match p with
  | xH => String "1" acc
  | xO p' => bin_pos p' (String "0" acc)
  | xI p' => bin_pos p' (String "1" acc)
  end.

Definition format_b (n : Z) : string :=
  match n with
  | Z0 => "0"
  | Zpos p => bin_pos p ""
  | Zneg p => String "-" (bin_pos p "")
  end.

Fixpoint repeat_char (c : ascii) (n : nat) : string :=
  match n with
  | O => EmptyString
  | S n' => String c (repeat_char c n')
  end.

(** [s.rjust(n, c)]. *)
Definition rjust (s : string) (n : Z) (c : ascii) : string :=
  (repeat_char c (Z.to_nat (n - len s)) ++ s)%string.

(** Python list indexing: a negative index counts from the end. *)
Definition norm_index {A : Type} (l : list A) (i : Z) : option nat :=
  let n := Z.of_nat (List.length l) in
  if (0 <=? i) && (i <? n) then Some (Z.to_nat i)
  else if (- n <=? i) && (i <? 0) then Some (Z.to_nat (i + n))
  else None.

Fixpoint set_nth {A : Type} (l : list A) (n : nat) (x : A) : list A :=
  match l, n with
  | [], _ => []
  | _ :: t, O => x :: t
  | h :: t, S n' => h :: set_nth t n' x
  end.

Fixpoint del_nth {A : Type} (l : list A) (n : nat) : list A :=
  match l, n with
  | [], _ => []
  | _ :: t, O => t
  | h :: t, S n' => h :: del_nth t n'
  end.

(** [l.insert(i, x)]: the index is clamped to the list. *)
Definition insert {A : Type} (l : list A) (i : Z) (x : A) : list A :=
  let n := Z.of_nat (List.length l) in
  let j := if i <? 0 then Z.max 0 (i + n) else Z.min i n in
  firstn (Z.to_nat j) l ++ x :: skipn (Z.to_nat j) l.

End Py.

(** ** [torii.util.units] *)

(** Modelled from the spec: [log2_int] and [bits_for] live in
    [torii/util/units.py], which is not among the sources at hand.  The spec
    uses them as "the number of bits needed to represent" an integer: the
    least width that holds [n], with one more bit for the sign when [n] is
    not positive or when a sign bit is asked for. *)
Definition log2_int (n : Z) : Z :=
  if n =? 0 then 0 else Py.bit_length (n - 1).

(** Modelled from the spec: [bits_for n require_sign_bit], also from the
    absent [torii/util/units.py]: the number of bits [n] needs, counting a
    sign bit when [n <= 0] or when [require_sign_bit] is set. *)
Definition bits_for (n : Z) (require_sign_bit : bool) : Z :=
  if 0 <? n then
    let r := log2_int (n + 1) in
    if require_sign_bit then r + 1 else r
  else
    log2_int (- n) + 1.

(** ** Shapes *)

Record Shape : Type := MkShape {
  width : Z;
  is_signed : bool
}.

(** [Shape.__init__]: the width must be a non-negative integer. *)
Definition Shape_init (w : Z) (s : bool) : result Shape :=
  if w <? 0 then raise TypeError else Ok (MkShape w s).

Definition unsigned (w : Z) : result Shape := Shape_init w false.
Definition signed (w : Z) : result Shape := Shape_init w true.

(** [Shape.__eq__] between two shapes. *)
Definition Shape_eq (a b : Shape) : bool :=
  (width a =? width b) && Bool.eqb (is_signed a) (is_signed b).

(** What [Shape.cast] accepts: a shape, an integer width, a range, or an
    enumeration, given by its members' integer values. *)
Inductive shape_castable : Type :=
| FromShape (sh : Shape)
| FromInt (n : Z)
| FromRange (r : Py.range)
| FromEnum (members : list Z).

Definition Shape_cast_range (obj : Py.range) : result Shape :=
  if Py.range_len obj =? 0 then
    Shape_init 0 (Py.start obj <? 0)
  else
    let signed := (Py.start obj <? 0) || (Py.stop obj - Py.step obj <? 0) in
    let width := Z.max (bits_for (Py.start obj) signed)
                       (bits_for (Py.stop obj - Py.step obj) signed) in
    Shape_init width signed.

Definition min_list (x : Z) (l : list Z) : Z := fold_left Z.min l x.
Definition max_list (x : Z) (l : list Z) : Z := fold_left Z.max l x.

Definition Shape_cast (obj : shape_castable) : result Shape :=
  match obj with
  | FromShape sh => Ok sh
  | FromInt n => Shape_init n false
  | FromRange r => Shape_cast_range r
  | FromEnum [] => raise ValueError
  | FromEnum (m :: ms) =>
      let min_value := min_list m ms in
      let max_value := max_list m ms in
      let signed := (min_value <? 0) || (max_value <? 0) in
      let width := Z.max (bits_for min_value signed) (bits_for max_value signed) in
      Shape_init width signed
  end.

(** ** Values *)

(** The variants of [Value].  [Signal], [AnyConst] and [AnySeq] carry the
    [duid] that [DUID.__init__] hands out; object identity of such a node is
    identity of its [duid].  The elements of an [ArrayProxy] are kept as
    [_iter_as_values] yields them. *)
Inductive Value : Type :=
| Const (value width : Z) (signed : bool)
| AnyConst (duid width : Z) (signed : bool)
| AnySeq (duid width : Z) (signed : bool)
| Operator (operator : string) (operands : list Value)
| Slice (value : Value) (start stop : Z)
| Part (value offset : Value) (width stride : Z)
| Cat (parts : list Value)
| Repl (value : Value) (count : Z)
| Signal (duid width : Z) (signed : bool) (name : string)
         (reset : Z) (reset_less : bool)
| ClockSignal (domain : string)
| ResetSignal (domain : string) (allow_reset_less : bool)
| ArrayProxy (elems : list Value) (index : Value)
| Sample (value : Value) (clocks : Z) (domain : option string)
| Initial.

(** Induction over values that reaches the values inside lists. *)
Section Value_nested_induction.

Variable P : Value -> Prop.

Hypothesis P_Const : forall value width signed, P (Const value width signed).
Hypothesis P_AnyConst : forall duid width signed, P (AnyConst duid width signed).
Hypothesis P_AnySeq : forall duid width signed, P (AnySeq duid width signed).
Hypothesis P_Operator :
  forall operator operands, Forall P operands -> P (Operator operator operands).
Hypothesis P_Slice :
  forall value start stop, P value -> P (Slice value start stop).
Hypothesis P_Part :
  forall value offset width stride,
    P value -> P offset -> P (Part value offset width stride).
Hypothesis P_Cat : forall parts, Forall P parts -> P (Cat parts).
Hypothesis P_Repl : forall value count, P value -> P (Repl value count).
Hypothesis P_Signal :
  forall duid width signed name reset reset_less,
    P (Signal duid width signed name reset reset_less).
Hypothesis P_ClockSignal : forall domain, P (ClockSignal domain).
Hypothesis P_ResetSignal :
  forall domain allow_reset_less, P (ResetSignal domain allow_reset_less).
Hypothesis P_ArrayProxy :
  forall elems index, Forall P elems -> P index -> P (ArrayProxy elems index).
Hypothesis P_Sample :
  forall value clocks domain, P value -> P (Sample value clocks domain).
Hypothesis P_Initial : P Initial.

Fixpoint Value_nested_ind (v : Value) : P v :=
  let fix all (vs : list Value) : Forall P vs :=
    match vs with
    | [] => Forall_nil P
    | x :: vs' => Forall_cons x (Value_nested_ind x) (all vs')
    end in
  match v with
  | Const value width signed => P_Const value width signed
  | AnyConst duid width signed => P_AnyConst duid width signed
  | AnySeq duid width signed => P_AnySeq duid width signed
  | Operator operator operands => P_Operator operator operands (all operands)
  | Slice value start stop => P_Slice value start stop (Value_nested_ind value)
  | Part value offset width stride =>
      P_Part value offset width stride
             (Value_nested_ind value) (Value_nested_ind offset)
  | Cat parts => P_Cat parts (all parts)
  | Repl value count => P_Repl value count (Value_nested_ind value)
  | Signal duid width signed name reset reset_less =>
      P_Signal duid width signed name reset reset_less
  | ClockSignal domain => P_ClockSignal domain
  | ResetSignal domain allow_reset_less =>
      P_ResetSignal domain allow_reset_less
  | ArrayProxy elems index =>
      P_ArrayProxy elems index (all elems) (Value_nested_ind index)
  | Sample value clocks domain =>
      P_Sample value clocks domain (Value_nested_ind value)
  | Initial => P_Initial
  end.

End Value_nested_induction.

(** [tag in (t1, t2, ...)] on operator tags. *)
Definition tag_in (op : string) (tags : list string) : bool :=
  existsb (String.eqb op) tags.

(** The local helper [_bitwise_binary_shape] of [Operator.shape]. *)
Definition _bitwise_binary_shape (a_shape b_shape : Shape) : result Shape :=
  let a_bits := width a_shape in
  let a_sign := is_signed a_shape in
  let b_bits := width b_shape in
  let b_sign := is_signed b_shape in
  if negb a_sign && negb b_sign then
    Shape_init (Z.max a_bits b_bits) false
  else if a_sign && b_sign then
    Shape_init (Z.max a_bits b_bits) true
  else if negb a_sign && b_sign then
    Shape_init (Z.max (a_bits + 1) b_bits) true
  else
    Shape_init (Z.max a_bits (b_bits + 1)) true.

(** The body of [Operator.shape], once the operand shapes are known. *)
Definition Operator_shape (operator : string) (op_shapes : list Shape)
  : result Shape :=
  let not_implemented := raise NotImplementedError in
  match op_shapes with
  | [a] =>
      let a_width := width a in
      let a_signed := is_signed a in
      if tag_in operator ["+"; "~"]%string then Shape_init a_width a_signed
      else if String.eqb operator "-" then Shape_init (a_width + 1) true
      else if tag_in operator ["b"; "r|"; "r&"; "r^"]%string then Shape_init 1 false
      else if String.eqb operator "u" then Shape_init a_width false
      else if String.eqb operator "s" then Shape_init a_width true
      else not_implemented
  | [a; b] =>
      let a_width := width a in
      let a_signed := is_signed a in
      let b_width := width b in
      let b_signed := is_signed b in
      if tag_in operator ["+"; "-"]%string then
        sh <- _bitwise_binary_shape a b ;;
        Shape_init (width sh + 1) (is_signed sh)
      else if String.eqb operator "*" then
        Shape_init (a_width + b_width) (a_signed || b_signed)
      else if String.eqb operator "//" then
        Shape_init (a_width + Z.b2z b_signed) (a_signed || b_signed)
      else if String.eqb operator "%" then
        Shape_init b_width b_signed
      else if tag_in operator ["<"; "<="; "=="; "!="; ">"; ">="]%string then
        Shape_init 1 false
      else if tag_in operator ["&"; "^"; "|"]%string then
        _bitwise_binary_shape a b
      else if String.eqb operator "<<" then
        if b_signed then raise AssertionError
        else Shape_init (a_width + 2 ^ b_width - 1) a_signed
      else if String.eqb operator ">>" then
        if b_signed then raise AssertionError
        else Shape_init a_width a_signed
      else not_implemented
  | [_; a; b] =>
      if String.eqb operator "m" then _bitwise_binary_shape a b
      else not_implemented
  | _ => not_implemented
  end.

(** The loop of [ArrayProxy.shape] over the element shapes: the running
    (unsigned_width, signed_width, has_unsigned, has_signed). *)
Definition ArrayProxy_scan (acc : Z * Z * bool * bool) (elem : Shape)
  : Z * Z * bool * bool :=
  let '(unsigned_width, signed_width, has_unsigned, has_signed) := acc in
  if is_signed elem then
    (unsigned_width, Z.max signed_width (width elem), has_unsigned, true)
  else
    (Z.max unsigned_width (width elem), signed_width, true, has_signed).

Definition ArrayProxy_shape (elem_shapes : list Shape) : result Shape :=
  let '(unsigned_width, signed_width, has_unsigned, has_signed) :=
    fold_left ArrayProxy_scan elem_shapes (0, 0, false, false) in
  if has_signed && has_unsigned && (signed_width <=? unsigned_width) then
    signed (unsigned_width + 1)
  else
    Shape_init (Z.max unsigned_width signed_width) has_signed.

(** [sum(len(part) for part in parts)]. *)
Definition sum_widths (shapes : list Shape) : Z :=
  fold_left (fun acc sh => acc + width sh) shapes 0.

(** [Value.shape], by variant. *)
Fixpoint shape (v : Value) : result Shape :=
  let fix shapes (vs : list Value) : result (list Shape) :=
    match vs with
    | [] => Ok []
    | x :: vs' =>
        sh <- shape x ;;
        shs <- shapes vs' ;;
        Ok (sh :: shs)
    end in
  match v with
  | Const _ width signed => Shape_init width signed
  | AnyConst _ width signed => Shape_init width signed
  | AnySeq _ width signed => Shape_init width signed
  | Operator operator operands =>
      op_shapes <- shapes operands ;;
      Operator_shape operator op_shapes
  | Slice _ start stop => Shape_init (stop - start) false
  | Part _ _ width _ => Shape_init width false
  | Cat parts =>
      part_shapes <- shapes parts ;;
      Shape_init (sum_widths part_shapes) false
  | Repl value count =>
      sh <- shape value ;;
      Shape_init (width sh * count) false
  | Signal _ width signed _ _ _ => Shape_init width signed
  | ClockSignal _ => Shape_init 1 false
  | ResetSignal _ _ => Shape_init 1 false
  | ArrayProxy elems _ =>
      elem_shapes <- shapes elems ;;
      ArrayProxy_shape elem_shapes
  | Sample value _ _ => shape value
  | Initial => Shape_init 1 false
  end.

(** The shapes of a list of values, in order: the first failure wins. *)
Fixpoint shapes (vs : list Value) : result (list Shape) :=
  match vs with
  | [] => Ok []
  | x :: vs' =>
      sh <- shape x ;;
      shs <- shapes vs' ;;
      Ok (sh :: shs)
  end.

(** [Value.__len__]. *)
Definition Value_len (v : Value) : result Z :=
  sh <- shape v ;; Ok (width sh).

(** ** Constants and casting to values *)

(** [Const.normalize]: two's-complement masking into [width] bits, with sign
    extension when the shape is signed and the top bit is set. *)
Definition Const_normalize (value : Z) (shape : Z * bool) : result Z :=
  let '(width, signed) := shape in
  one <- Py.shl 1 width ;;
  let mask := one - 1 in
  let value := Z.land value mask in
  top <- (if signed
          then hi <- Py.shr value (width - 1) ;; Ok (Py.truthy hi)
          else Ok false) ;;
  if top then Ok (Z.lor value (Z.lnot mask)) else Ok value.

(** The [shape] argument of [Const]: absent, a bare width, or anything
    [Shape.cast] takes. *)
Inductive const_shape : Type :=
| ShapeNone
| ShapeWidth (n : Z)
| ShapeOf (obj : shape_castable).

(** [Const.__init__]. *)
Definition Const_init (value : Z) (shape : const_shape) : result Value :=
  sh <- match shape with
        | ShapeNone => Shape_init (bits_for value false) (value <? 0)
        | ShapeWidth n => Shape_init n (value <? 0)
        | ShapeOf obj => Shape_cast obj
        end ;;
  value <- Const_normalize value (width sh, is_signed sh) ;;
  Ok (Const value (width sh) (is_signed sh)).

(** What [Value.cast] accepts: a value, an integer, or an enumeration member
    (its enumeration's member values and its own value). *)
Inductive value_castable : Type :=
| AsValue (v : Value)
| AsInt (n : Z)
| AsEnum (members : list Z) (value : Z).

Definition Value_cast (obj : value_castable) : result Value :=
  match obj with
  | AsValue v => Ok v
  | AsInt n => Const_init n ShapeNone
  | AsEnum members value => Const_init value (ShapeOf (FromEnum members))
  end.

Fixpoint cast_all (objs : list value_castable) : result (list Value) :=
  match objs with
  | [] => Ok []
  | obj :: objs' =>
      v <- Value_cast obj ;;
      vs <- cast_all objs' ;;
      Ok (v :: vs)
  end.

(** [Operator.__init__]: every operand goes through [Value.cast]. *)
Definition Operator_init (operator : string) (operands : list value_castable)
  : result Value :=
  operands <- cast_all operands ;;
  Ok (Operator operator operands).

(** [Mux]. *)
Definition Mux (sel val1 val0 : value_castable) : result Value :=
  Operator_init "m" [sel; val1; val0].

(** ** Operators of [Value] that build nodes *)

Definition Value_add (self : Value) (other : value_castable) : result Value :=
  Operator_init "+" [AsValue self; other].

Definition Value_sub (self : Value) (other : value_castable) : result Value :=
  Operator_init "-" [AsValue self; other].

Definition Value_and (self : Value) (other : value_castable) : result Value :=
  Operator_init "&" [AsValue self; other].

Definition Value_eq (self : Value) (other : value_castable) : result Value :=
  Operator_init "==" [AsValue self; other].

Definition Value_any (self : Value) : result Value :=
  Operator_init "r|" [AsValue self].

(** [Value.__check_shamt]. *)
Definition Value_check_shamt (self : Value) : result unit :=
  sh <- shape self ;;
  if is_signed sh then raise TypeError else Ok tt.

(** [Value.__lshift__]: [self << other]. *)
Definition Value_lshift (self : Value) (other : value_castable) : result Value :=
  other <- Value_cast other ;;
  _ <- Value_check_shamt other ;;
  Operator_init "<<" [AsValue self; AsValue other].

(** [Value.__rlshift__]: [other << self] for an [other] that is not a value. *)
Definition Value_rlshift (self : Value) (other : value_castable) : result Value :=
  _ <- Value_check_shamt self ;;
  Operator_init "<<" [other; AsValue self].

(** ** Warnings *)

Inductive warning : Type :=
| MatchPatternTooWide (pattern : Z) (value_width : Z)
| CatBareInteger (position : Z) (arg : Z)
| ResetTooWide (reset : Z) (reset_width : Z) (signal_width : Z).

(** [Cat.__init__]: a bare integer other than 0 and 1 earns a warning; every
    argument is cast. *)
Fixpoint Cat_parts (index : Z) (args : list value_castable)
  : list warning * result (list Value) :=
  match args with
  | [] => ([], Ok [])
  | arg :: args' =>
      let w := match arg with
               | AsInt n => if (n =? 0) || (n =? 1) then []
                            else [CatBareInteger (index + 1) n]
               | _ => []
               end in
      match Value_cast arg with
      | Error e => (w, Error e)
      | Ok v =>
          let '(ws, r) := Cat_parts (index + 1) args' in
          (w ++ ws, vs <- r ;; Ok (v :: vs))
      end
  end.

Definition Cat_init (args : list value_castable) : list warning * result Value :=
  let '(ws, r) := Cat_parts 0 args in
  (ws, parts <- r ;; Ok (Cat parts)).

(** ** [Value.matches] *)

(** A pattern handed to [matches]: an integer, a string, an enumeration
    member (by its value), or an object of another type. *)
Inductive pattern : Type :=
| PInt (n : Z)
| PStr (s : string)
| PEnum (value : Z)
| POther.

(** What one round of the loop over the patterns does to the list
    [matches]: it raises, it warns and skips the pattern, or it appends one
    comparison. *)
Inductive round : Type :=
| Raised (e : exn)
| Skipped (w : warning)
| Appended (m : Value).

Definition round_of (r : result Value) : round :=
  match r with
  | Ok m => Appended m
  | Error e => Raised e
  end.

Definition round_of_unit (r : result round) : round :=
  match r with
  | Ok x => x
  | Error e => Raised e
  end.

(** The characters a string pattern may hold: ['01- \t'], the last one
    being the tab. *)
Definition pattern_alphabet : string :=
  String "0" (String "1" (String "-" (String " " (String "009" EmptyString)))).

(** The body of the loop of [matches] for one pattern. *)
Definition matches_round (self : Value) (p : pattern) : round :=
  match p with
  | POther => Raised (MkExn SyntaxError None)
  | PStr s =>
      if Py.any_char (fun bit => negb (Py.char_in bit pattern_alphabet)) s
      then Raised (MkExn SyntaxError None)
      else round_of_unit (
        n <- Value_len self ;;
        if negb (Py.len (Py.join_split s) =? n)
        then Ok (Raised (MkExn SyntaxError None))
        else
          let pattern := Py.join_split s in
          Ok (round_of (
            mask <- Py.int2 (Py.replace "-" "0" (Py.replace "0" "1" pattern)) ;;
            pattern <- Py.int2 (Py.replace "-" "0" pattern) ;;
            masked <- Value_and self (AsInt mask) ;;
            Value_eq masked (AsInt pattern))))
  | PInt k =>
      round_of_unit (
        n <- Value_len self ;;
        if n <? bits_for k false
        then Ok (Skipped (MatchPatternTooWide k n))
        else Ok (round_of (Value_eq self (AsInt k))))
  | PEnum value => round_of (Value_eq self (AsInt value))
  end.

(** The loop of [matches]: [acc] is the list [matches] so far, [ws] the
    warnings so far. *)
Fixpoint matches_loop (self : Value) (patterns : list pattern)
         (acc : list Value) (ws : list warning)
  : list warning * result (list Value) :=
  match patterns with
  | [] => (ws, Ok acc)
  | p :: patterns' =>
      match matches_round self p with
      | Raised e => (ws, Error e)
      | Skipped w => matches_loop self patterns' acc (ws ++ [w])
      | Appended m => matches_loop self patterns' (acc ++ [m]) ws
      end
  end.

(** What [matches] returns once the loop is over. *)
Definition matches_result (matches : list Value) : list warning * result Value :=
  match matches with
  | [] => ([], Const_init 0 ShapeNone)
  | [m] => ([], Ok m)
  | _ =>
      let '(ws, cat) := Cat_init (map AsValue matches) in
      (ws, c <- cat ;; Value_any c)
  end.

(** [Value.matches]. *)
Definition Value_matches (self : Value) (patterns : list pattern)
  : list warning * result Value :=
  match matches_loop self patterns [] [] with
  | (ws, Error e) => (ws, Error e)
  | (ws, Ok matches) =>
      let '(ws', r) := matches_result matches in
      (ws ++ ws', r)
  end.

(** ** Statements and [Switch] *)

(** Statements; the cases of a [Switch] are an ordered mapping from the
    tuple of normalized keys to the statements of the case. *)
Inductive Statement : Type :=
| Assign (lhs rhs : Value)
| Property (kind : string) (test check en : Value)
| Switch (test : Value) (cases : list (list string * list Statement)).

(** One key of a case as the caller writes it. *)
Inductive switch_key : Type :=
| KStr (s : string)
| KInt (n : Z)
| KEnum (value : Z)
| KOther.

(** The keys of a case as the caller writes them: [None] for the default, a
    lone key, or a tuple of keys. *)
Inductive case_keys : Type :=
| KeysNone
| KeysOne (key : switch_key)
| KeysTuple (keys : list switch_key).

(** The body of the inner loop of [Switch.__init__] for one key, ending in
    its assertion on the length. *)
Definition Switch_key (test_len key_mask : Z) (key : switch_key)
  : result string :=
  key <- match key with
         | KStr s => Ok (Py.join_split s)
         | KInt n => Ok (Py.rjust (Py.format_b (Z.land n key_mask)) test_len "0")
         | KEnum value =>
             Ok (Py.rjust (Py.format_b (Z.land value key_mask)) test_len "0")
         | KOther => raise TypeError
         end ;;
  if Py.len key =? test_len then Ok key else raise AssertionError.

Fixpoint Switch_keys (test_len key_mask : Z) (keys : list switch_key)
  : result (list string) :=
  match keys with
  | [] => Ok []
  | key :: keys' =>
      k <- Switch_key test_len key_mask key ;;
      ks <- Switch_keys test_len key_mask keys' ;;
      Ok (k :: ks)
  end.

(** [None -> (); key -> (key,); (key...) -> (key...)]. *)
Definition keys_tuple (orig_keys : case_keys) : list switch_key :=
  match orig_keys with
  | KeysNone => []
  | KeysOne key => [key]
  | KeysTuple keys => keys
  end.

(** The outer loop body: the normalized keys of one case. *)
Definition Switch_case_keys (test : Value) (orig_keys : case_keys)
  : result (list string) :=
  let keys := keys_tuple orig_keys in
  test_len <- Value_len test ;;
  one <- Py.shl 1 test_len ;;
  let key_mask := one - 1 in
  Switch_keys test_len key_mask keys.

Definition keys_eqb (a b : list string) : bool :=
  if list_eq_dec String.string_dec a b then true else false.

(** [d[k] = v] on an ordered mapping: an existing key keeps its place. *)
Fixpoint odict_set {V : Type} (d : list (list string * V))
         (k : list string) (v : V) : list (list string * V) :=
  match d with
  | [] => [(k, v)]
  | (k', v') :: d' =>
      if keys_eqb k' k then (k, v) :: d' else (k', v') :: odict_set d' k v
  end.

Fixpoint Switch_cases (test : Value)
         (cases : list (case_keys * list Statement))
         (acc : list (list string * list Statement))
  : result (list (list string * list Statement)) :=
  match cases with
  | [] => Ok acc
  | (orig_keys, stmts) :: cases' =>
      new_keys <- Switch_case_keys test orig_keys ;;
      Switch_cases test cases' (odict_set acc new_keys stmts)
  end.

(** [Switch.__init__], without the optional source locations of the cases. *)
Definition Switch_init (test : value_castable)
           (cases : list (case_keys * list Statement)) : result Statement :=
  test <- Value_cast test ;;
  cases <- Switch_cases test cases [] ;;
  Ok (Switch test cases).

(** ** Arrays *)

(** The state of an [Array] object. *)
Record Array : Type := MkArray {
  _inner : list Value;
  _proxy_at : option src_loc;
  _mutable : bool
}.

Definition Array_init (iterable : list Value) : Array :=
  MkArray iterable None true.

(** [Array.__getitem__] with a [Value] index, called from [here]: the new
    state of the array and the proxy.  The proxy keeps the array itself;
    from here on the array's list cannot change, so the proxy is given the
    list. *)
Definition Array_getitem_value (self : Array) (index : Value) (here : src_loc)
  : Array * Value :=
  let self := if _mutable self
              then MkArray (_inner self) (Some here) false
              else self in
  (self, ArrayProxy (_inner self) index).

(** [Array.__getitem__] with an integer index. *)
Definition Array_getitem_int (self : Array) (index : Z) : result Value :=
  match Py.norm_index (_inner self) index with
  | Some n => match nth_error (_inner self) n with
              | Some v => Ok v
              | None => raise IndexError
              end
  | None => raise IndexError
  end.

(** [Array._check_mutability]: the error cites [_proxy_at]. *)
Definition Array_check_mutability (self : Array) : result unit :=
  if _mutable self then Ok tt else Error (MkExn ValueError (_proxy_at self)).

Definition with_inner (self : Array) (inner : list Value) : Array :=
  MkArray inner (_proxy_at self) (_mutable self).

(** [Array.__setitem__] with an integer index. *)
Definition Array_setitem (self : Array) (index : Z) (value : Value)
  : result Array :=
  _ <- Array_check_mutability self ;;
  match Py.norm_index (_inner self) index with
  | Some n => Ok (with_inner self (Py.set_nth (_inner self) n value))
  | None => raise IndexError
  end.

(** [Array.__delitem__] with an integer index. *)
Definition Array_delitem (self : Array) (index : Z) : result Array :=
  _ <- Array_check_mutability self ;;
  match Py.norm_index (_inner self) index with
  | Some n => Ok (with_inner self (Py.del_nth (_inner self) n))
  | None => raise IndexError
  end.

(** [Array.insert]. *)
Definition Array_insert (self : Array) (index : Z) (value : Value)
  : result Array :=
  _ <- Array_check_mutability self ;;
  Ok (with_inner self (Py.insert (_inner self) index value)).

(** The calls a client can make on an array, and one step of its life: a
    call that raises leaves the array as it was. *)
Inductive Array_call : Type :=
| GetValue (index : Value) (here : src_loc)
| GetInt (index : Z)
| SetItem (index : Z) (value : Value)
| DelItem (index : Z)
| Insert (index : Z) (value : Value).

Definition is_mutation (c : Array_call) : bool :=
  match c with
  | SetItem _ _ | DelItem _ | Insert _ _ => true
  | _ => false
  end.

(** The outcome of a call: the array afterwards, and the exception if the
    call raised. *)
Definition Array_step (self : Array) (c : Array_call) : Array * option exn :=
  let of_result (r : result Array) :=
    match r with
    | Ok a => (a, None)
    | Error e => (self, Some e)
    end in
  match c with
  | GetValue index here => (fst (Array_getitem_value self index here), None)
  | GetInt index =>
      match Array_getitem_int self index with
      | Ok _ => (self, None)
      | Error e => (self, Some e)
      end
  | SetItem index value => of_result (Array_setitem self index value)
  | DelItem index => of_result (Array_delitem self index)
  | Insert index value => of_result (Array_insert self index value)
  end.

Definition Array_run (self : Array) (calls : list Array_call) : Array :=
  fold_left (fun a c => fst (Array_step a c)) calls self.

(** ** Signals and their unique identifiers *)

(** [DUID.__init__] against the process-wide counter [DUID.__next_uid]: the
    identifier handed out and the counter afterwards. *)
Definition DUID_init (next_uid : Z) : Z * Z := (next_uid, next_uid + 1).

(** [Signal.__init__] for an integer [reset], without attributes and decoder.
    The identifier is taken before anything can raise. *)
Definition Signal_init (next_uid : Z) (shape : option shape_castable)
           (name : string) (reset : Z) (reset_less : bool)
  : Z * list warning * result Value :=
  let '(duid, next_uid) := DUID_init next_uid in
  let shape := match shape with
               | None => FromShape (MkShape 1 false)
               | Some obj => obj
               end in
  match Shape_cast shape with
  | Error e => (next_uid, [], Error e)
  | Ok sh =>
      let reset_width := bits_for reset (is_signed sh) in
      let ws := if negb (reset =? 0) && (width sh <? reset_width)
                then [ResetTooWide reset reset_width (width sh)]
                else [] in
      (next_uid, ws,
       Ok (Signal duid (width sh) (is_signed sh) name reset reset_less))
  end.

(** [Sample.__init__]. *)
Definition Sample_init (expr : value_castable) (clocks : Z)
           (domain : option string) : result Value :=
  value <- Value_cast expr ;;
  match value with
  | Const _ _ _ | Signal _ _ _ _ _ _ | ClockSignal _ | ResetSignal _ _
  | Initial =>
      if clocks <? 0 then raise ValueError
      else Ok (Sample value clocks domain)
  | _ => raise TypeError
  end.

(** ** Structural keys *)

(** [isinstance(self.value, type(other.value))]: the classes are final, so
    this is "same variant". *)
Definition same_class (a b : Value) : bool :=
  match a, b with
  | Const _ _ _, Const _ _ _
  | AnyConst _ _ _, AnyConst _ _ _
  | AnySeq _ _ _, AnySeq _ _ _
  | Operator _ _, Operator _ _
  | Slice _ _ _, Slice _ _ _
  | Part _ _ _ _, Part _ _ _ _
  | Cat _, Cat _
  | Repl _ _, Repl _ _
  | Signal _ _ _ _ _ _, Signal _ _ _ _ _ _
  | ClockSignal _, ClockSignal _
  | ResetSignal _ _, ResetSignal _ _
  | ArrayProxy _ _, ArrayProxy _ _
  | Sample _ _ _, Sample _ _ _
  | Initial, Initial => true
  | _, _ => false
  end.

(** [ValueKey.__init__]: the hash is built from the keys of the parts, so
    building a key visits the whole value and raises [TypeError] at the
    first variant that has no key.  The hash value itself is not modelled. *)
Fixpoint ValueKey_init (v : Value) : result unit :=
  let fix keys (vs : list Value) : result unit :=
    match vs with
    | [] => Ok tt
    | x :: vs' => _ <- ValueKey_init x ;; keys vs'
    end in
  match v with
  | Const _ _ _ | Signal _ _ _ _ _ _ | AnyConst _ _ _ | AnySeq _ _ _
  | ClockSignal _ | ResetSignal _ _ | Initial => Ok tt
  | Operator _ operands => keys operands
  | Slice value _ _ => ValueKey_init value
  | Part value offset _ _ => _ <- ValueKey_init value ;; ValueKey_init offset
  | Cat parts => keys parts
  | ArrayProxy elems index => _ <- ValueKey_init index ;; keys elems
  | Sample value _ _ => ValueKey_init value
  | Repl _ _ => raise TypeError
  end.

Definition domain_eqb (a b : option string) : bool :=
  match a, b with
  | None, None => true
  | Some x, Some y => String.eqb x y
  | _, _ => false
  end.

(** [ValueKey.__eq__] on the wrapped values.  [ValueKey(a) == ValueKey(b)]
    on parts first builds both keys; [all(...)] over [zip(...)] stops at the
    first unequal pair and at the end of the shorter list. *)
Fixpoint ValueKey_eq_values (self other : Value) {struct self} : result bool :=
  let fix all_zip (xs ys : list Value) {struct xs} : result bool :=
    match xs, ys with
    | a :: xs', b :: ys' =>
        _ <- ValueKey_init a ;;
        _ <- ValueKey_init b ;;
        r <- ValueKey_eq_values a b ;;
        if r then all_zip xs' ys' else Ok false
    | _, _ => Ok true
    end in
  if negb (same_class self other) then Ok false
  else
    match self, other with
    | Const a _ _, Const b _ _ => Ok (a =? b)
    | Signal a _ _ _ _ _, Signal b _ _ _ _ _ => Ok (a =? b)
    | AnyConst a _ _, AnyConst b _ _ => Ok (a =? b)
    | AnySeq a _ _, AnySeq b _ _ => Ok (a =? b)
    | ClockSignal a, ClockSignal b => Ok (String.eqb a b)
    | ResetSignal a _, ResetSignal b _ => Ok (String.eqb a b)
    | Operator op_a ops_a, Operator op_b ops_b =>
        if String.eqb op_a op_b
           && (Z.of_nat (List.length ops_a) =? Z.of_nat (List.length ops_b))
        then all_zip ops_a ops_b
        else Ok false
    | Slice va start_a stop_a, Slice vb start_b stop_b =>
        _ <- ValueKey_init va ;;
        _ <- ValueKey_init vb ;;
        r <- ValueKey_eq_values va vb ;;
        Ok (r && (start_a =? start_b) && (stop_a =? stop_b))
    | Part va off_a width_a stride_a, Part vb off_b width_b stride_b =>
        _ <- ValueKey_init va ;;
        _ <- ValueKey_init vb ;;
        r <- ValueKey_eq_values va vb ;;
        if r then
          _ <- ValueKey_init off_a ;;
          _ <- ValueKey_init off_b ;;
          r' <- ValueKey_eq_values off_a off_b ;;
          Ok (r' && (width_a =? width_b) && (stride_a =? stride_b))
        else Ok false
    | Cat parts_a, Cat parts_b => all_zip parts_a parts_b
    | ArrayProxy elems_a index_a, ArrayProxy elems_b index_b =>
        _ <- ValueKey_init index_a ;;
        _ <- ValueKey_init index_b ;;
        r <- ValueKey_eq_values index_a index_b ;;
        if r && (Z.of_nat (List.length elems_a) =? Z.of_nat (List.length elems_b))
        then all_zip elems_a elems_b
        else Ok false
    | Sample va clocks_a domain_a, Sample vb clocks_b _ =>
        _ <- ValueKey_init va ;;
        _ <- ValueKey_init vb ;;
        r <- ValueKey_eq_values va vb ;;
        Ok (r && (clocks_a =? clocks_b) && domain_eqb domain_a domain_a)
    | Initial, Initial => Ok true
    | _, _ => raise TypeError
    end.

(** Building the keys of a list of values, as the hash of a tuple of keys
    does. *)
Fixpoint ValueKey_init_all (vs : list Value) : result unit :=
  match vs with
  | [] => Ok tt
  | x :: vs' => _ <- ValueKey_init x ;; ValueKey_init_all vs'
  end.

(** [all(ValueKey(a) == ValueKey(b) for a, b in zip(xs, ys))]. *)
Fixpoint ValueKey_eq_all (xs ys : list Value) : result bool :=
  match xs, ys with
  | a :: xs', b :: ys' =>
      _ <- ValueKey_init a ;;
      _ <- ValueKey_init b ;;
      r <- ValueKey_eq_values a b ;;
      if r then ValueKey_eq_all xs' ys' else Ok false
  | _, _ => Ok true
  end.

(** [ValueKey(a) == ValueKey(b)]: build both keys, then compare. *)
Definition ValueKey_eq (a b : Value) : result bool :=
  _ <- ValueKey_init a ;;
  _ <- ValueKey_init b ;;
  ValueKey_eq_values a b.

(** ** The specification's own notions *)

(** The promotion table of two operand shapes, in the specification's words:
    both unsigned, the larger width, unsigned; both signed, the larger width,
    signed; mixed, the unsigned side gets one more bit and the result is
    signed. *)
Definition promote (a b : Shape) : Shape :=
  match is_signed a, is_signed b with
  | false, false => MkShape (Z.max (width a) (width b)) false
  | true, true => MkShape (Z.max (width a) (width b)) true
  | false, true => MkShape (Z.max (width a + 1) (width b)) true
  | true, false => MkShape (Z.max (width a) (width b + 1)) true
  end.

(** The integers a shape can hold: two's complement when signed (a signed
    shape of width 0 holds none). *)
Definition holds (sh : Shape) (x : Z) : Prop :=
  if is_signed sh
  then - 2 ^ (width sh - 1) <= x < 2 ^ (width sh - 1)
  else 0 <= x < 2 ^ width sh.

(** The multiplexer tree that selects among [first :: rest]. *)
Fixpoint mux_tree (sel first : Value) (rest : list Value) : Value :=
  match rest with
  | [] => first
  | next :: rest' => Operator "m" [sel; first; mux_tree sel next rest']
  end.

(** The value [Const.normalize] returns, when it returns one. *)
Definition normalized (v w : Z) (s : bool) : Z :=
  let mask := Z.shiftl 1 w - 1 in
  let value := Z.land v mask in
  if s && Py.truthy (Z.shiftr value (w - 1))
  then Z.lor value (Z.lnot mask)
  else value.

(** The widest element of a given signedness, and whether there is one: what
    the loop of [ArrayProxy.shape] has gathered when it ends. *)
Definition max_width (sign : bool) (shs : list Shape) : Z :=
  fold_right (fun sh acc => if Bool.eqb (is_signed sh) sign
                            then Z.max (width sh) acc else acc) 0 shs.

Definition has_sign (sign : bool) (shs : list Shape) : bool :=
  existsb (fun sh => Bool.eqb (is_signed sh) sign) shs.

(** The shape of the multiplexer tree over elements of the given shapes. *)
Fixpoint mux_tree_shape (first : Shape) (rest : list Shape) : Shape :=
  match rest with
  | [] => first
  | next :: rest' => promote first (mux_tree_shape next rest')
  end.

(** The shape [ArrayProxy.shape] settles on, from what its loop gathered. *)
Definition ArrayProxy_verdict (uw sw : Z) (hu hs : bool) : Shape :=
  if hs && hu && (sw <=? uw)
  then MkShape (uw + 1) true
  else MkShape (Z.max uw sw) hs.

(** A call that indexes the array with a [Value]. *)
Definition is_value_index (c : Array_call) : bool :=
  match c with
  | GetValue _ _ => true
  | _ => false
  end.

(** A string holds a character other than 0, 1, - and whitespace. *)
Definition outside_alphabet (s : string) : bool :=
  Py.any_char (fun c => negb (Py.char_in c "01-" || Py.isspace c)) s.

(** The number of characters of a string that are not whitespace. *)
Fixpoint non_whitespace_length (s : string) : Z :=
  match s with
  | EmptyString => 0
  | String c s' =>
      (if Py.isspace c then 0 else 1) + non_whitespace_length s'
  end.

(** A case key that is an integer or an enumeration member. *)
Definition is_int_key (key : switch_key) : bool :=
  match key with
  | KInt _ | KEnum _ => true
  | _ => false
  end.

(** ** Construction of slices, parts and replications *)

(** [Cat] over arguments that are values already: no bare integer, so no
    warning. *)
Definition Cat_values (values : list Value) : result Value :=
  snd (Cat_init (map AsValue values)).

(** [Slice.__init__]: [start] and [stop] must lie in
    [range(-(n + 1), n + 1)]; a negative one is counted from the end. *)
Definition Slice_init (value : Value) (start stop : Z) : result Value :=
  n <- Value_len value ;;
  if negb ((- (n + 1) <=? start) && (start <? n + 1)) then raise IndexError
  else
    let start := if start <? 0 then start + n else start in
    if negb ((- (n + 1) <=? stop) && (stop <? n + 1)) then raise IndexError
    else
      let stop := if stop <? 0 then stop + n else stop in
      if stop <? start then raise IndexError
      else Ok (Slice value start stop).

(** [Part.__init__]. *)
Definition Part_init (value : Value) (offset : value_castable)
           (width stride : Z) : result Value :=
  if width <? 0 then raise TypeError
  else if stride <=? 0 then raise TypeError
  else
    offset <- Value_cast offset ;;
    Ok (Part value offset width stride).

(** [Repl.__init__] for a value. *)
Definition Repl_init (value : Value) (count : Z) : result Value :=
  if count <? 0 then raise TypeError else Ok (Repl value count).

(** ** Indexing *)

(** [slice(start, stop, step).indices(n)], as CPython computes it. *)
Definition slice_indices (start stop step : option Z) (n : Z)
  : result (Z * Z * Z) :=
  let step := match step with
              | None => 1
              | Some s => s
              end in
  if step =? 0 then raise ValueError
  else
    let lower := if step <? 0 then -1 else 0 in
    let upper := if step <? 0 then n - 1 else n in
    let adjust x := if x <? 0 then Z.max (x + n) lower else Z.min x upper in
    let start := match start with
                 | None => if step <? 0 then upper else lower
                 | Some x => adjust x
                 end in
    let stop := match stop with
                | None => if step <? 0 then lower else upper
                | Some x => adjust x
                end in
    Ok (start, stop, step).

(** What a value can be indexed with. *)
Inductive index_key : Type :=
| IdxInt (key : Z)
| IdxSlice (start stop step : option Z)
| IdxOther.

(** [Value.__getitem__] with an integer.  [Value.__getitem__] is the method
    of the base class: indexing runs it on every value but an [ArrayProxy],
    whose class overrides it (see [getitem] below). *)
Definition Value_getitem_int (self : Value) (key : Z) : result Value :=
  n <- Value_len self ;;
  if negb ((- n <=? key) && (key <? n)) then raise IndexError
  else
    let key := if key <? 0 then key + n else key in
    Slice_init self key (key + 1).

(** [self[i] for i in ...] inside [Value.__getitem__], in order. *)
Fixpoint Value_bits (self : Value) (indices : list Z) : result (list Value) :=
  match indices with
  | [] => Ok []
  | i :: indices' =>
      bit <- Value_getitem_int self i ;;
      bits <- Value_bits self indices' ;;
      Ok (bit :: bits)
  end.

(** [Value.__getitem__], the method of the base class. *)
Definition Value_getitem (self : Value) (key : index_key) : result Value :=
  n <- Value_len self ;;
  match key with
  | IdxInt key => Value_getitem_int self key
  | IdxSlice start stop step =>
      '(start, stop, step) <- slice_indices start stop step n ;;
      if negb (step =? 1) then
        bits <- Value_bits self (Py.range_elems (Py.Range start stop step)) ;;
        Cat_values bits
      else Slice_init self start stop
  | IdxOther => raise TypeError
  end.

(** A value that is an [ArrayProxy] node. *)
Definition is_ArrayProxy (v : Value) : bool :=
  match v with
  | ArrayProxy _ _ => true
  | _ => false
  end.

(** [self[key]].  An [ArrayProxy] has its own [__getitem__]: it indexes
    every element with the key, in order, and wraps the results in a new
    [ArrayProxy] with the same index; the first element that cannot be
    indexed raises.  Every other value runs [Value.__getitem__]. *)
Fixpoint getitem (self : Value) (key : index_key) : result Value :=
  let fix elems_getitem (elems : list Value) : result (list Value) :=
    match elems with
    | [] => Ok []
    | elem :: elems' =>
        x <- getitem elem key ;;
        xs <- elems_getitem elems' ;;
        Ok (x :: xs)
    end in
  match self with
  | ArrayProxy elems index =>
      elems <- elems_getitem elems ;;
      Ok (ArrayProxy elems index)
  | _ => Value_getitem self key
  end.


(** [Value.as_signed]. *)
Definition Value_as_signed (self : Value) : result Value :=
  Operator_init "s" [AsValue self].

(** [Value.as_unsigned]. *)
Definition Value_as_unsigned (self : Value) : result Value :=
  Operator_init "u" [AsValue self].

(** ** Shifts and rotations by a constant *)

(** The body of [shift_left] once the amount is known not to be negative. *)
Definition shift_left_by (self : Value) (amount : Z) : result Value :=
  sh <- shape self ;;
  zeros <- Const_init 0 (ShapeWidth amount) ;;
  cat <- Cat_values [zeros; self] ;;
  if is_signed sh then Value_as_signed cat else Ok cat.

(** The body of [shift_right] once the amount is known not to be negative. *)
Definition shift_right_by (self : Value) (amount : Z) : result Value :=
  sh <- shape self ;;
  rest <- getitem self (IdxSlice (Some amount) None None) ;;
  if is_signed sh then Value_as_signed rest else Ok rest.

(** [Value.shift_left]: a negative amount shifts right. *)
Definition Value_shift_left (self : Value) (amount : Z) : result Value :=
  if amount <? 0 then shift_right_by self (- amount)
  else shift_left_by self amount.

(** [Value.shift_right]: a negative amount shifts left. *)
Definition Value_shift_right (self : Value) (amount : Z) : result Value :=
  if amount <? 0 then shift_left_by self (- amount)
  else shift_right_by self amount.

(** How a rotation ends: [amount %= len(self)] divides by the width, so a
    value of width zero makes Python raise [ZeroDivisionError]; otherwise
    the rotation ends as building its node ends. *)
Inductive rotation : Type :=
| ZeroDivisionError
| Rotated (r : result Value).

(** [Value.rotate_left]. *)
Definition Value_rotate_left (self : Value) (amount : Z) : rotation :=
  match Value_len self with
  | Error e => Rotated (Error e)
  | Ok n =>
      if n =? 0 then ZeroDivisionError
      else
        let amount := amount mod n in
        Rotated (high <- getitem self (IdxSlice (Some (- amount)) None None) ;;
                 low <- getitem self (IdxSlice None (Some (- amount)) None) ;;
                 Cat_values [high; low])
  end.

(** [Value.rotate_right]. *)
Definition Value_rotate_right (self : Value) (amount : Z) : rotation :=
  match Value_len self with
  | Error e => Rotated (Error e)
  | Ok n =>
      if n =? 0 then ZeroDivisionError
      else
        let amount := amount mod n in
        Rotated (high <- getitem self (IdxSlice (Some amount) None None) ;;
                 low <- getitem self (IdxSlice None (Some amount) None) ;;
                 Cat_values [high; low])
  end.

(** ** Part selection *)

(** [Value.bit_select]: a constant offset gives a slice. *)
Definition Value_bit_select (self : Value) (offset : value_castable)
           (width : Z) : result Value :=
  offset <- Value_cast offset ;;
  match offset with
  | Const value _ _ =>
      getitem self (IdxSlice (Some value) (Some (value + width)) None)
  | _ => Part_init self (AsValue offset) width 1
  end.

(** [Value.word_select]: a constant offset gives a slice. *)
Definition Value_word_select (self : Value) (offset : value_castable)
           (width : Z) : result Value :=
  offset <- Value_cast offset ;;
  match offset with
  | Const value _ _ =>
      getitem self
        (IdxSlice (Some (value * width)) (Some ((value + 1) * width)) None)
  | _ => Part_init self (AsValue offset) width width
  end.

(** ** Absolute value *)

(** [Value.__abs__]. *)
Definition Value_abs (self : Value) : result Value :=
  sh <- shape self ;;
  if is_signed sh then
    nonneg <- Operator_init ">=" [AsValue self; AsInt 0] ;;
    neg <- Operator_init "-" [AsValue self] ;;
    Mux (AsValue nonneg) (AsValue self) (AsValue neg)
  else Ok self.

(** ** Constant values *)

(** [_as_const]: a [Const] is its value, a [Cat] puts its parts side by side
    from the last one down to the first, and nothing else is constant. *)
Fixpoint Value_as_const (v : Value) : result Z :=
  let fix parts_as_const (parts : list Value) : result Z :=
    match parts with
    | [] => Ok 0
    | part :: parts' =>
        value <- parts_as_const parts' ;;
        n <- Value_len part ;;
        value <- Py.shl value n ;;
        c <- Value_as_const part ;;
        Ok (Z.lor value c)
    end in
  match v with
  | Const value _ _ => Ok value
  | Cat parts => parts_as_const parts
  | _ => raise TypeError
  end.

(** The loop of [Cat._as_const] over [reversed(parts)]. *)
Fixpoint Cat_as_const (parts : list Value) : result Z :=
  match parts with
  | [] => Ok 0
  | part :: parts' =>
      value <- Cat_as_const parts' ;;
      n <- Value_len part ;;
      value <- Py.shl value n ;;
      c <- Value_as_const part ;;
      Ok (Z.lor value c)
  end.

(** Where a slice bound lands in a value of width [n]: counted from the end
    when negative, and then kept within [[0, n]]. *)
Definition clamp_bound (n x : Z) : Z :=
  Z.max 0 (Z.min n (if x <? 0 then x + n else x)).

(** The integer that constants of the given (value, width) pairs make when
    put side by side, the first in the low bits. *)
Fixpoint concat_value (parts : list (Z * Z)) : Z :=
  match parts with
  | [] => 0
  | (c, w) :: parts' => c + 2 ^ w * concat_value parts'
  end.

(** A value that is a [Const] node. *)
Definition is_Const (v : Value) : bool :=
  match v with
  | Const _ _ _ => true
  | _ => false
  end.

(** ** Signal keys *)

(** The second component of [SignalKey._intern]: the [duid] of a signal or
    the name of a domain. *)
Inductive intern_tail : Type :=
| InternDuid (duid : Z)
| InternDomain (domain : string).

(** A [SignalKey]: the signal and the tuple [_intern]. *)
Record SignalKey : Type := MkSignalKey {
  key_signal : Value;
  _intern : Z * intern_tail
}.

(** [SignalKey.__init__]. *)
Definition SignalKey_init (signal : Value) : result SignalKey :=
  match signal with
  | Signal duid _ _ _ _ _ => Ok (MkSignalKey signal (0, InternDuid duid))
  | ClockSignal domain => Ok (MkSignalKey signal (1, InternDomain domain))
  | ResetSignal domain _ => Ok (MkSignalKey signal (2, InternDomain domain))
  | _ => raise TypeError
  end.

(** [==] on the second components: an integer and a string are unequal. *)
Definition intern_tail_eqb (a b : intern_tail) : bool :=
  match a, b with
  | InternDuid x, InternDuid y => x =? y
  | InternDomain x, InternDomain y => String.eqb x y
  | _, _ => false
  end.

(** [<] on the second components: an integer against a string is a
    [TypeError]; strings compare by code points. *)
Definition intern_tail_lt (a b : intern_tail) : result bool :=
  match a, b with
  | InternDuid x, InternDuid y => Ok (x <? y)
  | InternDomain x, InternDomain y => Ok (String.ltb x y)
  | _, _ => raise TypeError
  end.

(** [SignalKey.__eq__]: equality of the tuples. *)
Definition SignalKey_eq (self other : SignalKey) : bool :=
  (fst (_intern self) =? fst (_intern other))
  && intern_tail_eqb (snd (_intern self)) (snd (_intern other)).

(** [SignalKey.__lt__]: the tuples are compared at the first component
    where they differ. *)
Definition SignalKey_lt (self other : SignalKey) : result bool :=
  if negb (fst (_intern self) =? fst (_intern other))
  then Ok (fst (_intern self) <? fst (_intern other))
  else if negb (intern_tail_eqb (snd (_intern self)) (snd (_intern other)))
       then intern_tail_lt (snd (_intern self)) (snd (_intern other))
       else Ok false.

(** The tuples that [SignalKey.__init__] makes. *)
Inductive built_intern : Z * intern_tail -> Prop :=
| built_signal (duid : Z) : built_intern (0, InternDuid duid)
| built_clock (domain : string) : built_intern (1, InternDomain domain)
| built_reset (domain : string) : built_intern (2, InternDomain domain).

(** ** Reading the ordered mapping of a [Switch] *)

(** [d[k]] on an ordered mapping, [None] when the key is absent. *)
Fixpoint odict_get {V : Type} (d : list (list string * V)) (k : list string)
  : option V :=
  match d with
  | [] => None
  | (k', v) :: d' => if keys_eqb k' k then Some v else odict_get d' k
  end.

(** The distinct key tuples of a list, each at its first place. *)
Fixpoint keep_first (ks : list (list string)) : list (list string) :=
  match ks with
  | [] => []
  | k :: ks' => k :: filter (fun k' => negb (keys_eqb k k')) (keep_first ks')
  end.

(** Whether an ordered mapping has a key. *)
Definition has_key {V : Type} (d : list (list string * V)) (k : list string)
  : bool :=
  existsb (keys_eqb k) (map fst d).

(** [d[k] = v] for every pair of a list, in order. *)
Definition set_all {V : Type} (l acc : list (list string * V))
  : list (list string * V) :=
  fold_left (fun d kv => odict_set d (fst kv) (snd kv)) l acc.

(** A key that a [Switch] on a test of width [w] takes: an integer or an
    enumeration member when there is at least one bit to write it in, a
    string when it has [w] characters apart from whitespace. *)
Definition key_fits (w : Z) (key : switch_key) : bool :=
  match key with
  | KStr s => non_whitespace_length s =? w
  | KInt _ | KEnum _ => 1 <=? w
  | KOther => false
  end.

(** ** Building several signals *)

(** [Signal(...)] called once per entry of [args], one call after the
    other against the counter of [DUID]: the counter afterwards and what
    each call gave. *)
Fixpoint Signal_inits (next_uid : Z)
         (args : list (option shape_castable * string * Z * bool))
  : Z * list (result Value) :=
  match args with
  | [] => (next_uid, [])
  | (shape, name, reset, reset_less) :: args' =>
      let '(next_uid', _, r) := Signal_init next_uid shape name reset reset_less in
      let '(last_uid, rs) := Signal_inits next_uid' args' in
      (last_uid, r :: rs)
  end.

(** * Properties *)

(** ** Shapes are well formed *)

Lemma Shape_init_ok (w : Z) (s : bool) :
  0 <= w -> Shape_init w s = Ok (MkShape w s).
Proof.
  intros Hw. unfold Shape_init.
  destruct (Z.ltb_spec w 0) as [Hlt | Hge]; [lia | reflexivity].
Qed.

Lemma Shape_init_inv (w : Z) (s : bool) (sh : Shape) :
  Shape_init w s = Ok sh -> sh = MkShape w s /\ 0 <= w.
Proof.
  unfold Shape_init, raise.
  destruct (Z.ltb_spec w 0) as [Hlt | Hge]; intros H; inversion H.
  split; [reflexivity | lia].
Qed.

Lemma bind_ok_inv {A B : Type} (c : result A) (f : A -> result B) (b : B) :
  bind c f = Ok b -> exists a, c = Ok a /\ f a = Ok b.
Proof.
  destruct c as [a | e]; simpl; intros H; [eauto | discriminate].
Qed.

Lemma _bitwise_binary_shape_promote (a b : Shape) :
  0 <= width a -> 0 <= width b ->
  _bitwise_binary_shape a b = Ok (promote a b).
Proof.
  intros Ha Hb. unfold _bitwise_binary_shape, promote.
  destruct (is_signed a), (is_signed b); simpl; apply Shape_init_ok; lia.
Qed.

Lemma _bitwise_binary_shape_nonneg (a b sh : Shape) :
  _bitwise_binary_shape a b = Ok sh -> 0 <= width sh.
Proof.
  unfold _bitwise_binary_shape.
  destruct (is_signed a), (is_signed b); simpl; intros H;
    apply Shape_init_inv in H; destruct H as [-> H]; exact H.
Qed.

Ltac shape_init_nonneg :=
  match goal with
  | H : Shape_init _ _ = Ok ?sh |- 0 <= width ?sh =>
      apply Shape_init_inv in H; destruct H as [-> H]; exact H
  | H : raise _ = Ok _ |- _ => discriminate H
  end.

Lemma Operator_shape_nonneg (op : string) (shs : list Shape) (sh : Shape) :
  Operator_shape op shs = Ok sh -> 0 <= width sh.
Proof.
  unfold Operator_shape.
  destruct shs as [| a [| b [| c [| d shs]]]]; try discriminate.
  - repeat match goal with
           | |- context [if ?c then _ else _] => destruct c
           end; intros H; shape_init_nonneg.
  - repeat match goal with
           | |- (if ?c then _ else _) = _ -> _ => destruct c
           end; intros H;
      try shape_init_nonneg;
      try (eapply _bitwise_binary_shape_nonneg; exact H).
    apply bind_ok_inv in H. destruct H as [s [_ H]]. shape_init_nonneg.
  - destruct (String.eqb op "m"); intros H; [| discriminate].
    eapply _bitwise_binary_shape_nonneg; exact H.
Qed.

Lemma ArrayProxy_shape_nonneg (shs : list Shape) (sh : Shape) :
  ArrayProxy_shape shs = Ok sh -> 0 <= width sh.
Proof.
  unfold ArrayProxy_shape, signed.
  destruct (fold_left ArrayProxy_scan shs (0, 0, false, false))
    as [[[uw sw] hu] hs].
  destruct (hs && hu && (sw <=? uw)); intros H; shape_init_nonneg.
Qed.

Lemma shape_Operator (op : string) (operands : list Value) :
  shape (Operator op operands) =
  (op_shapes <- shapes operands ;; Operator_shape op op_shapes).
Proof. reflexivity. Qed.

Lemma shape_Cat (parts : list Value) :
  shape (Cat parts) =
  (part_shapes <- shapes parts ;; Shape_init (sum_widths part_shapes) false).
Proof. reflexivity. Qed.

Lemma shape_ArrayProxy (elems : list Value) (index : Value) :
  shape (ArrayProxy elems index) =
  (elem_shapes <- shapes elems ;; ArrayProxy_shape elem_shapes).
Proof. reflexivity. Qed.

(** Every shape that [shape] returns has a non-negative width. *)
Lemma shape_width_nonneg (v : Value) (sh : Shape) :
  shape v = Ok sh -> 0 <= width sh.
Proof.
  revert sh. induction v; intros sh H;
    try (simpl in H; shape_init_nonneg).
  - rewrite shape_Operator in H. apply bind_ok_inv in H.
    destruct H as [shs [_ H]]. eapply Operator_shape_nonneg; exact H.
  - rewrite shape_Cat in H. apply bind_ok_inv in H.
    destruct H as [shs [_ H]]. shape_init_nonneg.
  - simpl in H. apply bind_ok_inv in H.
    destruct H as [s [_ H]]. shape_init_nonneg.
  - rewrite shape_ArrayProxy in H. apply bind_ok_inv in H.
    destruct H as [shs [_ H]]. eapply ArrayProxy_shape_nonneg; exact H.
  - simpl in H. apply IHv. exact H.
Qed.

Lemma shapes_nonneg (vs : list Value) (shs : list Shape) :
  shapes vs = Ok shs -> Forall (fun sh => 0 <= width sh) shs.
Proof.
  revert shs. induction vs as [| v vs IH]; intros shs H; simpl in H.
  - inversion H. constructor.
  - apply bind_ok_inv in H. destruct H as [sh [Hv H]].
    apply bind_ok_inv in H. destruct H as [shs' [Hvs H]].
    inversion H. subst. constructor.
    + eapply shape_width_nonneg; exact Hv.
    + apply IH. exact Hvs.
Qed.

(** ** The number of bits an integer needs *)

Lemma log2_int_succ (n : Z) :
  0 < n -> log2_int (n + 1) = Z.log2 n + 1.
Proof.
  intros Hn. unfold log2_int, Py.bit_length.
  destruct (Z.eqb_spec (n + 1) 0); [lia |].
  replace (n + 1 - 1) with n by lia.
  destruct (Z.eqb_spec n 0); [lia |].
  rewrite Z.abs_eq by lia. reflexivity.
Qed.

Lemma pow2_log2_bound (n : Z) : 0 <= n -> n < 2 ^ (Z.log2 n + 1).
Proof.
  intros Hn. destruct (Z.eq_dec n 0) as [-> | Hne]; [reflexivity |].
  pose proof (Z.log2_spec n ltac:(lia)) as [_ H]. exact H.
Qed.

(** [bits_for] gives a width that holds the number. *)
Lemma bits_for_holds (n : Z) (s : bool) :
  (n < 0 -> s = true) ->
  holds (MkShape (bits_for n s) s) n.
Proof.
  intros Hs. unfold holds, bits_for. cbn [width is_signed].
  destruct (Z.ltb_spec 0 n) as [Hpos | Hneg].
  - rewrite log2_int_succ by exact Hpos.
    pose proof (pow2_log2_bound n ltac:(lia)).
    destruct s.
    + replace (Z.log2 n + 1 + 1 - 1) with (Z.log2 n + 1) by lia. lia.
    + lia.
  - unfold log2_int, Py.bit_length.
    destruct (Z.eqb_spec (- n) 0) as [H0 | H0].
    + assert (n = 0) by lia. subst n. destruct s; simpl; lia.
    + rewrite (Hs ltac:(lia)).
      destruct (Z.eqb_spec (- n - 1) 0) as [H1 | H1].
      * assert (n = -1) by lia. subst n. simpl. lia.
      * rewrite Z.abs_eq by lia.
        pose proof (pow2_log2_bound (- n - 1) ltac:(lia)).
        replace (Z.log2 (- n - 1) + 1 + 1 - 1) with (Z.log2 (- n - 1) + 1) by lia.
        lia.
Qed.

Lemma bits_for_positive (n : Z) (s : bool) : 1 <= bits_for n s.
Proof.
  unfold bits_for.
  destruct (Z.ltb_spec 0 n) as [Hpos | Hneg].
  - rewrite log2_int_succ by exact Hpos.
    pose proof (Z.log2_nonneg n). destruct s; lia.
  - unfold log2_int, Py.bit_length.
    destruct (- n =? 0); [lia |].
    destruct (- n - 1 =? 0); [lia |].
    pose proof (Z.log2_nonneg (Z.abs (- n - 1))). lia.
Qed.

(** ** Addition and subtraction *)

Lemma Operator_init_values (op : string) (a b : Value) :
  Operator_init op [AsValue a; AsValue b] = Ok (Operator op [a; b]).
Proof. reflexivity. Qed.

Lemma shapes_pair (a b : Value) (sa sb : Shape) :
  shape a = Ok sa -> shape b = Ok sb -> shapes [a; b] = Ok [sa; sb].
Proof. intros Ha Hb. simpl. rewrite Ha, Hb. reflexivity. Qed.

Lemma promote_nonneg (a b : Shape) :
  0 <= width a -> 0 <= width b -> 0 <= width (promote a b).
Proof.
  intros Ha Hb. unfold promote.
  destruct (is_signed a), (is_signed b); simpl; lia.
Qed.

Lemma add_sub_shape_of (op : string) (sa sb : Shape) :
  op = "+"%string \/ op = "-"%string ->
  0 <= width sa -> 0 <= width sb ->
  Operator_shape op [sa; sb] =
  Ok (MkShape (width (promote sa sb) + 1) (is_signed (promote sa sb))).
Proof.
  intros Hop Ha Hb.
  assert (Htag : tag_in op ["+"; "-"]%string = true)
    by (destruct Hop as [-> | ->]; reflexivity).
  unfold Operator_shape. rewrite Htag.
  rewrite _bitwise_binary_shape_promote by assumption. simpl.
  apply Shape_init_ok. pose proof (promote_nonneg sa sb Ha Hb). lia.
Qed.

(** C1. For all values [a] and [b], the shape of [a + b] (and of [a - b]) is
    the promotion of the two operand shapes -- both unsigned: larger width,
    unsigned; both signed: larger width, signed; mixed: one more bit on the
    unsigned side, signed -- with one guard bit added.  So unsigned(4) +
    unsigned(4) is unsigned(5), signed(4) + signed(4) is signed(5), and
    unsigned(3) + signed(4) is signed(5). *)
Theorem add_sub_shape_promotes (op : string) (a b : Value) (sa sb : Shape) :
  op = "+"%string \/ op = "-"%string ->
  shape a = Ok sa ->
  shape b = Ok sb ->
  Value_add a (AsValue b) = Ok (Operator "+" [a; b]) /\
  Value_sub a (AsValue b) = Ok (Operator "-" [a; b]) /\
  shape (Operator op [a; b]) =
    Ok (MkShape (width (promote sa sb) + 1) (is_signed (promote sa sb))) /\
  (sa = MkShape 4 false -> sb = MkShape 4 false ->
   shape (Operator op [a; b]) = Ok (MkShape 5 false)) /\
  (sa = MkShape 4 true -> sb = MkShape 4 true ->
   shape (Operator op [a; b]) = Ok (MkShape 5 true)) /\
  (sa = MkShape 3 false -> sb = MkShape 4 true ->
   shape (Operator op [a; b]) = Ok (MkShape 5 true)).
Proof.
  intros Hop Ha Hb.
  assert (Hshape : shape (Operator op [a; b]) =
            Ok (MkShape (width (promote sa sb) + 1) (is_signed (promote sa sb)))).
  { rewrite shape_Operator, (shapes_pair a b sa sb Ha Hb). simpl bind.
    apply add_sub_shape_of.
    - exact Hop.
    - eapply shape_width_nonneg; exact Ha.
    - eapply shape_width_nonneg; exact Hb. }
  split; [apply Operator_init_values |].
  split; [apply Operator_init_values |].
  split; [exact Hshape |].
  repeat split; intros -> ->; rewrite Hshape; reflexivity.
Qed.

Lemma add_sub_shape_promotes_witness :
  shape (Operator "+" [Signal 0 3 false "a" 0 false; Signal 1 4 true "b" 0 false])
  = Ok (MkShape 5 true).
Proof.
  destruct (add_sub_shape_promotes "+"
              (Signal 0 3 false "a" 0 false) (Signal 1 4 true "b" 0 false)
              (MkShape 3 false) (MkShape 4 true)
              (or_introl eq_refl) eq_refl eq_refl) as [_ [_ [_ [_ [_ H]]]]].
  exact (H eq_refl eq_refl).
Defined.

(** ** Left shifts *)

Lemma Value_check_shamt_signed (v : Value) (sh : Shape) :
  shape v = Ok sh -> is_signed sh = true ->
  Value_check_shamt v = raise TypeError.
Proof. intros Hv Hs. unfold Value_check_shamt. rewrite Hv. simpl. rewrite Hs. reflexivity. Qed.

Lemma Value_check_shamt_unsigned (v : Value) (sh : Shape) :
  shape v = Ok sh -> is_signed sh = false ->
  Value_check_shamt v = Ok tt.
Proof. intros Hv Hs. unfold Value_check_shamt. rewrite Hv. simpl. rewrite Hs. reflexivity. Qed.

(** C8. Building [self << other] raises a [TypeError], and so builds no
    node, whenever the shift amount is signed (also through the reflected
    operator); when the amount is unsigned the node is built, and its shape
    has the width of the left operand plus [2 ^ (width of the amount) - 1]
    and the signedness of the left operand. *)
Theorem lshift_signed_amount_rejected
        (self : Value) (other : value_castable) (amount : Value) (sb : Shape) :
  Value_cast other = Ok amount ->
  shape amount = Ok sb ->
  (is_signed sb = true ->
   Value_lshift self other = raise TypeError /\
   Value_rlshift amount (AsValue self) = raise TypeError) /\
  (is_signed sb = false ->
   Value_lshift self other = Ok (Operator "<<" [self; amount]) /\
   Value_rlshift amount (AsValue self) = Ok (Operator "<<" [self; amount]) /\
   forall sa, shape self = Ok sa ->
     shape (Operator "<<" [self; amount]) =
     Ok (MkShape (width sa + 2 ^ width sb - 1) (is_signed sa))).
Proof.
  intros Hcast Hb. split; intros Hs.
  - unfold Value_lshift, Value_rlshift. rewrite Hcast. simpl bind.
    rewrite (Value_check_shamt_signed amount sb Hb Hs). split; reflexivity.
  - unfold Value_lshift, Value_rlshift. rewrite Hcast. simpl bind.
    rewrite (Value_check_shamt_unsigned amount sb Hb Hs).
    split; [reflexivity |]. split; [reflexivity |].
    intros sa Ha.
    rewrite shape_Operator, (shapes_pair self amount sa sb Ha Hb). simpl bind.
    unfold Operator_shape. simpl. rewrite Hs.
    apply Shape_init_ok.
    pose proof (shape_width_nonneg self sa Ha).
    pose proof (shape_width_nonneg amount sb Hb).
    assert (0 < 2 ^ width sb) by (apply Z.pow_pos_nonneg; lia). lia.
Qed.

Lemma lshift_signed_amount_rejected_witness :
  Value_lshift (Signal 0 4 true "a" 0 false) (AsInt (-1)) = raise TypeError /\
  shape (Operator "<<" [Signal 0 4 true "a" 0 false; Signal 1 3 false "n" 0 false])
  = Ok (MkShape 11 true).
Proof.
  split.
  - destruct (lshift_signed_amount_rejected (Signal 0 4 true "a" 0 false)
                (AsInt (-1)) (Const (-1) 1 true) (MkShape 1 true)
                eq_refl eq_refl) as [H _].
    exact (proj1 (H eq_refl)).
  - destruct (lshift_signed_amount_rejected (Signal 0 4 true "a" 0 false)
                (AsValue (Signal 1 3 false "n" 0 false))
                (Signal 1 3 false "n" 0 false) (MkShape 3 false)
                eq_refl eq_refl) as [_ H].
    exact (proj2 (proj2 (H eq_refl)) (MkShape 4 true) eq_refl).
Defined.

(** ** Normalization of constants *)

Lemma land_lor_lnot (x m : Z) :
  Z.land (Z.lor x (Z.lnot m)) m = Z.land x m.
Proof.
  rewrite Z.land_lor_distr_l.
  rewrite (Z.land_comm (Z.lnot m) m), Z.land_lnot_diag.
  apply Z.lor_0_r.
Qed.

Lemma land_land_same (x m : Z) :
  Z.land (Z.land x m) m = Z.land x m.
Proof. rewrite <- Z.land_assoc, Z.land_diag. reflexivity. Qed.

Lemma Const_normalize_spec (v w : Z) (s : bool) :
  Const_normalize v (w, s) =
  if (w <? 0) || (s && (w - 1 <? 0)) then raise ValueError
  else Ok (normalized v w s).
Proof.
  unfold Const_normalize, normalized, Py.shl, Py.shr.
  destruct (w <? 0); simpl; [reflexivity |].
  destruct s; simpl; [| reflexivity].
  destruct (w - 1 <? 0); simpl; [reflexivity |].
  destruct (Py.truthy _); reflexivity.
Qed.

Lemma normalized_land (v w : Z) (s : bool) :
  Z.land (normalized v w s) (Z.shiftl 1 w - 1) = Z.land v (Z.shiftl 1 w - 1).
Proof.
  unfold normalized.
  destruct (s && Py.truthy _).
  - rewrite land_lor_lnot. apply land_land_same.
  - apply land_land_same.
Qed.

Lemma normalized_idempotent (v w : Z) (s : bool) :
  normalized (normalized v w s) w s = normalized v w s.
Proof.
  unfold normalized at 1. rewrite normalized_land. reflexivity.
Qed.

Lemma Const_init_normalized (v : Z) (shape : const_shape) (c : Value) :
  Const_init v shape = Ok c ->
  exists w s, c = Const (normalized v w s) w s /\
              Const_normalize v (w, s) = Ok (normalized v w s).
Proof.
  unfold Const_init. intros H.
  apply bind_ok_inv in H. destruct H as [sh [_ H]].
  apply bind_ok_inv in H. destruct H as [value [Hn H]].
  inversion H. subst c. exists (width sh), (is_signed sh).
  rewrite Const_normalize_spec in Hn. rewrite Const_normalize_spec.
  destruct ((width sh <? 0) || _); [discriminate |].
  inversion Hn. split; reflexivity.
Qed.

(** C7. [Const.normalize] is idempotent: normalizing a normalized value into
    the same shape gives the same outcome as normalizing once, for every
    integer and every (width, signed); hence the value a [Const] stores,
    normalized when it was built, is unchanged by renormalizing it into the
    [Const]'s shape. *)
Theorem normalize_idempotent :
  (forall (v w : Z) (s : bool),
     (r <- Const_normalize v (w, s) ;; Const_normalize r (w, s))
     = Const_normalize v (w, s)) /\
  (forall (v w : Z) (s : bool),
     0 <= w -> (s = true -> 1 <= w) ->
     exists r, Const_normalize v (w, s) = Ok r /\
               Const_normalize r (w, s) = Ok r) /\
  (forall (v : Z) (shape : const_shape) (value width : Z) (signed : bool),
     Const_init v shape = Ok (Const value width signed) ->
     Const_normalize value (width, signed) = Ok value).
Proof.
  assert (Hidem : forall v w s,
            (r <- Const_normalize v (w, s) ;; Const_normalize r (w, s))
            = Const_normalize v (w, s)).
  { intros v w s. rewrite (Const_normalize_spec v w s).
    destruct ((w <? 0) || (s && (w - 1 <? 0))) eqn:Hbad; [reflexivity |].
    cbn [bind]. rewrite Const_normalize_spec, Hbad, normalized_idempotent.
    reflexivity. }
  split; [exact Hidem |]. split.
  - intros v w s Hw Hs. exists (normalized v w s).
    assert (Hgood : (w <? 0) || (s && (w - 1 <? 0)) = false).
    { destruct (Z.ltb_spec w 0); [lia |]. simpl.
      destruct s; [| reflexivity]. simpl.
      specialize (Hs eq_refl). destruct (Z.ltb_spec (w - 1) 0); [lia | reflexivity]. }
    rewrite !Const_normalize_spec, Hgood, normalized_idempotent.
    split; reflexivity.
  - intros v shape value width signed H.
    apply Const_init_normalized in H. destruct H as [w [s [Hc Hn]]].
    inversion Hc. subst.
    specialize (Hidem v w s). rewrite Hn in Hidem. exact Hidem.
Qed.

Lemma normalize_idempotent_witness :
  (exists r, Const_normalize 13 (3, true) = Ok r /\
             Const_normalize r (3, true) = Ok r) /\
  Const_normalize (-3) (3, true) = Ok (-3).
Proof.
  destruct normalize_idempotent as [_ [Htotal Hconst]]. split.
  - apply (Htotal 13 3 true); [lia | intros _; lia].
  - apply (Hconst 5 (ShapeOf (FromShape (MkShape 3 true))) (-3) 3 true).
    reflexivity.
Defined.

(** ** Array proxies *)

Lemma max_width_nonneg (sign : bool) (shs : list Shape) :
  0 <= max_width sign shs.
Proof.
  induction shs as [| sh shs IH]; simpl; [lia |].
  destruct (Bool.eqb (is_signed sh) sign); lia.
Qed.

Lemma max_width_cons (sign : bool) (sh : Shape) (shs : list Shape) :
  max_width sign (sh :: shs) =
  if Bool.eqb (is_signed sh) sign
  then Z.max (width sh) (max_width sign shs)
  else max_width sign shs.
Proof. reflexivity. Qed.

Lemma has_sign_cons (sign : bool) (sh : Shape) (shs : list Shape) :
  has_sign sign (sh :: shs) =
  Bool.eqb (is_signed sh) sign || has_sign sign shs.
Proof. reflexivity. Qed.

Lemma ArrayProxy_scan_summary (shs : list Shape) (uw sw : Z) (hu hs : bool) :
  0 <= uw -> 0 <= sw ->
  fold_left ArrayProxy_scan shs (uw, sw, hu, hs) =
  (Z.max uw (max_width false shs), Z.max sw (max_width true shs),
   hu || has_sign false shs, hs || has_sign true shs).
Proof.
  revert uw sw hu hs.
  induction shs as [| sh shs IH]; intros uw sw hu hs Hu Hs.
  - simpl. rewrite !orb_false_r, !Z.max_l by lia. reflexivity.
  - cbn [fold_left]. unfold ArrayProxy_scan at 2.
    rewrite !max_width_cons, !has_sign_cons.
    destruct (is_signed sh) eqn:Hsign; cbn [Bool.eqb];
      rewrite IH by lia; destruct hu, hs; cbn [orb];
      f_equal; try (f_equal; try f_equal); lia.
Qed.

(** [ArrayProxy.shape] in closed form. *)
Lemma ArrayProxy_shape_summary (shs : list Shape) :
  ArrayProxy_shape shs =
  Ok (ArrayProxy_verdict (max_width false shs) (max_width true shs)
                         (has_sign false shs) (has_sign true shs)).
Proof.
  unfold ArrayProxy_shape, ArrayProxy_verdict.
  rewrite ArrayProxy_scan_summary by lia.
  pose proof (max_width_nonneg false shs).
  pose proof (max_width_nonneg true shs).
  rewrite !Z.max_r by lia. simpl.
  destruct (has_sign true shs && has_sign false shs && _).
  - unfold signed. apply Shape_init_ok. lia.
  - apply Shape_init_ok. lia.
Qed.

Lemma max_width_In (sh : Shape) (shs : list Shape) :
  In sh shs ->
  width sh <= max_width (is_signed sh) shs /\
  has_sign (is_signed sh) shs = true.
Proof.
  induction shs as [| sh' shs IH]; intros Hin; [contradiction |].
  simpl. destruct Hin as [-> | Hin].
  - rewrite Bool.eqb_reflx. simpl. split; [lia | reflexivity].
  - destruct (IH Hin) as [Hle Hhas]. rewrite Hhas, orb_true_r.
    split; [| reflexivity].
    destruct (Bool.eqb (is_signed sh') (is_signed sh)); lia.
Qed.

Lemma pow2_le (a b : Z) : a <= b -> 2 ^ a <= 2 ^ b.
Proof. intros H. apply Z.pow_le_mono_r; lia. Qed.

(** A shape holds whatever a narrower shape of the same signedness holds,
    and a signed shape holds whatever a strictly narrower unsigned one does. *)
Lemma holds_widen (e sh : Shape) (x : Z) :
  (is_signed e = is_signed sh /\ width e <= width sh) \/
  (is_signed e = false /\ is_signed sh = true /\ width e + 1 <= width sh) ->
  holds e x -> holds sh x.
Proof.
  unfold holds. intros [[Hs Hw] | [He [Hs Hw]]].
  - rewrite Hs. destruct (is_signed sh); intros Hx.
    + pose proof (pow2_le (width e - 1) (width sh - 1)). lia.
    + pose proof (pow2_le (width e) (width sh)). lia.
  - rewrite He, Hs. intros Hx.
    pose proof (pow2_le (width e) (width sh - 1)).
    assert (0 <= 2 ^ (width sh - 1)) by (apply Z.pow_nonneg; lia). lia.
Qed.

Lemma ArrayProxy_shape_holds (shs : list Shape) (e : Shape) (x : Z) :
  In e shs ->
  holds e x ->
  holds (ArrayProxy_verdict (max_width false shs) (max_width true shs)
                            (has_sign false shs) (has_sign true shs)) x.
Proof.
  intros Hin. unfold ArrayProxy_verdict.
  destruct (max_width_In e shs Hin) as [Hle Hhas].
  pose proof (max_width_nonneg false shs).
  pose proof (max_width_nonneg true shs).
  destruct (has_sign true shs && has_sign false shs && _) eqn:Hmixed;
    apply holds_widen; simpl.
  - apply andb_prop in Hmixed. destruct Hmixed as [_ Hcmp].
    apply Z.leb_le in Hcmp.
    destruct (is_signed e); [left | right]; repeat split; lia.
  - destruct (is_signed e) eqn:He.
    + left. rewrite Hhas. split; [reflexivity | lia].
    + rewrite Hhas, andb_true_r in Hmixed.
      destruct (has_sign true shs); simpl in Hmixed.
      * apply Z.leb_gt in Hmixed. right. repeat split; lia.
      * left. split; [reflexivity | lia].
Qed.

Lemma max_width_absent (sign : bool) (shs : list Shape) :
  has_sign sign shs = false -> max_width sign shs = 0.
Proof.
  induction shs as [| sh shs IH]; [reflexivity |].
  rewrite has_sign_cons, max_width_cons.
  destruct (Bool.eqb (is_signed sh) sign); simpl; [discriminate | exact IH].
Qed.

(** Putting one more element in front of a non-empty list changes the
    verdict as one more multiplexer would. *)
Lemma ArrayProxy_verdict_step (w : Z) (sg : bool) (u s : Z) (hu hs : bool) :
  0 <= w -> 0 <= u -> 0 <= s ->
  hu || hs = true ->
  (hu = false -> u = 0) ->
  (hs = false -> s = 0) ->
  ArrayProxy_verdict
    (if Bool.eqb sg false then Z.max w u else u)
    (if Bool.eqb sg true then Z.max w s else s)
    (Bool.eqb sg false || hu) (Bool.eqb sg true || hs)
  = promote (MkShape w sg) (ArrayProxy_verdict u s hu hs).
Proof.
  intros Hw Hu Hs Hne Hu0 Hs0.
  unfold ArrayProxy_verdict, promote.
  destruct sg, hu, hs; simpl in *; try discriminate;
    try (specialize (Hu0 eq_refl)); try (specialize (Hs0 eq_refl)); subst;
    repeat match goal with
           | |- context [?a <=? ?b] => destruct (Z.leb_spec a b)
           end; simpl; f_equal; lia.
Qed.

Lemma ArrayProxy_shape_mux (first : Shape) (rest : list Shape) :
  Forall (fun sh => 0 <= width sh) (first :: rest) ->
  ArrayProxy_shape (first :: rest) = Ok (mux_tree_shape first rest).
Proof.
  rewrite ArrayProxy_shape_summary. intros Hall. f_equal.
  revert first Hall.
  induction rest as [| next rest IH]; intros first Hall.
  - inversion Hall as [| ? ? Hw _]. subst.
    destruct first as [w sg]. simpl in Hw.
    unfold ArrayProxy_verdict, max_width, has_sign. simpl.
    destruct sg; simpl; f_equal; lia.
  - inversion Hall as [| ? ? Hw Hrest]. subst.
    simpl mux_tree_shape. rewrite <- (IH next Hrest).
    rewrite (max_width_cons false first), (max_width_cons true first).
    rewrite (has_sign_cons false first), (has_sign_cons true first).
    destruct first as [w sg]. simpl in Hw. cbn [is_signed width].
    apply ArrayProxy_verdict_step.
    + exact Hw.
    + apply max_width_nonneg.
    + apply max_width_nonneg.
    + rewrite !has_sign_cons.
      destruct (is_signed next); simpl; rewrite ?orb_true_r; reflexivity.
    + apply max_width_absent.
    + apply max_width_absent.
Qed.

Lemma Mux_values (sel val1 val0 : Value) :
  Mux (AsValue sel) (AsValue val1) (AsValue val0) =
  Ok (Operator "m" [sel; val1; val0]).
Proof. reflexivity. Qed.

Lemma shape_mux_tree (sel first : Value) (rest : list Value)
      (ssel sfirst : Shape) (srest : list Shape) :
  shape sel = Ok ssel ->
  shape first = Ok sfirst ->
  shapes rest = Ok srest ->
  shape (mux_tree sel first rest) = Ok (mux_tree_shape sfirst srest).
Proof.
  intros Hsel. revert first sfirst srest.
  induction rest as [| next rest IH]; intros first sfirst srest Hfirst Hrest.
  - simpl in Hrest. inversion Hrest. exact Hfirst.
  - simpl in Hrest.
    apply bind_ok_inv in Hrest. destruct Hrest as [snext [Hnext Hrest]].
    apply bind_ok_inv in Hrest. destruct Hrest as [srest' [Hrest' Heq]].
    inversion Heq. subst srest. clear Heq.
    specialize (IH next snext srest' Hnext Hrest').
    cbn [mux_tree mux_tree_shape].
    rewrite shape_Operator. cbn [shapes].
    rewrite Hsel, Hfirst, IH. cbn [bind]. unfold Operator_shape. simpl.
    apply _bitwise_binary_shape_promote.
    + eapply shape_width_nonneg; exact Hfirst.
    + eapply shape_width_nonneg; exact IH.
Qed.

(** C3. For a non-empty list of elements, the shape of an [ArrayProxy] holds
    every integer that any element's shape holds, and it is the shape of the
    multiplexer tree over the elements; when signed and unsigned elements
    are mixed and the widest unsigned one is at least as wide as the widest
    signed one, it is signed and one bit wider than the widest unsigned
    element.  An [Array] of [Const(3, unsigned(2))] and
    [Const(-1, signed(2))] indexed by a value has shape signed(3). *)
Theorem ArrayProxy_shape_preserves_values
        (first : Value) (rest : list Value) (index sel : Value)
        (shs : list Shape) (ssel : Shape) :
  shapes (first :: rest) = Ok shs ->
  shape sel = Ok ssel ->
  (exists sh,
     shape (ArrayProxy (first :: rest) index) = Ok sh /\
     (forall e x, In e shs -> holds e x -> holds sh x) /\
     shape (mux_tree sel first rest) = Ok sh /\
     (has_sign true shs = true -> has_sign false shs = true ->
      max_width true shs <= max_width false shs ->
      sh = MkShape (max_width false shs + 1) true)) /\
  (Const_init 3 (ShapeOf (FromShape (MkShape 2 false))) = Ok (Const 3 2 false) /\
   Const_init (-1) (ShapeOf (FromShape (MkShape 2 true))) = Ok (Const (-1) 2 true) /\
   forall here,
     shape (snd (Array_getitem_value
                   (Array_init [Const 3 2 false; Const (-1) 2 true]) index here))
     = Ok (MkShape 3 true)).
Proof.
  intros Hshs Hsel. split.
  - exists (ArrayProxy_verdict (max_width false shs) (max_width true shs)
                               (has_sign false shs) (has_sign true shs)).
    split; [| split; [| split]].
    + rewrite shape_ArrayProxy, Hshs. cbn [bind].
      apply ArrayProxy_shape_summary.
    + intros e x. apply ArrayProxy_shape_holds.
    + pose proof (shapes_nonneg _ _ Hshs) as Hall.
      cbn [shapes] in Hshs.
      apply bind_ok_inv in Hshs. destruct Hshs as [sfirst [Hfirst Hshs]].
      apply bind_ok_inv in Hshs. destruct Hshs as [srest [Hrest Heq]].
      inversion Heq. subst shs. clear Heq.
      rewrite (shape_mux_tree sel first rest ssel sfirst srest Hsel Hfirst Hrest).
      rewrite <- ArrayProxy_shape_summary. symmetry.
      apply ArrayProxy_shape_mux. exact Hall.
    + intros Hs Hu Hle. unfold ArrayProxy_verdict.
      rewrite Hs, Hu. apply Z.leb_le in Hle. rewrite Hle. reflexivity.
  - repeat split.
Qed.

Lemma ArrayProxy_shape_preserves_values_witness :
  shape (ArrayProxy [Const 3 2 false; Const (-1) 2 true]
                    (Signal 0 1 false "i" 0 false))
  = Ok (MkShape 3 true) /\
  shape (mux_tree (Signal 0 1 false "i" 0 false)
                  (Const 3 2 false) [Const (-1) 2 true])
  = Ok (MkShape 3 true).
Proof.
  destruct (ArrayProxy_shape_preserves_values
              (Const 3 2 false) [Const (-1) 2 true]
              (Signal 0 1 false "i" 0 false) (Signal 0 1 false "i" 0 false)
              [MkShape 2 false; MkShape 2 true] (MkShape 1 false)
              eq_refl eq_refl) as [[sh [Hsh [_ [Hmux Hrule]]]] _].
  rewrite Hsh, Hmux.
  rewrite (Hrule eq_refl eq_refl ltac:(vm_compute; discriminate)).
  split; reflexivity.
Defined.

(** ** Arrays freeze when a proxy is made *)

Lemma Array_step_frozen (a : Array) (c : Array_call) :
  _mutable a = false -> fst (Array_step a c) = a.
Proof.
  intros Hfrozen.
  destruct c; unfold Array_step, Array_getitem_value, Array_setitem,
    Array_delitem, Array_insert, Array_check_mutability;
    rewrite ?Hfrozen; cbn [bind fst]; try reflexivity.
  destruct (Array_getitem_int a index); reflexivity.
Qed.

Lemma Array_run_frozen (a : Array) (calls : list Array_call) :
  _mutable a = false -> Array_run a calls = a.
Proof.
  intros Hfrozen. unfold Array_run.
  induction calls as [| c calls IH]; [reflexivity |].
  cbn [fold_left]. rewrite Array_step_frozen by exact Hfrozen. exact IH.
Qed.

Lemma Array_step_static (a : Array) (c : Array_call) :
  is_value_index c = false ->
  _mutable (fst (Array_step a c)) = _mutable a /\
  _proxy_at (fst (Array_step a c)) = _proxy_at a.
Proof.
  intros Hc.
  destruct c; try discriminate;
    unfold Array_step, Array_setitem, Array_delitem, Array_insert,
      Array_check_mutability.
  - destruct (Array_getitem_int a index); split; reflexivity.
  - destruct (_mutable a) eqn:Hm; cbn [bind];
      [destruct (Py.norm_index (_inner a) index) |];
      unfold raise; simpl; rewrite ?Hm; split; reflexivity.
  - destruct (_mutable a) eqn:Hm; cbn [bind];
      [destruct (Py.norm_index (_inner a) index) |];
      unfold raise; simpl; rewrite ?Hm; split; reflexivity.
  - destruct (_mutable a) eqn:Hm; simpl; rewrite ?Hm; split; reflexivity.
Qed.

Lemma Array_run_static (a : Array) (calls : list Array_call) :
  forallb (fun c => negb (is_value_index c)) calls = true ->
  _mutable (Array_run a calls) = _mutable a.
Proof.
  revert a. unfold Array_run.
  induction calls as [| c calls IH]; intros a Hcalls; [reflexivity |].
  cbn [forallb] in Hcalls. apply andb_prop in Hcalls.
  destruct Hcalls as [Hc Hcalls]. apply negb_true_iff in Hc.
  cbn [fold_left]. rewrite (IH _ Hcalls).
  apply (Array_step_static a c Hc).
Qed.

Lemma Array_mutation_frozen (a : Array) (c : Array_call) :
  _mutable a = false -> is_mutation c = true ->
  Array_step a c = (a, Some (MkExn ValueError (_proxy_at a))).
Proof.
  intros Hfrozen Hc.
  destruct c; try discriminate;
    unfold Array_step, Array_setitem, Array_delitem, Array_insert,
      Array_check_mutability; rewrite Hfrozen; reflexivity.
Qed.

(** C4. An [Array] freezes one way.  Before any access with a [Value]
    index, insertion succeeds and element assignment and deletion succeed at
    every index the list has.  The first access with a [Value] index, made
    at [here], freezes the array for good: whatever calls follow, the array
    stays as that access left it, and every element assignment, deletion and
    insertion raises an error that cites [here]. *)
Theorem Array_freeze_is_one_way
        (elems : list Value) (before after : list Array_call)
        (index : Value) (here : src_loc) :
  forallb (fun c => negb (is_value_index c)) before = true ->
  let a0 := Array_run (Array_init elems) before in
  let a1 := fst (Array_getitem_value a0 index here) in
  let a2 := Array_run a1 after in
  (forall i v,
     Array_insert a0 i v = Ok (with_inner a0 (Py.insert (_inner a0) i v)) /\
     (forall n, Py.norm_index (_inner a0) i = Some n ->
        Array_setitem a0 i v = Ok (with_inner a0 (Py.set_nth (_inner a0) n v)) /\
        Array_delitem a0 i = Ok (with_inner a0 (Py.del_nth (_inner a0) n)))) /\
  snd (Array_getitem_value a0 index here) = ArrayProxy (_inner a0) index /\
  a1 = MkArray (_inner a0) (Some here) false /\
  a2 = a1 /\
  (forall c, is_mutation c = true ->
     Array_step a2 c = (a2, Some (MkExn ValueError (Some here)))).
Proof.
  intros Hbefore a0 a1 a2.
  assert (Hm0 : _mutable a0 = true).
  { unfold a0. rewrite Array_run_static by exact Hbefore. reflexivity. }
  assert (Ha1 : a1 = MkArray (_inner a0) (Some here) false).
  { unfold a1, Array_getitem_value. rewrite Hm0. reflexivity. }
  assert (Ha2 : a2 = a1).
  { unfold a2. apply Array_run_frozen. rewrite Ha1. reflexivity. }
  split; [| split; [| split; [exact Ha1 | split; [exact Ha2 |]]]].
  - intros i v.
    unfold Array_insert, Array_setitem, Array_delitem, Array_check_mutability.
    rewrite Hm0. cbn [bind]. split; [reflexivity |].
    intros n Hn. rewrite Hn. split; reflexivity.
  - unfold Array_getitem_value. rewrite Hm0. reflexivity.
  - intros c Hc. rewrite Ha2, Ha1.
    apply Array_mutation_frozen; [reflexivity | exact Hc].
Qed.

Lemma Array_freeze_is_one_way_witness :
  let s0 := Signal 0 1 false "s0" 0 false in
  let s1 := Signal 1 1 false "s1" 0 false in
  let i := Signal 2 1 false "i" 0 false in
  let here := ("design.py"%string, 12) in
  Array_setitem (Array_init [s0; s1]) 0 s1 = Ok (MkArray [s1; s1] None true) /\
  Array_step (fst (Array_getitem_value (Array_init [s0; s1]) i here))
             (SetItem 0 s1)
  = (MkArray [s0; s1] (Some here) false,
     Some (MkExn ValueError (Some here))).
Proof.
  intros s0 s1 i here.
  destruct (Array_freeze_is_one_way [s0; s1] [] [] i here eq_refl)
    as [Hbefore [_ [_ [_ Hafter]]]].
  split.
  - exact (proj1 (proj2 (Hbefore 0 s1) 0%nat eq_refl)).
  - exact (Hafter (SetItem 0 s1) eq_refl).
Defined.

(** ** Pattern matching *)

Lemma join_split_length (s : string) :
  Py.len (Py.join_split s) = non_whitespace_length s.
Proof.
  unfold Py.len. induction s as [| c s IH]; [reflexivity |].
  cbn [Py.join_split non_whitespace_length].
  destruct (Py.isspace c); cbn [String.length]; lia.
Qed.

Lemma pattern_alphabet_inside (c : ascii) :
  Py.char_in c pattern_alphabet = true ->
  Py.char_in c "01-" || Py.isspace c = true.
Proof.
  unfold pattern_alphabet. cbn [Py.char_in]. intros H.
  rewrite !orb_true_iff in H.
  destruct H as [H | [H | [H | [H | [H | H]]]]];
    try (apply Ascii.eqb_eq in H; subst c; reflexivity).
  discriminate.
Qed.

Lemma outside_alphabet_rejected (s : string) :
  outside_alphabet s = true ->
  Py.any_char (fun bit => negb (Py.char_in bit pattern_alphabet)) s = true.
Proof.
  unfold outside_alphabet.
  induction s as [| c s IH]; cbn [Py.any_char]; [discriminate |].
  rewrite !orb_true_iff. intros [Hc | Hs]; [left | right; exact (IH Hs)].
  destruct (Py.char_in c pattern_alphabet) eqn:Hin; [| reflexivity].
  rewrite (pattern_alphabet_inside c Hin) in Hc. discriminate.
Qed.

(** A malformed string pattern makes its round of the loop raise. *)
Lemma matches_round_bad_string (self : Value) (n : Z) (s : string) :
  Value_len self = Ok n ->
  outside_alphabet s = true \/ non_whitespace_length s <> n ->
  matches_round self (PStr s) = Raised (MkExn SyntaxError None).
Proof.
  intros Hlen Hbad. unfold matches_round.
  destruct (Py.any_char _ s) eqn:Halpha; [reflexivity |].
  destruct Hbad as [Hout | Hlength].
  - rewrite (outside_alphabet_rejected s Hout) in Halpha. discriminate.
  - rewrite Hlen. cbn [bind]. rewrite join_split_length.
    destruct (Z.eqb_spec (non_whitespace_length s) n); [contradiction |].
    reflexivity.
Qed.

(** An integer pattern too wide for the value makes its round warn and
    skip. *)
Lemma matches_round_wide_int (self : Value) (n k : Z) :
  Value_len self = Ok n ->
  n < bits_for k false ->
  matches_round self (PInt k) = Skipped (MatchPatternTooWide k n).
Proof.
  intros Hlen Hwide. unfold matches_round. rewrite Hlen. cbn [bind].
  destruct (Z.ltb_spec n (bits_for k false)); [reflexivity | lia].
Qed.

Lemma matches_loop_app (self : Value) (ps1 ps2 : list pattern)
      (acc : list Value) (ws : list warning) :
  matches_loop self (ps1 ++ ps2) acc ws =
  match matches_loop self ps1 acc ws with
  | (ws', Ok acc') => matches_loop self ps2 acc' ws'
  | (ws', Error e) => (ws', Error e)
  end.
Proof.
  revert acc ws. induction ps1 as [| p ps1 IH]; intros acc ws; [reflexivity |].
  cbn [app matches_loop].
  destruct (matches_round self p); [reflexivity | apply IH | apply IH].
Qed.

(** Warnings only pile up: the loop does not read them. *)
Lemma matches_loop_warnings (self : Value) (ps : list pattern)
      (acc : list Value) (ws0 ws : list warning) :
  matches_loop self ps acc (ws0 ++ ws) =
  (ws0 ++ fst (matches_loop self ps acc ws),
   snd (matches_loop self ps acc ws)).
Proof.
  revert acc ws. induction ps as [| p ps IH]; intros acc ws; [reflexivity |].
  cbn [matches_loop].
  destruct (matches_round self p); [reflexivity | | apply IH].
  rewrite <- app_assoc. apply IH.
Qed.

Lemma Const_init_None_ok (z : Z) : exists c, Const_init z ShapeNone = Ok c.
Proof.
  unfold Const_init.
  pose proof (bits_for_positive z false) as Hpos.
  rewrite Shape_init_ok by lia. cbn [bind width is_signed].
  rewrite Const_normalize_spec.
  destruct (Z.ltb_spec (bits_for z false) 0); [lia |].
  destruct (Z.ltb_spec (bits_for z false - 1) 0); [lia |].
  rewrite andb_false_r. cbn [orb bind]. eexists. reflexivity.
Qed.

Lemma Value_eq_int_ok (self : Value) (k : Z) :
  exists m, Value_eq self (AsInt k) = Ok m.
Proof.
  unfold Value_eq, Operator_init. cbn [cast_all Value_cast bind].
  destruct (Const_init_None_ok k) as [c Hc]. rewrite Hc. cbn [bind].
  eexists. reflexivity.
Qed.

Lemma Value_and_int_ok (self : Value) (k : Z) :
  exists m, Value_and self (AsInt k) = Ok m.
Proof.
  unfold Value_and, Operator_init. cbn [cast_all Value_cast bind].
  destruct (Const_init_None_ok k) as [c Hc]. rewrite Hc. cbn [bind].
  eexists. reflexivity.
Qed.

Lemma alphabet_join_split (s : string) :
  Py.any_char (fun bit => negb (Py.char_in bit pattern_alphabet)) s = false ->
  Py.any_char (fun c => negb (Py.char_in c "01-")) (Py.join_split s) = false.
Proof.
  induction s as [| c s IH]; [reflexivity |].
  cbn [Py.any_char Py.join_split]. intros H.
  apply orb_false_elim in H. destruct H as [Hc Hs].
  apply negb_false_iff in Hc.
  destruct (Py.isspace c) eqn:Hsp; [exact (IH Hs) |].
  cbn [Py.any_char]. rewrite (IH Hs), orb_false_r.
  pose proof (pattern_alphabet_inside c Hc) as Hin.
  rewrite Hsp, orb_false_r in Hin. rewrite Hin. reflexivity.
Qed.

Lemma int2_digits_ok (s : string) (acc : Z) :
  Py.any_char (fun c => negb (Py.char_in c "01")) s = false ->
  exists z, Py.int2_digits acc s = Ok z.
Proof.
  revert acc. induction s as [| c s IH]; intros acc H.
  - exists acc. reflexivity.
  - cbn [Py.any_char] in H. apply orb_false_elim in H. destruct H as [Hc Hs].
    apply negb_false_iff in Hc. cbn [Py.char_in] in Hc.
    cbn [Py.int2_digits].
    destruct (Ascii.eqb c "0"); [apply IH; exact Hs |].
    destruct (Ascii.eqb c "1"); [apply IH; exact Hs |].
    discriminate.
Qed.

Lemma replace_dash_digits (s : string) :
  Py.any_char (fun c => negb (Py.char_in c "01-")) s = false ->
  Py.any_char (fun c => negb (Py.char_in c "01")) (Py.replace "-" "0" s) = false.
Proof.
  induction s as [| c s IH]; [reflexivity |].
  cbn [Py.any_char Py.replace]. intros H.
  apply orb_false_elim in H. destruct H as [Hc Hs].
  rewrite (IH Hs), orb_false_r.
  apply negb_false_iff in Hc. cbn [Py.char_in] in Hc.
  destruct (Ascii.eqb_spec c "-") as [-> | Hd]; [reflexivity |].
  apply negb_false_iff. cbn [Py.char_in].
  destruct (Ascii.eqb c "0"); [reflexivity |].
  destruct (Ascii.eqb c "1"); [reflexivity |].
  destruct (Ascii.eqb_spec c "-"); [contradiction | discriminate].
Qed.

Lemma replace_zero_alphabet (s : string) :
  Py.any_char (fun c => negb (Py.char_in c "01-")) s = false ->
  Py.any_char (fun c => negb (Py.char_in c "01-")) (Py.replace "0" "1" s) = false.
Proof.
  induction s as [| c s IH]; [reflexivity |].
  cbn [Py.any_char Py.replace]. intros H.
  apply orb_false_elim in H. destruct H as [Hc Hs].
  rewrite (IH Hs), orb_false_r.
  destruct (Ascii.eqb_spec c "0") as [-> | Hd]; [reflexivity | exact Hc].
Qed.

Lemma replace_nonempty (a b : ascii) (s : string) :
  s <> ""%string -> Py.replace a b s <> ""%string.
Proof. destruct s; [contradiction | discriminate]. Qed.

Lemma int2_ok (s : string) :
  s <> ""%string ->
  Py.any_char (fun c => negb (Py.char_in c "01")) s = false ->
  exists z, Py.int2 s = Ok z.
Proof.
  intros Hne Hd. destruct s as [| c s]; [contradiction |].
  unfold Py.int2. apply int2_digits_ok. exact Hd.
Qed.

(** For a value at least one bit wide, a round of the loop raises nothing
    but [SyntaxError]. *)
Lemma matches_round_raises_SyntaxError (self : Value) (n : Z) (p : pattern) (e : exn) :
  Value_len self = Ok n ->
  1 <= n ->
  matches_round self p = Raised e ->
  e = MkExn SyntaxError None.
Proof.
  intros Hlen Hn. destruct p as [k | s | k |]; cbn [matches_round].
  - rewrite Hlen. cbn [bind].
    destruct (n <? bits_for k false); cbn [round_of_unit]; [discriminate |].
    destruct (Value_eq_int_ok self k) as [m ->]. discriminate.
  - destruct (Py.any_char _ s) eqn:Halpha; [intros H; inversion H; reflexivity |].
    rewrite Hlen. cbn [bind].
    destruct (Z.eqb_spec (Py.len (Py.join_split s)) n) as [Hl | Hl];
      cbn [negb round_of_unit]; [| intros H; inversion H; reflexivity].
    pose proof (alphabet_join_split s Halpha) as Hjs.
    assert (Hne : Py.join_split s <> ""%string).
    { intros Heq. rewrite Heq in Hl. unfold Py.len in Hl. simpl in Hl. lia. }
    destruct (int2_ok (Py.replace "-" "0" (Py.replace "0" "1" (Py.join_split s))))
      as [mask ->].
    { apply replace_nonempty, replace_nonempty, Hne. }
    { apply replace_dash_digits, replace_zero_alphabet, Hjs. }
    destruct (int2_ok (Py.replace "-" "0" (Py.join_split s))) as [pat ->].
    { apply replace_nonempty, Hne. }
    { apply replace_dash_digits, Hjs. }
    cbn [bind].
    destruct (Value_and_int_ok self mask) as [masked ->]. cbn [bind].
    destruct (Value_eq_int_ok masked pat) as [m ->]. discriminate.
  - destruct (Value_eq_int_ok self k) as [m ->]. discriminate.
  - intros H. inversion H. reflexivity.
Qed.

Lemma matches_loop_raises_SyntaxError (self : Value) (n : Z)
      (ps : list pattern) (acc : list Value) (ws ws' : list warning) (e : exn) :
  Value_len self = Ok n ->
  1 <= n ->
  matches_loop self ps acc ws = (ws', Error e) ->
  e = MkExn SyntaxError None.
Proof.
  intros Hlen Hn. revert acc ws.
  induction ps as [| p ps IH]; intros acc ws H; cbn [matches_loop] in H.
  - discriminate.
  - destruct (matches_round self p) eqn:Hround.
    + inversion H. subst.
      eapply matches_round_raises_SyntaxError; eassumption.
    + eapply IH. exact H.
    + eapply IH. exact H.
Qed.

Lemma matches_loop_from (self : Value) (ps : list pattern)
      (acc : list Value) (ws : list warning) :
  matches_loop self ps acc ws =
  (ws ++ fst (matches_loop self ps acc []),
   snd (matches_loop self ps acc [])).
Proof.
  rewrite <- (app_nil_r ws) at 1. apply matches_loop_warnings.
Qed.

(** C9. For every value [self] and every list of patterns given to
    [matches]: a string pattern whose length without whitespace is not the
    width of [self], or that holds a character other than 0, 1, - and
    whitespace, raises a [SyntaxError] in the call, which then returns no
    node (when [self] is at least one bit wide, nothing else can be raised
    before it, so the call ends in that [SyntaxError]); an integer pattern
    that needs more bits than [self] has raises nothing, emits one warning
    and adds no comparison: the call ends as it would without that
    pattern. *)
Theorem matches_rejects_strings_drops_wide_ints
        (self : Value) (n : Z) (before after : list pattern) :
  Value_len self = Ok n ->
  (forall s,
     outside_alphabet s = true \/ non_whitespace_length s <> n ->
     matches_round self (PStr s) = Raised (MkExn SyntaxError None) /\
     Value_matches self (before ++ PStr s :: after) =
       match matches_loop self before [] [] with
       | (ws, Ok _) => (ws, raise SyntaxError)
       | (ws, Error e) => (ws, Error e)
       end /\
     (1 <= n ->
      exists ws,
        Value_matches self (before ++ PStr s :: after)
        = (ws, raise SyntaxError))) /\
  (forall k,
     n < bits_for k false ->
     matches_round self (PInt k) = Skipped (MatchPatternTooWide k n) /\
     snd (Value_matches self (before ++ PInt k :: after)) =
       snd (Value_matches self (before ++ after)) /\
     forall ws1 acc1,
       matches_loop self before [] [] = (ws1, Ok acc1) ->
       exists ws2,
         fst (Value_matches self (before ++ PInt k :: after)) =
           ws1 ++ MatchPatternTooWide k n :: ws2 /\
         fst (Value_matches self (before ++ after)) = ws1 ++ ws2).
Proof.
  intros Hlen. split.
  - intros s Hbad.
    pose proof (matches_round_bad_string self n s Hlen Hbad) as Hround.
    split; [exact Hround |].
    assert (Hcall : Value_matches self (before ++ PStr s :: after) =
                    match matches_loop self before [] [] with
                    | (ws, Ok _) => (ws, raise SyntaxError)
                    | (ws, Error e) => (ws, Error e)
                    end).
    { unfold Value_matches. rewrite matches_loop_app.
      destruct (matches_loop self before [] []) as [ws [acc | e]];
        [| reflexivity].
      cbn [matches_loop]. rewrite Hround. reflexivity. }
    split; [exact Hcall |].
    intros Hn. rewrite Hcall.
    destruct (matches_loop self before [] []) as [ws [acc | e]] eqn:Hbefore.
    + exists ws. reflexivity.
    + exists ws.
      rewrite (matches_loop_raises_SyntaxError self n before [] [] ws e
                 Hlen Hn Hbefore).
      reflexivity.
  - intros k Hwide.
    pose proof (matches_round_wide_int self n k Hlen Hwide) as Hround.
    split; [exact Hround |].
    unfold Value_matches. rewrite !matches_loop_app.
    destruct (matches_loop self before [] []) as [ws [acc | e]].
    + cbn [matches_loop]. rewrite Hround.
      rewrite (matches_loop_from self after acc (ws ++ _)).
      rewrite (matches_loop_from self after acc ws).
      destruct (matches_loop self after acc []) as [ws' [acc' | e']];
        cbn [fst snd].
      * destruct (matches_result acc') as [ws'' r]. cbn [fst snd].
        split; [reflexivity |].
        intros ws1 acc1 Heq. inversion Heq. subst.
        exists (ws' ++ ws''). rewrite <- !app_assoc. split; reflexivity.
      * split; [reflexivity |].
        intros ws1 acc1 Heq. inversion Heq. subst.
        exists ws'. rewrite <- !app_assoc. split; reflexivity.
    + split; [reflexivity |]. intros ws1 acc1 Heq. discriminate.
Qed.

Lemma matches_rejects_strings_drops_wide_ints_witness :
  let v := Signal 0 4 false "v" 0 false in
  Value_matches v [PInt 3; PStr "1"] = ([], raise SyntaxError) /\
  Value_matches v [PInt 3; PStr "1x1x"] = ([], raise SyntaxError) /\
  (exists ws, Value_matches v [PInt 3; PStr " 1 0 1 "] = (ws, raise SyntaxError)) /\
  snd (Value_matches v [PInt 3; PInt 16; PStr "1-1-"]) =
    snd (Value_matches v [PInt 3; PStr "1-1-"]) /\
  fst (Value_matches v [PInt 3; PInt 16; PStr "1-1-"]) =
    [MatchPatternTooWide 16 4].
Proof.
  intros v.
  destruct (matches_rejects_strings_drops_wide_ints v 4 [PInt 3] [] eq_refl)
    as [Hstr _].
  destruct (matches_rejects_strings_drops_wide_ints v 4 [PInt 3] [PStr "1-1-"]
              eq_refl) as [_ Hint].
  assert (Hshort : non_whitespace_length "1" <> 4) by (vm_compute; discriminate).
  assert (Hthree : non_whitespace_length " 1 0 1 " <> 4)
    by (vm_compute; discriminate).
  assert (Hwide : 4 < bits_for 16 false) by (vm_compute; reflexivity).
  assert (Hn : 1 <= 4) by lia.
  destruct (Hstr "1"%string (or_intror Hshort)) as [_ [H1 _]].
  destruct (Hstr "1x1x"%string (or_introl eq_refl)) as [_ [H2 _]].
  destruct (Hstr " 1 0 1 "%string (or_intror Hthree)) as [_ [_ H3]].
  destruct (Hint 16 Hwide) as [_ [Hsnd Hfst]].
  destruct (Hfst [] [Operator "==" [v; Const 3 2 false]] eq_refl)
    as [ws2 [Hw1 Hw2]].
  vm_compute in Hw2. subst ws2.
  split; [exact H1 |]. split; [exact H2 |]. split; [exact (H3 Hn) |].
  split; [exact Hsnd | exact Hw1].
Defined.

(** ** Switch keys *)

Lemma mask_is_ones (w : Z) : Z.shiftl 1 w - 1 = Z.ones w.
Proof. reflexivity. Qed.

Lemma land_mask_mod (k w : Z) :
  0 <= w -> Z.land k (Z.shiftl 1 w - 1) = k mod 2 ^ w.
Proof. intros Hw. rewrite mask_is_ones. apply Z.land_ones. exact Hw. Qed.

Lemma bin_pos_length (p : positive) (acc : string) :
  String.length (Py.bin_pos p acc) = (Pos.size_nat p + String.length acc)%nat.
Proof.
  revert acc. induction p as [p IH | p IH |]; intros acc; cbn [Py.bin_pos Pos.size_nat].
  - rewrite IH. cbn [String.length]. lia.
  - rewrite IH. cbn [String.length]. lia.
  - reflexivity.
Qed.

Lemma size_nat_bound (p : positive) (w : Z) :
  0 <= w -> Z.pos p < 2 ^ w -> Z.of_nat (Pos.size_nat p) <= w.
Proof.
  revert w. induction p as [p IH | p IH |]; intros w Hw Hlt.
  - assert (w <> 0) by (intros ->; simpl in Hlt; lia).
    replace w with (Z.succ (w - 1)) in Hlt by lia.
    rewrite Z.pow_succ_r, Pos2Z.inj_xI in Hlt by lia.
    specialize (IH (w - 1)). cbn [Pos.size_nat]. lia.
  - assert (w <> 0) by (intros ->; simpl in Hlt; lia).
    replace w with (Z.succ (w - 1)) in Hlt by lia.
    rewrite Z.pow_succ_r, Pos2Z.inj_xO in Hlt by lia.
    specialize (IH (w - 1)). cbn [Pos.size_nat]. lia.
  - assert (w <> 0) by (intros ->; simpl in Hlt; lia).
    cbn [Pos.size_nat]. lia.
Qed.

Lemma format_b_length (x w : Z) :
  1 <= w -> 0 <= x < 2 ^ w -> Py.len (Py.format_b x) <= w.
Proof.
  intros Hw Hx. unfold Py.len. destruct x as [| p | p]; cbn [Py.format_b].
  - simpl. lia.
  - rewrite bin_pos_length. cbn [String.length].
    pose proof (size_nat_bound p w ltac:(lia) ltac:(lia)). lia.
  - lia.
Qed.

Lemma repeat_char_length (c : ascii) (n : nat) :
  String.length (Py.repeat_char c n) = n.
Proof. induction n as [| n IH]; simpl; [reflexivity | rewrite IH; reflexivity]. Qed.

Lemma string_app_length (s t : string) :
  String.length (s ++ t) = (String.length s + String.length t)%nat.
Proof. induction s as [| c s IH]; simpl; [reflexivity | rewrite IH; reflexivity]. Qed.

Lemma rjust_length (s : string) (n : Z) (c : ascii) :
  Py.len s <= n -> Py.len (Py.rjust s n c) = n.
Proof.
  unfold Py.rjust, Py.len. intros Hle.
  rewrite string_app_length, repeat_char_length. lia.
Qed.

(** The key of an integer, for a test of width at least one. *)
Lemma Switch_key_int (w k : Z) :
  1 <= w ->
  Switch_key w (Z.shiftl 1 w - 1) (KInt k) =
  Ok (Py.rjust (Py.format_b (Z.land k (Z.shiftl 1 w - 1))) w "0").
Proof.
  intros Hw. unfold Switch_key. cbn [bind].
  rewrite rjust_length.
  - rewrite Z.eqb_refl. reflexivity.
  - apply format_b_length; [exact Hw |].
    rewrite land_mask_mod by lia. apply Z.mod_pos_bound.
    apply Z.pow_pos_nonneg; lia.
Qed.

Lemma Switch_key_enum (w k : Z) :
  Switch_key w (Z.shiftl 1 w - 1) (KEnum k) =
  Switch_key w (Z.shiftl 1 w - 1) (KInt k).
Proof. reflexivity. Qed.

Lemma int2_digits_bin_pos (p : positive) (acc : Z) (s : string) :
  Py.int2_digits acc (Py.bin_pos p s) =
  Py.int2_digits (acc * 2 ^ Z.of_nat (Pos.size_nat p) + Z.pos p) s.
Proof.
  revert acc s. induction p as [p IH | p IH |]; intros acc s;
    cbn [Py.bin_pos Pos.size_nat].
  - rewrite IH. cbn [Py.int2_digits]. simpl Ascii.eqb. cbv iota.
    f_equal. rewrite Nat2Z.inj_succ, Z.pow_succ_r by lia. lia.
  - rewrite IH. cbn [Py.int2_digits]. simpl Ascii.eqb. cbv iota.
    f_equal. rewrite Nat2Z.inj_succ, Z.pow_succ_r by lia. lia.
  - cbn [Py.int2_digits]. simpl Ascii.eqb. cbv iota. f_equal. lia.
Qed.

Lemma int2_digits_format_b (x : Z) :
  0 <= x -> Py.int2_digits 0 (Py.format_b x) = Ok x.
Proof.
  intros Hx. destruct x as [| p | p]; [reflexivity | | lia].
  cbn [Py.format_b]. rewrite int2_digits_bin_pos. reflexivity.
Qed.

Lemma int2_digits_zeros (n : nat) (s : string) :
  Py.int2_digits 0 (Py.repeat_char "0" n ++ s) = Py.int2_digits 0 s.
Proof. induction n as [| n IH]; [reflexivity | exact IH]. Qed.

Lemma format_b_nonempty (x : Z) : Py.format_b x <> ""%string.
Proof.
  destruct x as [| p | p]; cbn [Py.format_b]; try discriminate.
  intros H. apply (f_equal String.length) in H.
  rewrite bin_pos_length in H. destruct p; simpl in H; discriminate.
Qed.

(** Reading a key back gives the masked value: the key is its binary
    numeral. *)
Lemma int2_rjust_format_b (x w : Z) :
  0 <= x -> Py.int2 (Py.rjust (Py.format_b x) w "0") = Ok x.
Proof.
  intros Hx. unfold Py.int2, Py.rjust.
  destruct (Py.repeat_char "0" (Z.to_nat (w - Py.len (Py.format_b x)))
            ++ Py.format_b x)%string eqn:Hs.
  - exfalso. apply (format_b_nonempty x).
    destruct (Py.repeat_char "0" _); [exact Hs | discriminate].
  - rewrite <- Hs, int2_digits_zeros. apply int2_digits_format_b. exact Hx.
Qed.

Lemma Switch_keys_int (w : Z) (keys : list switch_key) :
  1 <= w ->
  forallb is_int_key keys = true ->
  exists ks, Switch_keys w (Z.shiftl 1 w - 1) keys = Ok ks.
Proof.
  intros Hw. induction keys as [| key keys IH]; intros Hkeys.
  - exists []. reflexivity.
  - cbn [forallb] in Hkeys. apply andb_prop in Hkeys.
    destruct Hkeys as [Hkey Hkeys]. destruct (IH Hkeys) as [ks Hks].
    cbn [Switch_keys]. rewrite Hks.
    destruct key as [s | k | k |]; try discriminate.
    + rewrite Switch_key_int by exact Hw. eexists. reflexivity.
    + rewrite Switch_key_enum, Switch_key_int by exact Hw.
      eexists. reflexivity.
Qed.

Lemma Switch_case_keys_eq (test : Value) (w : Z) (orig_keys : case_keys) :
  Value_len test = Ok w -> 0 <= w ->
  Switch_case_keys test orig_keys =
  Switch_keys w (Z.shiftl 1 w - 1) (keys_tuple orig_keys).
Proof.
  intros Hlen Hw. unfold Switch_case_keys, Py.shl. rewrite Hlen. cbn [bind].
  destruct (Z.ltb_spec w 0); [lia | reflexivity].
Qed.

Lemma Switch_cases_int (test : Value) (w : Z)
      (cases : list (case_keys * list Statement))
      (acc : list (list string * list Statement)) :
  Value_len test = Ok w -> 1 <= w ->
  forallb (fun c => forallb is_int_key (keys_tuple (fst c))) cases = true ->
  exists cases', Switch_cases test cases acc = Ok cases'.
Proof.
  intros Hlen Hw. revert acc.
  induction cases as [| [orig_keys stmts] cases IH]; intros acc Hcases.
  - exists acc. reflexivity.
  - cbn [forallb fst] in Hcases. apply andb_prop in Hcases.
    destruct Hcases as [Hkeys Hcases].
    cbn [Switch_cases].
    rewrite (Switch_case_keys_eq test w orig_keys Hlen) by lia.
    destruct (Switch_keys_int w _ Hw Hkeys) as [ks Hks].
    rewrite Hks. cbn [bind]. apply IH. exact Hcases.
Qed.

(** A test of width zero: the key of any integer is formatted as "0", one
    character long, and the assertion on its length fails. *)
Lemma Switch_key_int_zero_width (k : Z) :
  Switch_key 0 (Z.shiftl 1 0 - 1) (KInt k) = raise AssertionError.
Proof.
  unfold Switch_key. cbn [bind].
  change (Z.shiftl 1 0 - 1) with 0. rewrite Z.land_0_r. reflexivity.
Qed.

(** The key of an integer or of an enumeration member for a test at least
    one bit wide: the masked value in binary, padded with zeros to the width
    of the test. *)
Lemma Switch_int_key_wide_test (test : Value) (w k : Z) :
  Value_len test = Ok w ->
  1 <= w ->
  let key := Py.rjust (Py.format_b (Z.land k (2 ^ w - 1))) w "0" in
  Switch_case_keys test (KeysOne (KInt k)) = Ok [key] /\
  Switch_case_keys test (KeysOne (KEnum k)) = Ok [key] /\
  Py.len key = w /\
  Py.int2 key = Ok (k mod 2 ^ w) /\
  (forall stmts,
     Switch_init (AsValue test) [(KeysOne (KInt k), stmts)]
     = Ok (Switch test [([key], stmts)])) /\
  (forall cases,
     forallb (fun c => forallb is_int_key (keys_tuple (fst c))) cases = true ->
     exists cases', Switch_init (AsValue test) cases = Ok (Switch test cases')).
Proof.
  intros Hlen Hw key.
  assert (Hmask : 2 ^ w - 1 = Z.shiftl 1 w - 1)
    by (rewrite Z.shiftl_1_l; reflexivity).
  assert (Hint : Switch_case_keys test (KeysOne (KInt k)) = Ok [key]).
  { rewrite (Switch_case_keys_eq test w _ Hlen) by lia.
    cbn [keys_tuple Switch_keys]. rewrite Switch_key_int by exact Hw.
    unfold key. rewrite Hmask. reflexivity. }
  assert (Hrange : 0 <= Z.land k (2 ^ w - 1) < 2 ^ w).
  { rewrite Hmask, land_mask_mod by lia. apply Z.mod_pos_bound.
    apply Z.pow_pos_nonneg; lia. }
  split; [exact Hint |]. split; [| split; [| split; [| split]]].
  - rewrite (Switch_case_keys_eq test w _ Hlen) by lia.
    rewrite (Switch_case_keys_eq test w _ Hlen) in Hint by lia.
    exact Hint.
  - unfold key. apply rjust_length. apply format_b_length; assumption.
  - unfold key. rewrite int2_rjust_format_b by lia.
    rewrite Hmask, land_mask_mod by lia. reflexivity.
  - intros stmts. unfold Switch_init. cbn [Value_cast bind Switch_cases].
    rewrite Hint. reflexivity.
  - intros cases Hcases. unfold Switch_init. cbn [Value_cast bind].
    destruct (Switch_cases_int test w cases [] Hlen Hw Hcases) as [cases' H].
    exists cases'. rewrite H. reflexivity.
Qed.

(** C10, as the code has it.  For a test at least one bit wide, every
    integer or enumeration-member key of a [Switch] is normalized by masking
    it with [2 ^ width - 1] and writing the masked value in binary, padded
    with zeros to the width of the test: the key has exactly that many
    characters and reads back as the key's low bits, so a key wider than the
    test is truncated without an error, and a [Switch] all of whose keys are
    integers or enumeration members is built.  For a test of width zero the
    masked value 0 is written as the one character "0", where padding to the
    width asks for none, and the assertion on the length of the key in the
    same loop fails: every integer or enumeration-member key raises
    [AssertionError] and no [Switch] is built, while the same test takes
    the empty string as a key. *)
Theorem Switch_int_key_normalized (test : Value) (w k : Z) :
  Value_len test = Ok w ->
  (1 <= w ->
   let key := Py.rjust (Py.format_b (Z.land k (2 ^ w - 1))) w "0" in
   Switch_case_keys test (KeysOne (KInt k)) = Ok [key] /\
   Switch_case_keys test (KeysOne (KEnum k)) = Ok [key] /\
   Py.len key = w /\
   Py.int2 key = Ok (k mod 2 ^ w) /\
   (forall stmts,
      Switch_init (AsValue test) [(KeysOne (KInt k), stmts)]
      = Ok (Switch test [([key], stmts)])) /\
   (forall cases,
      forallb (fun c => forallb is_int_key (keys_tuple (fst c))) cases = true ->
      exists cases', Switch_init (AsValue test) cases = Ok (Switch test cases'))) /\
  (w = 0 ->
   Switch_case_keys test (KeysOne (KInt k)) = raise AssertionError /\
   Switch_case_keys test (KeysOne (KEnum k)) = raise AssertionError /\
   Switch_case_keys test (KeysOne (KStr "")) = Ok [""%string] /\
   (forall stmts,
      Switch_init (AsValue test) [(KeysOne (KInt k), stmts)]
      = raise AssertionError) /\
   (forall stmts,
      Switch_init (AsValue test) [(KeysOne (KStr ""), stmts)]
      = Ok (Switch test [([""%string], stmts)]))).
Proof.
  intros Hlen. split.
  - intros Hw. exact (Switch_int_key_wide_test test w k Hlen Hw).
  - intros ->.
    assert (Hint : Switch_case_keys test (KeysOne (KInt k)) = raise AssertionError).
    { rewrite (Switch_case_keys_eq test 0 _ Hlen) by lia.
      cbn [keys_tuple Switch_keys]. rewrite Switch_key_int_zero_width.
      reflexivity. }
    assert (Hstr : Switch_case_keys test (KeysOne (KStr "")) = Ok [""%string]).
    { rewrite (Switch_case_keys_eq test 0 _ Hlen) by lia. reflexivity. }
    split; [exact Hint |]. split; [| split; [exact Hstr | split]].
    + rewrite (Switch_case_keys_eq test 0 _ Hlen) by lia.
      cbn [keys_tuple Switch_keys]. rewrite Switch_key_enum.
      rewrite Switch_key_int_zero_width. reflexivity.
    + intros stmts. unfold Switch_init. cbn [Value_cast bind Switch_cases].
      rewrite Hint. reflexivity.
    + intros stmts. unfold Switch_init. cbn [Value_cast bind Switch_cases].
      rewrite Hstr. reflexivity.
Qed.

Lemma Switch_int_key_normalized_witness :
  (let test := Signal 0 4 false "sel" 0 false in
   Switch_case_keys test (KeysOne (KInt 2)) = Ok ["0010"%string] /\
   Switch_case_keys test (KeysOne (KInt 18)) = Ok ["0010"%string]) /\
  (let test := Const 0 0 false in
   Const_init 0 (ShapeWidth 0) = Ok test /\
   Switch_init (AsValue test) [(KeysOne (KInt 1), [])] = raise AssertionError /\
   Switch_init (AsValue test) [(KeysOne (KStr ""), [])]
   = Ok (Switch test [([""%string], [])])).
Proof.
  split.
  - intros test.
    assert (Hw : 1 <= 4) by lia.
    destruct (Switch_int_key_normalized test 4 2 eq_refl) as [H2 _].
    destruct (Switch_int_key_normalized test 4 18 eq_refl) as [H18 _].
    destruct (H2 Hw) as [H2' _]. destruct (H18 Hw) as [H18' _].
    split; [exact H2' | exact H18'].
  - intros test.
    destruct (Switch_int_key_normalized test 0 1 eq_refl) as [_ Hzero].
    destruct (Hzero eq_refl) as [_ [_ [_ [Hint Hstr]]]].
    split; [reflexivity |]. split; [apply Hint | apply Hstr].
Defined.

(** ** Structural keys *)

Lemma ValueKey_init_Operator (op : string) (operands : list Value) :
  ValueKey_init (Operator op operands) = ValueKey_init_all operands.
Proof. reflexivity. Qed.

Lemma ValueKey_init_Cat (parts : list Value) :
  ValueKey_init (Cat parts) = ValueKey_init_all parts.
Proof. reflexivity. Qed.

Lemma ValueKey_init_ArrayProxy (elems : list Value) (index : Value) :
  ValueKey_init (ArrayProxy elems index) =
  (_ <- ValueKey_init index ;; ValueKey_init_all elems).
Proof. reflexivity. Qed.

Lemma ValueKey_eq_values_Cat (parts_a parts_b : list Value) :
  ValueKey_eq_values (Cat parts_a) (Cat parts_b) =
  ValueKey_eq_all parts_a parts_b.
Proof. reflexivity. Qed.

Lemma ValueKey_eq_values_Operator (op_a op_b : string) (ops_a ops_b : list Value) :
  ValueKey_eq_values (Operator op_a ops_a) (Operator op_b ops_b) =
  if String.eqb op_a op_b
     && (Z.of_nat (List.length ops_a) =? Z.of_nat (List.length ops_b))
  then ValueKey_eq_all ops_a ops_b
  else Ok false.
Proof. reflexivity. Qed.

Lemma ValueKey_eq_values_ArrayProxy
      (elems_a elems_b : list Value) (index_a index_b : Value) :
  ValueKey_eq_values (ArrayProxy elems_a index_a) (ArrayProxy elems_b index_b) =
  (_ <- ValueKey_init index_a ;;
   _ <- ValueKey_init index_b ;;
   r <- ValueKey_eq_values index_a index_b ;;
   if r && (Z.of_nat (List.length elems_a) =? Z.of_nat (List.length elems_b))
   then ValueKey_eq_all elems_a elems_b
   else Ok false).
Proof. reflexivity. Qed.

Lemma bind_unit_inv (c : result unit) (k : result unit) :
  (_ <- c ;; k) = Ok tt -> c = Ok tt /\ k = Ok tt.
Proof.
  destruct c as [[] | e]; cbn [bind]; intros H; [split; [reflexivity | exact H] | discriminate].
Qed.

Lemma ValueKey_eq_all_refl (vs : list Value) :
  Forall (fun v => ValueKey_init v = Ok tt -> ValueKey_eq_values v v = Ok true) vs ->
  ValueKey_init_all vs = Ok tt ->
  ValueKey_eq_all vs vs = Ok true.
Proof.
  induction 1 as [| v vs Hv _ IH]; intros Hinit; [reflexivity |].
  cbn [ValueKey_init_all] in Hinit. apply bind_unit_inv in Hinit.
  destruct Hinit as [Hv_init Hvs_init].
  cbn [ValueKey_eq_all]. rewrite Hv_init. cbn [bind].
  rewrite (Hv Hv_init). cbn [bind]. apply IH. exact Hvs_init.
Qed.

(** A key equals itself. *)
Lemma ValueKey_eq_values_refl (v : Value) :
  ValueKey_init v = Ok tt -> ValueKey_eq_values v v = Ok true.
Proof.
  induction v using Value_nested_ind; intros Hinit.
  - simpl. rewrite Z.eqb_refl. reflexivity.
  - simpl. rewrite Z.eqb_refl. reflexivity.
  - simpl. rewrite Z.eqb_refl. reflexivity.
  - rewrite ValueKey_eq_values_Operator, String.eqb_refl, Z.eqb_refl.
    apply ValueKey_eq_all_refl; assumption.
  - simpl in Hinit. simpl. rewrite Hinit. cbn [bind].
    rewrite (IHv Hinit). cbn [bind]. rewrite !Z.eqb_refl. reflexivity.
  - simpl in Hinit. apply bind_unit_inv in Hinit. destruct Hinit as [H1 H2].
    simpl. rewrite H1, H2. cbn [bind].
    rewrite (IHv1 H1). cbn [bind]. rewrite (IHv2 H2). cbn [bind].
    rewrite !Z.eqb_refl. reflexivity.
  - rewrite ValueKey_eq_values_Cat. apply ValueKey_eq_all_refl; assumption.
  - discriminate.
  - simpl. rewrite Z.eqb_refl. reflexivity.
  - simpl. rewrite String.eqb_refl. reflexivity.
  - simpl. rewrite String.eqb_refl. reflexivity.
  - rewrite ValueKey_init_ArrayProxy in Hinit. apply bind_unit_inv in Hinit.
    destruct Hinit as [H1 H2].
    rewrite ValueKey_eq_values_ArrayProxy, H1. cbn [bind].
    rewrite (IHv H1). cbn [bind]. rewrite Z.eqb_refl. cbn [andb].
    apply ValueKey_eq_all_refl; assumption.
  - simpl in Hinit. simpl. rewrite Hinit. cbn [bind].
    rewrite (IHv Hinit). cbn [bind]. rewrite Z.eqb_refl.
    destruct domain as [d |]; simpl; [rewrite String.eqb_refl |]; reflexivity.
  - reflexivity.
Qed.

Lemma ValueKey_eq_all_prefix (parts extra : list Value) :
  ValueKey_init_all (parts ++ extra) = Ok tt ->
  ValueKey_eq_all parts (parts ++ extra) = Ok true.
Proof.
  induction parts as [| v parts IH]; intros Hinit; [reflexivity |].
  cbn [app ValueKey_init_all] in Hinit. apply bind_unit_inv in Hinit.
  destruct Hinit as [Hv Hrest].
  cbn [app ValueKey_eq_all]. rewrite Hv. cbn [bind].
  rewrite (ValueKey_eq_values_refl v Hv). cbn [bind]. apply IH. exact Hrest.
Qed.

Lemma ValueKey_init_all_prefix (parts extra : list Value) :
  ValueKey_init_all (parts ++ extra) = Ok tt ->
  ValueKey_init_all parts = Ok tt.
Proof.
  induction parts as [| v parts IH]; intros Hinit; [reflexivity |].
  cbn [app ValueKey_init_all] in Hinit. apply bind_unit_inv in Hinit.
  destruct Hinit as [Hv Hrest].
  cbn [ValueKey_init_all]. rewrite Hv. cbn [bind]. apply IH. exact Hrest.
Qed.

(** C5, as the code has it.  The keys of two [Cat] nodes are compared over
    [zip] of their parts with no look at the number of parts, so a [Cat]
    compares equal to every [Cat] that extends it: [Cat(a)] and [Cat(a, b)]
    have equal keys, and so have [Cat()] and [Cat(a, b)].  Two [Cat] nodes
    over the same signals have equal keys, and two signals with distinct
    identifiers have unequal keys whatever their width and name. *)
Theorem ValueKey_eq_Cat_ignores_part_count :
  (forall parts extra,
     ValueKey_init (Cat (parts ++ extra)) = Ok tt ->
     ValueKey_eq (Cat parts) (Cat (parts ++ extra)) = Ok true) /\
  (let a := Signal 0 1 false "a" 0 false in
   let b := Signal 1 1 false "b" 0 false in
   ValueKey_eq (Cat [a]) (Cat [a; b]) = Ok true /\
   ValueKey_eq (Cat []) (Cat [a; b]) = Ok true /\
   ValueKey_eq (Cat [a; b]) (Cat [a; b]) = Ok true) /\
  (forall duid_a duid_b width signed name reset reset_less,
     duid_a <> duid_b ->
     ValueKey_eq (Signal duid_a width signed name reset reset_less)
                 (Signal duid_b width signed name reset reset_less)
     = Ok false) /\
  (forall next_uid shape name reset reset_less a b,
     let first := Signal_init next_uid shape name reset reset_less in
     let second := Signal_init (fst (fst first)) shape name reset reset_less in
     snd first = Ok a -> snd second = Ok b ->
     ValueKey_eq a b = Ok false).
Proof.
  split; [| split; [| split]].
  - intros parts extra Hinit. rewrite ValueKey_init_Cat in Hinit.
    unfold ValueKey_eq. rewrite !ValueKey_init_Cat.
    rewrite (ValueKey_init_all_prefix parts extra Hinit), Hinit. cbn [bind].
    rewrite ValueKey_eq_values_Cat. apply ValueKey_eq_all_prefix. exact Hinit.
  - repeat split.
  - intros duid_a duid_b width signed name reset reset_less Hne.
    unfold ValueKey_eq. simpl.
    destruct (Z.eqb_spec duid_a duid_b); [contradiction | reflexivity].
  - intros next_uid shape name reset reset_less a b first second.
    unfold second, first, Signal_init, DUID_init.
    destruct (Shape_cast _) as [sh | e]; cbn [fst snd]; [| discriminate].
    intros Ha Hb. inversion Ha. inversion Hb.
    unfold ValueKey_eq. simpl.
    destruct (Z.eqb_spec next_uid (next_uid + 1)); [lia | reflexivity].
Qed.

Lemma ValueKey_eq_Cat_ignores_part_count_witness :
  ValueKey_eq (Cat [Initial; ClockSignal "sync"])
              (Cat [Initial; ClockSignal "sync"; Const 1 1 false]) = Ok true /\
  ValueKey_eq (Signal 0 1 false "s" 0 false) (Signal 1 1 false "s" 0 false)
  = Ok false.
Proof.
  destruct ValueKey_eq_Cat_ignores_part_count as [Hprefix [_ [Hsignals _]]].
  split.
  - exact (Hprefix [Initial; ClockSignal "sync"] [Const 1 1 false] eq_refl).
  - apply Hsignals. discriminate.
Defined.

(** C6, as the code has it.  The keys of two [Sample] nodes are compared on
    the keyed base value and the clock count; the last test compares the
    domain of the left node with itself, so two samples of the same base
    and clock count have equal keys whatever their domains. *)
Theorem ValueKey_eq_Sample_ignores_domain :
  (forall base clocks domain_a domain_b,
     ValueKey_init base = Ok tt ->
     ValueKey_eq (Sample base clocks domain_a) (Sample base clocks domain_b)
     = Ok true) /\
  (let s := Signal 0 1 false "s" 0 false in
   Sample_init (AsValue s) 1 (Some "a"%string) = Ok (Sample s 1 (Some "a"%string)) /\
   Sample_init (AsValue s) 1 (Some "b"%string) = Ok (Sample s 1 (Some "b"%string)) /\
   ValueKey_eq (Sample s 1 (Some "a"%string)) (Sample s 1 (Some "b"%string))
   = Ok true /\
   ValueKey_eq (Sample s 1 (Some "a"%string)) (Sample s 2 (Some "a"%string))
   = Ok false).
Proof.
  split.
  - intros base clocks domain_a domain_b Hinit.
    unfold ValueKey_eq. cbn [ValueKey_init]. rewrite Hinit. cbn [bind].
    simpl. rewrite Hinit. cbn [bind].
    rewrite (ValueKey_eq_values_refl base Hinit). cbn [bind].
    rewrite Z.eqb_refl.
    destruct domain_a as [d |]; simpl; [rewrite String.eqb_refl |]; reflexivity.
  - repeat split.
Qed.

Lemma ValueKey_eq_Sample_ignores_domain_witness :
  ValueKey_eq (Sample (ClockSignal "sync") 1 None)
              (Sample (ClockSignal "sync") 1 (Some "pix"%string)) = Ok true.
Proof.
  destruct ValueKey_eq_Sample_ignores_domain as [H _].
  exact (H (ClockSignal "sync") 1 None (Some "pix"%string) eq_refl).
Defined.

(** ** Shapes cast from ranges *)

(** The integers a shape holds form an interval. *)
Lemma holds_between (sh : Shape) (lo hi x : Z) :
  holds sh lo -> holds sh hi -> lo <= x <= hi -> holds sh x.
Proof. unfold holds. destruct (is_signed sh); lia. Qed.

Lemma range_elems_unit_step (start stop x : Z) :
  In x (Py.range_elems (Py.Range start stop 1)) <-> start <= x < stop.
Proof.
  unfold Py.range_elems, Py.range_len. cbn [Py.start Py.stop Py.step].
  cbn [Z.ltb Z.compare]. rewrite in_map_iff. split.
  - intros [i [Hx Hi]]. apply in_seq in Hi.
    destruct (Z.ltb_spec start stop) as [Hlt | Hge].
    + rewrite Z.div_1_r in Hi. lia.
    + simpl in Hi. lia.
  - intros Hx. exists (Z.to_nat (x - start)). split; [lia |].
    apply in_seq. destruct (Z.ltb_spec start stop) as [Hlt | Hge]; [| lia].
    rewrite Z.div_1_r. lia.
Qed.

(** With step 1 the cast is as the documentation has it: the shape of a
    non-empty range holds every element, and it is signed exactly when some
    element is negative. *)
Lemma Shape_cast_range_unit_step (start stop : Z) :
  start < stop ->
  exists sh,
    Shape_cast (FromRange (Py.Range start stop 1)) = Ok sh /\
    (forall x, In x (Py.range_elems (Py.Range start stop 1)) -> holds sh x) /\
    (is_signed sh = true <->
     exists x, In x (Py.range_elems (Py.Range start stop 1)) /\ x < 0).
Proof.
  intros Hlt.
  set (sg := (start <? 0) || (stop - 1 <? 0)).
  set (w := Z.max (bits_for start sg) (bits_for (stop - 1) sg)).
  exists (MkShape w sg).
  assert (Hsg : sg = (start <? 0)).
  { unfold sg. destruct (Z.ltb_spec start 0); [reflexivity |].
    destruct (Z.ltb_spec (stop - 1) 0); [lia | reflexivity]. }
  split; [| split].
  - unfold Shape_cast, Shape_cast_range, Py.range_len.
    cbn [Py.start Py.stop Py.step]. cbn [Z.ltb Z.compare].
    destruct (Z.ltb_spec start stop); [| lia].
    rewrite Z.div_1_r.
    destruct (Z.eqb_spec (stop - start - 1 + 1) 0); [lia |].
    fold sg. fold w. apply Shape_init_ok.
    pose proof (bits_for_positive start sg). lia.
  - intros x Hx. apply range_elems_unit_step in Hx.
    apply (holds_between _ start (stop - 1)); [| | lia].
    + apply (holds_widen (MkShape (bits_for start sg) sg)).
      * left. cbn [width is_signed]. split; [reflexivity | lia].
      * apply bits_for_holds. rewrite Hsg. intros H.
        apply Z.ltb_lt. exact H.
    + apply (holds_widen (MkShape (bits_for (stop - 1) sg) sg)).
      * left. cbn [width is_signed]. split; [reflexivity | lia].
      * apply bits_for_holds. rewrite Hsg. intros H.
        apply Z.ltb_lt. lia.
  - cbn [is_signed]. rewrite Hsg, Z.ltb_lt. split.
    + intros Hneg. exists start. split; [| exact Hneg].
      apply range_elems_unit_step. lia.
    + intros [x [Hx Hneg]]. apply range_elems_unit_step in Hx. lia.
Qed.

(** C2, as the code has it.  The cast of a range looks at [start] and at
    [stop - step] only.  For [range(0, 10, 3)], whose elements are 0, 3, 6
    and 9, it gives unsigned(3), which does not hold 9; for [range(0, 1, 2)],
    whose one element is 0, it gives a signed shape; and for the empty
    [range(-1, -1)] it gives a signed shape too. *)
Theorem Shape_cast_range_misses_last_element :
  (Py.range_elems (Py.Range 0 10 3) = [0; 3; 6; 9] /\
   Shape_cast (FromRange (Py.Range 0 10 3)) = Ok (MkShape 3 false) /\
   ~ holds (MkShape 3 false) 9) /\
  (Py.range_elems (Py.Range 0 1 2) = [0] /\
   Shape_cast (FromRange (Py.Range 0 1 2)) = Ok (MkShape 1 true)) /\
  (Py.range_elems (Py.Range (-1) (-1) 1) = [] /\
   Shape_cast (FromRange (Py.Range (-1) (-1) 1)) = Ok (MkShape 0 true)).
Proof.
  repeat split. unfold holds. simpl. lia.
Qed.

(** ** Normalized constants lie in their shape *)

Lemma pow2_double (w : Z) : 1 <= w -> 2 ^ w = 2 * 2 ^ (w - 1).
Proof.
  intros Hw. replace w with (Z.succ (w - 1)) at 1 by lia.
  apply Z.pow_succ_r. lia.
Qed.

Lemma lor_lnot_ones (x w : Z) :
  0 <= w -> 0 <= x < 2 ^ w -> Z.lor x (Z.lnot (Z.ones w)) = x - 2 ^ w.
Proof.
  intros Hw Hx.
  rewrite <- (Z.lnot_involutive (Z.lor x (Z.lnot (Z.ones w)))).
  rewrite Z.lnot_lor, Z.lnot_involutive, Z.land_ones by exact Hw.
  unfold Z.lnot at 2.
  replace (Z.pred (- x)) with ((2 ^ w - 1 - x) + (-1) * 2 ^ w) by lia.
  rewrite Z.mod_add by lia. rewrite Z.mod_small by lia.
  unfold Z.lnot. lia.
Qed.

Lemma top_bit_test (x w : Z) :
  1 <= w -> 0 <= x < 2 ^ w ->
  Py.truthy (Z.shiftr x (w - 1)) = (2 ^ (w - 1) <=? x).
Proof.
  intros Hw Hx. unfold Py.truthy.
  rewrite Z.shiftr_div_pow2 by lia.
  assert (Hp : 0 < 2 ^ (w - 1)) by (apply Z.pow_pos_nonneg; lia).
  destruct (Z.leb_spec (2 ^ (w - 1)) x) as [Hge | Hlt].
  - destruct (Z.eqb_spec (x / 2 ^ (w - 1)) 0) as [H0 | H0]; [| reflexivity].
    apply Z.div_small_iff in H0; lia.
  - rewrite Z.div_small by lia. reflexivity.
Qed.

(** [Const.normalize] in arithmetic: the residue modulo [2 ^ width], moved
    down by [2 ^ width] when the shape is signed and the top bit is set. *)
Lemma normalized_arith (v w : Z) (s : bool) :
  0 <= w -> (s = true -> 1 <= w) ->
  normalized v w s =
  if s && (2 ^ (w - 1) <=? v mod 2 ^ w) then v mod 2 ^ w - 2 ^ w
  else v mod 2 ^ w.
Proof.
  intros Hw Hs. unfold normalized.
  rewrite mask_is_ones, Z.land_ones by exact Hw.
  assert (Hr : 0 <= v mod 2 ^ w < 2 ^ w)
    by (apply Z.mod_pos_bound, Z.pow_pos_nonneg; lia).
  destruct s; cbn [andb]; [| reflexivity].
  rewrite top_bit_test by (try apply Hs; auto).
  destruct (2 ^ (w - 1) <=? v mod 2 ^ w); [| reflexivity].
  apply lor_lnot_ones; assumption.
Qed.

Lemma Const_init_shape_ok (v : Z) (shape : const_shape) (value w : Z) (s : bool) :
  Const_init v shape = Ok (Const value w s) ->
  0 <= w /\ (s = true -> 1 <= w) /\ value = normalized v w s.
Proof.
  intros H. unfold Const_init in H.
  apply bind_ok_inv in H. destruct H as [sh [_ H]].
  apply bind_ok_inv in H. destruct H as [value' [Hn H]].
  inversion H. subst. clear H.
  rewrite Const_normalize_spec in Hn.
  destruct (Z.ltb_spec (width sh) 0) as [Hneg | Hnonneg]; [discriminate |].
  cbn [orb] in Hn.
  destruct (is_signed sh); cbn [andb] in Hn.
  - destruct (Z.ltb_spec (width sh - 1) 0); [discriminate |].
    inversion Hn. repeat split; lia.
  - inversion Hn. repeat split; [lia | discriminate].
Qed.

(** A constant that was built stores a value its shape holds, congruent
    modulo [2 ^ width] to the integer it was built from. *)
Theorem Const_value_within_shape
        (v : Z) (shape : const_shape) (value w : Z) (s : bool) :
  Const_init v shape = Ok (Const value w s) ->
  holds (MkShape w s) value /\ value mod 2 ^ w = v mod 2 ^ w.
Proof.
  intros H. apply Const_init_shape_ok in H.
  destruct H as [Hw [Hs ->]].
  rewrite normalized_arith by assumption.
  assert (Hp : 0 < 2 ^ w) by (apply Z.pow_pos_nonneg; lia).
  assert (Hr : 0 <= v mod 2 ^ w < 2 ^ w) by (apply Z.mod_pos_bound; exact Hp).
  unfold holds. cbn [width is_signed].
  destruct s; cbn [andb].
  - pose proof (pow2_double w (Hs eq_refl)) as Hd.
    destruct (Z.leb_spec (2 ^ (w - 1)) (v mod 2 ^ w)).
    + split; [lia |].
      replace (v mod 2 ^ w - 2 ^ w) with (v mod 2 ^ w + (-1) * 2 ^ w) by lia.
      rewrite Z.mod_add by lia. apply Z.mod_mod. lia.
    + split; [lia | apply Z.mod_mod; lia].
  - split; [lia | apply Z.mod_mod; lia].
Qed.

Lemma Const_value_within_shape_witness :
  holds (MkShape 3 true) (-3) /\ (-3) mod 2 ^ 3 = 13 mod 2 ^ 3.
Proof.
  apply (Const_value_within_shape 13 (ShapeOf (FromShape (MkShape 3 true)))).
  reflexivity.
Defined.

Lemma normalized_fixes_held (v w : Z) (s : bool) :
  0 <= w -> holds (MkShape w s) v -> normalized v w s = v.
Proof.
  intros Hw. unfold holds. cbn [width is_signed]. intros Hv.
  assert (Hs : s = true -> 1 <= w).
  { intros ->. destruct (Z.eq_dec w 0) as [-> | Hne]; [simpl in Hv; lia | lia]. }
  rewrite normalized_arith by assumption.
  destruct s; cbn [andb].
  - pose proof (pow2_double w (Hs eq_refl)) as Hd.
    assert (Hp : 0 < 2 ^ (w - 1)) by (apply Z.pow_pos_nonneg; lia).
    destruct (Z.lt_ge_cases v 0) as [Hneg | Hpos].
    + replace (v mod 2 ^ w) with (v + 2 ^ w).
      * destruct (Z.leb_spec (2 ^ (w - 1)) (v + 2 ^ w)); lia.
      * symmetry. replace v with ((v + 2 ^ w) + (-1) * 2 ^ w) at 1 by lia.
        rewrite Z.mod_add by lia. apply Z.mod_small. lia.
    + rewrite Z.mod_small by lia.
      destruct (Z.leb_spec (2 ^ (w - 1)) v); lia.
  - apply Z.mod_small. exact Hv.
Qed.

Lemma bits_for_negative_flag (v : Z) (s : bool) :
  v <= 0 -> bits_for v s = bits_for v true.
Proof.
  intros Hv. unfold bits_for. destruct (Z.ltb_spec 0 v); [lia | reflexivity].
Qed.

(** A constant keeps the integer it is given whenever its shape holds that
    integer; with no shape given, [Const(v)] -- and so the cast of a bare
    integer -- takes the width [bits_for(v)], signed for a negative [v], and
    keeps [v]. *)
Theorem Const_keeps_held_value (v : Z) :
  (forall sh, 0 <= width sh -> holds sh v ->
     Const_init v (ShapeOf (FromShape sh))
     = Ok (Const v (width sh) (is_signed sh))) /\
  Const_init v ShapeNone = Ok (Const v (bits_for v false) (v <? 0)) /\
  Value_cast (AsInt v) = Ok (Const v (bits_for v false) (v <? 0)).
Proof.
  assert (Hgen : forall w s, 0 <= w -> holds (MkShape w s) v ->
                   Const_normalize v (w, s) = Ok v).
  { intros w s Hw Hv. rewrite Const_normalize_spec.
    assert (Hs : s = true -> 1 <= w).
    { intros ->. unfold holds in Hv. cbn [width is_signed] in Hv.
      destruct (Z.eq_dec w 0) as [-> | Hne]; [simpl in Hv; lia | lia]. }
    destruct (Z.ltb_spec w 0); [lia |]. cbn [orb].
    rewrite normalized_fixes_held by assumption.
    destruct s; cbn [andb]; [| reflexivity].
    specialize (Hs eq_refl).
    destruct (Z.ltb_spec (w - 1) 0); [lia | reflexivity]. }
  assert (Hnone : Const_init v ShapeNone = Ok (Const v (bits_for v false) (v <? 0))).
  { unfold Const_init.
    pose proof (bits_for_positive v false) as Hpos.
    rewrite Shape_init_ok by lia. cbn [bind width is_signed].
    rewrite Hgen; [reflexivity | lia |].
    destruct (Z.ltb_spec v 0) as [Hneg | Hnonneg].
    - rewrite bits_for_negative_flag by lia. apply bits_for_holds. reflexivity.
    - apply bits_for_holds. lia. }
  split; [| split; [exact Hnone | exact Hnone]].
  intros [w s] Hw Hv. cbn [width is_signed] in *.
  unfold Const_init. cbn [Shape_cast bind width is_signed].
  rewrite (Hgen w s Hw Hv). reflexivity.
Qed.

Lemma Const_keeps_held_value_witness :
  Const_init (-3) (ShapeOf (FromShape (MkShape 8 true))) = Ok (Const (-3) 8 true).
Proof.
  destruct (Const_keeps_held_value (-3)) as [H _].
  apply (H (MkShape 8 true)).
  - simpl. lia.
  - unfold holds. simpl. lia.
Defined.

(** ** The shapes of operators hold the results *)

Lemma shape_unary (op : string) (a : Value) (sa : Shape) :
  shape a = Ok sa ->
  shape (Operator op [a]) = Operator_shape op [sa].
Proof. intros Ha. rewrite shape_Operator. cbn [shapes]. rewrite Ha. reflexivity. Qed.

Lemma shape_binary (op : string) (a b : Value) (sa sb : Shape) :
  shape a = Ok sa -> shape b = Ok sb ->
  shape (Operator op [a; b]) = Operator_shape op [sa; sb].
Proof.
  intros Ha Hb. rewrite shape_Operator, (shapes_pair a b sa sb Ha Hb).
  reflexivity.
Qed.

(** A signed shape that holds something is at least one bit wide. *)
Lemma holds_signed_width (sh : Shape) (x : Z) :
  0 <= width sh -> is_signed sh = true -> holds sh x -> 1 <= width sh.
Proof.
  unfold holds. intros Hw -> Hx.
  destruct (Z.eq_dec (width sh) 0) as [H0 | H0]; [| lia].
  rewrite H0 in Hx. simpl in Hx. lia.
Qed.

Lemma pow2_pos (w : Z) : 0 <= w -> 0 < 2 ^ w.
Proof. intros Hw. apply Z.pow_pos_nonneg; lia. Qed.

(** The sum of what the operands hold is held by the shape of [a + b]. *)
Theorem add_shape_holds_sum (a b : Value) (sa sb : Shape) (x y : Z) :
  shape a = Ok sa -> shape b = Ok sb ->
  holds sa x -> holds sb y ->
  exists sh, shape (Operator "+" [a; b]) = Ok sh /\ holds sh (x + y).
Proof.
  intros Ha Hb Hx Hy.
  pose proof (shape_width_nonneg a sa Ha) as Hwa.
  pose proof (shape_width_nonneg b sb Hb) as Hwb.
  eexists. split.
  - rewrite (shape_binary _ a b sa sb Ha Hb).
    apply add_sub_shape_of; [left; reflexivity | assumption | assumption].
  - pose proof (holds_signed_width sa x Hwa) as Hsa.
    pose proof (holds_signed_width sb y Hwb) as Hsb.
    unfold holds, promote in *. cbn [width is_signed].
    destruct (is_signed sa), (is_signed sb); cbn [width is_signed];
      try specialize (Hsa eq_refl Hx); try specialize (Hsb eq_refl Hy).
    + replace (Z.max (width sa) (width sb) + 1 - 1)
        with (Z.max (width sa) (width sb)) by lia.
      pose proof (pow2_double (Z.max (width sa) (width sb)) ltac:(lia)).
      pose proof (pow2_le (width sa - 1) (Z.max (width sa) (width sb) - 1) ltac:(lia)).
      pose proof (pow2_le (width sb - 1) (Z.max (width sa) (width sb) - 1) ltac:(lia)).
      lia.
    + replace (Z.max (width sa) (width sb + 1) + 1 - 1)
        with (Z.max (width sa) (width sb + 1)) by lia.
      pose proof (pow2_double (Z.max (width sa) (width sb + 1)) ltac:(lia)).
      pose proof (pow2_le (width sa - 1) (Z.max (width sa) (width sb + 1) - 1) ltac:(lia)).
      pose proof (pow2_le (width sb) (Z.max (width sa) (width sb + 1) - 1) ltac:(lia)).
      lia.
    + replace (Z.max (width sa + 1) (width sb) + 1 - 1)
        with (Z.max (width sa + 1) (width sb)) by lia.
      pose proof (pow2_double (Z.max (width sa + 1) (width sb)) ltac:(lia)).
      pose proof (pow2_le (width sa) (Z.max (width sa + 1) (width sb) - 1) ltac:(lia)).
      pose proof (pow2_le (width sb - 1) (Z.max (width sa + 1) (width sb) - 1) ltac:(lia)).
      lia.
    + pose proof (pow2_double (Z.max (width sa) (width sb) + 1) ltac:(lia)).
      replace (Z.max (width sa) (width sb) + 1 - 1)
        with (Z.max (width sa) (width sb)) in * by lia.
      pose proof (pow2_le (width sa) (Z.max (width sa) (width sb)) ltac:(lia)).
      pose proof (pow2_le (width sb) (Z.max (width sa) (width sb)) ltac:(lia)).
      lia.
Qed.

Lemma add_shape_holds_sum_witness :
  exists sh,
    shape (Operator "+" [Signal 0 3 false "a" 0 false; Signal 1 4 true "b" 0 false])
    = Ok sh /\ holds sh (7 + -8).
Proof.
  apply (add_shape_holds_sum _ _ (MkShape 3 false) (MkShape 4 true) 7 (-8));
    try reflexivity; unfold holds; simpl; lia.
Defined.

(** The difference is held by the shape of [a - b] when an operand is signed;
    two unsigned operands give an unsigned shape, which holds the difference
    only when it is not negative. *)
Theorem sub_shape_holds_difference (a b : Value) (sa sb : Shape) (x y : Z) :
  shape a = Ok sa -> shape b = Ok sb ->
  holds sa x -> holds sb y ->
  exists sh,
    shape (Operator "-" [a; b]) = Ok sh /\
    (is_signed sh = is_signed sa || is_signed sb) /\
    (holds sh (x - y) <-> (is_signed sh = true \/ y <= x)).
Proof.
  intros Ha Hb Hx Hy.
  pose proof (shape_width_nonneg a sa Ha) as Hwa.
  pose proof (shape_width_nonneg b sb Hb) as Hwb.
  eexists. split; [| split].
  - rewrite (shape_binary _ a b sa sb Ha Hb).
    apply add_sub_shape_of; [right; reflexivity | assumption | assumption].
  - unfold promote. destruct (is_signed sa), (is_signed sb); reflexivity.
  - pose proof (holds_signed_width sa x Hwa) as Hsa.
    pose proof (holds_signed_width sb y Hwb) as Hsb.
    unfold holds, promote in *. cbn [width is_signed].
    destruct (is_signed sa), (is_signed sb); cbn [width is_signed];
      try specialize (Hsa eq_refl Hx); try specialize (Hsb eq_refl Hy).
    + replace (Z.max (width sa) (width sb) + 1 - 1)
        with (Z.max (width sa) (width sb)) by lia.
      pose proof (pow2_double (Z.max (width sa) (width sb)) ltac:(lia)).
      pose proof (pow2_le (width sa - 1) (Z.max (width sa) (width sb) - 1) ltac:(lia)).
      pose proof (pow2_le (width sb - 1) (Z.max (width sa) (width sb) - 1) ltac:(lia)).
      split; [intros _; left; reflexivity | intros _; lia].
    + replace (Z.max (width sa) (width sb + 1) + 1 - 1)
        with (Z.max (width sa) (width sb + 1)) by lia.
      pose proof (pow2_double (Z.max (width sa) (width sb + 1)) ltac:(lia)).
      pose proof (pow2_le (width sa - 1) (Z.max (width sa) (width sb + 1) - 1) ltac:(lia)).
      pose proof (pow2_le (width sb) (Z.max (width sa) (width sb + 1) - 1) ltac:(lia)).
      split; [intros _; left; reflexivity | intros _; lia].
    + replace (Z.max (width sa + 1) (width sb) + 1 - 1)
        with (Z.max (width sa + 1) (width sb)) by lia.
      pose proof (pow2_double (Z.max (width sa + 1) (width sb)) ltac:(lia)).
      pose proof (pow2_le (width sa) (Z.max (width sa + 1) (width sb) - 1) ltac:(lia)).
      pose proof (pow2_le (width sb - 1) (Z.max (width sa + 1) (width sb) - 1) ltac:(lia)).
      split; [intros _; left; reflexivity | intros _; lia].
    + pose proof (pow2_pos (Z.max (width sa) (width sb) + 1) ltac:(lia)).
      pose proof (pow2_le (width sa) (Z.max (width sa) (width sb) + 1) ltac:(lia)).
      split; [intros H'; right; lia | intros [H' | H']; [discriminate | lia]].
Qed.

Lemma sub_shape_holds_difference_witness :
  exists sh,
    shape (Operator "-" [Signal 0 3 false "a" 0 false; Signal 1 3 false "b" 0 false])
    = Ok sh /\
    is_signed sh = false /\
    (holds sh (2 - 5) <-> (is_signed sh = true \/ 5 <= 2)).
Proof.
  apply (sub_shape_holds_difference _ _ (MkShape 3 false) (MkShape 3 false) 2 5);
    try reflexivity; unfold holds; simpl; lia.
Defined.

(** The product of what the operands hold is held by the shape of [a * b]. *)
Theorem mul_shape_holds_product (a b : Value) (sa sb : Shape) (x y : Z) :
  shape a = Ok sa -> shape b = Ok sb ->
  holds sa x -> holds sb y ->
  exists sh, shape (Operator "*" [a; b]) = Ok sh /\ holds sh (x * y).
Proof.
  intros Ha Hb Hx Hy.
  pose proof (shape_width_nonneg a sa Ha) as Hwa.
  pose proof (shape_width_nonneg b sb Hb) as Hwb.
  exists (MkShape (width sa + width sb) (is_signed sa || is_signed sb)). split.
  - rewrite (shape_binary _ a b sa sb Ha Hb). unfold Operator_shape. simpl.
    apply Shape_init_ok. lia.
  - pose proof (holds_signed_width sa x Hwa) as Hsa.
    pose proof (holds_signed_width sb y Hwb) as Hsb.
    unfold holds in *. cbn [width is_signed].
    destruct (is_signed sa), (is_signed sb); cbn [orb];
      try specialize (Hsa eq_refl Hx); try specialize (Hsb eq_refl Hy).
    + replace (width sa + width sb - 1)
        with ((width sa - 1) + (width sb - 1) + 1) by lia.
      rewrite Z.pow_add_r, Z.pow_add_r by lia.
      pose proof (pow2_pos (width sa - 1) ltac:(lia)).
      pose proof (pow2_pos (width sb - 1) ltac:(lia)).
      change (2 ^ 1) with 2. nia.
    + replace (width sa + width sb - 1)
        with ((width sa - 1) + width sb) by lia.
      rewrite Z.pow_add_r by lia.
      pose proof (pow2_pos (width sa - 1) ltac:(lia)).
      pose proof (pow2_pos (width sb) ltac:(lia)).
      nia.
    + replace (width sa + width sb - 1)
        with (width sa + (width sb - 1)) by lia.
      rewrite Z.pow_add_r by lia.
      pose proof (pow2_pos (width sa) ltac:(lia)).
      pose proof (pow2_pos (width sb - 1) ltac:(lia)).
      nia.
    + rewrite Z.pow_add_r by lia.
      pose proof (pow2_pos (width sa) ltac:(lia)).
      pose proof (pow2_pos (width sb) ltac:(lia)).
      nia.
Qed.

Lemma mul_shape_holds_product_witness :
  exists sh,
    shape (Operator "*" [Signal 0 3 false "a" 0 false; Signal 1 4 true "b" 0 false])
    = Ok sh /\ holds sh (7 * -8).
Proof.
  apply (mul_shape_holds_product _ _ (MkShape 3 false) (MkShape 4 true) 7 (-8));
    try reflexivity; unfold holds; simpl; lia.
Defined.

(** Floor division by a positive number moves towards zero or stays. *)
Lemma div_by_positive_between (x y : Z) :
  0 < y -> Z.min x 0 <= x / y <= Z.max x 0.
Proof.
  intros Hy. destruct (Z.lt_ge_cases x 0) as [Hneg | Hpos].
  - assert (x <= x / y) by (apply Z.div_le_lower_bound; nia).
    assert (x / y < 0) by (apply Z.div_lt_upper_bound; lia).
    lia.
  - assert (0 <= x / y) by (apply Z.div_pos; lia).
    assert (x / y <= x) by (apply Z.div_le_upper_bound; nia).
    lia.
Qed.

Lemma div_abs_bound (x y : Z) : - Z.abs x <= x / y <= Z.abs x.
Proof.
  destruct (Z.lt_trichotomy y 0) as [Hneg | [-> | Hpos]].
  - rewrite <- (Z.div_opp_opp x y) by lia.
    pose proof (div_by_positive_between (- x) (- y) ltac:(lia)). lia.
  - rewrite Z.div_0_r. lia.
  - pose proof (div_by_positive_between x y Hpos). lia.
Qed.

(** The floor quotient of what the operands hold is held by the shape of
    [a // b]. *)
Theorem floordiv_shape_holds_quotient
        (a b : Value) (sa sb : Shape) (x y : Z) :
  shape a = Ok sa -> shape b = Ok sb ->
  holds sa x -> holds sb y -> y <> 0 ->
  exists sh, shape (Operator "//" [a; b]) = Ok sh /\ holds sh (x / y).
Proof.
  intros Ha Hb Hx Hy Hy0.
  pose proof (shape_width_nonneg a sa Ha) as Hwa.
  pose proof (shape_width_nonneg b sb Hb) as Hwb.
  exists (MkShape (width sa + Z.b2z (is_signed sb)) (is_signed sa || is_signed sb)).
  split.
  - rewrite (shape_binary _ a b sa sb Ha Hb). unfold Operator_shape. simpl.
    apply Shape_init_ok. destruct (is_signed sb); simpl; lia.
  - pose proof (holds_signed_width sa x Hwa) as Hsa.
    pose proof (div_abs_bound x y) as Habs.
    unfold holds in *. cbn [width is_signed].
    destruct (is_signed sa), (is_signed sb); cbn [orb Z.b2z];
      try specialize (Hsa eq_refl Hx).
    + replace (width sa + 1 - 1) with (width sa) by lia.
      pose proof (pow2_double (width sa) Hsa). lia.
    + replace (width sa + 0 - 1) with (width sa - 1) by lia.
      pose proof (div_by_positive_between x y ltac:(lia)). lia.
    + replace (width sa + 1 - 1) with (width sa) by lia. lia.
    + replace (width sa + 0) with (width sa) by lia.
      pose proof (div_by_positive_between x y ltac:(lia)). lia.
Qed.

Lemma floordiv_shape_holds_quotient_witness :
  exists sh,
    shape (Operator "//" [Signal 0 4 true "a" 0 false; Signal 1 4 true "b" 0 false])
    = Ok sh /\ holds sh (-8 / -1).
Proof.
  apply (floordiv_shape_holds_quotient _ _ (MkShape 4 true) (MkShape 4 true));
    try reflexivity; unfold holds; simpl; lia.
Defined.

(** The remainder, which takes the sign of the divisor, is held by the
    shape of [a % b], the divisor's own shape. *)
Theorem mod_shape_holds_remainder
        (a b : Value) (sa sb : Shape) (x y : Z) :
  shape a = Ok sa -> shape b = Ok sb ->
  holds sb y -> y <> 0 ->
  shape (Operator "%" [a; b]) = Ok sb /\ holds sb (x mod y).
Proof.
  intros Ha Hb Hy Hy0.
  pose proof (shape_width_nonneg b sb Hb) as Hwb.
  split.
  - rewrite (shape_binary _ a b sa sb Ha Hb). unfold Operator_shape. simpl.
    rewrite Shape_init_ok by exact Hwb. destruct sb; reflexivity.
  - unfold holds in *. destruct (is_signed sb).
    + destruct (Z.lt_ge_cases y 0) as [Hneg | Hpos].
      * pose proof (Z.mod_neg_bound x y Hneg). lia.
      * pose proof (Z.mod_pos_bound x y ltac:(lia)). lia.
    + pose proof (Z.mod_pos_bound x y ltac:(lia)). lia.
Qed.

Lemma mod_shape_holds_remainder_witness :
  shape (Operator "%" [Signal 0 8 false "a" 0 false; Signal 1 3 true "b" 0 false])
  = Ok (MkShape 3 true) /\ holds (MkShape 3 true) (200 mod -4).
Proof.
  apply (mod_shape_holds_remainder _ _ (MkShape 8 false) (MkShape 3 true));
    try reflexivity; unfold holds; simpl; lia.
Defined.

(** The negation of what the operand holds is held by the shape of [-a]. *)
Theorem neg_shape_holds_negation (a : Value) (sa : Shape) (x : Z) :
  shape a = Ok sa -> holds sa x ->
  shape (Operator "-" [a]) = Ok (MkShape (width sa + 1) true) /\
  holds (MkShape (width sa + 1) true) (- x).
Proof.
  intros Ha Hx.
  pose proof (shape_width_nonneg a sa Ha) as Hwa.
  split.
  - rewrite (shape_unary _ a sa Ha). unfold Operator_shape. simpl.
    apply Shape_init_ok. lia.
  - pose proof (holds_signed_width sa x Hwa) as Hsa.
    unfold holds in *. cbn [width is_signed].
    replace (width sa + 1 - 1) with (width sa) by lia.
    destruct (is_signed sa).
    + pose proof (pow2_double (width sa) (Hsa eq_refl Hx)). lia.
    + lia.
Qed.

Lemma neg_shape_holds_negation_witness :
  shape (Operator "-" [Signal 0 4 true "a" 0 false]) = Ok (MkShape 5 true) /\
  holds (MkShape 5 true) (- -8).
Proof.
  apply (neg_shape_holds_negation _ (MkShape 4 true)); [reflexivity |].
  unfold holds. simpl. lia.
Defined.

(** What the left operand holds, shifted left by what the unsigned amount
    holds, is held by the shape of [a << b]; shifted right, by the shape of
    [a >> b], which is the left operand's. *)
Theorem shift_shapes_hold_results
        (a b : Value) (sa sb : Shape) (x y : Z) :
  shape a = Ok sa -> shape b = Ok sb ->
  is_signed sb = false ->
  holds sa x -> holds sb y ->
  (exists sh, shape (Operator "<<" [a; b]) = Ok sh /\ holds sh (Z.shiftl x y)) /\
  shape (Operator ">>" [a; b]) = Ok sa /\
  holds sa (Z.shiftr x y).
Proof.
  intros Ha Hb Hsb Hx Hy.
  pose proof (shape_width_nonneg a sa Ha) as Hwa.
  pose proof (shape_width_nonneg b sb Hb) as Hwb.
  pose proof (holds_signed_width sa x Hwa) as Hsa.
  unfold holds in Hy. rewrite Hsb in Hy.
  pose proof (pow2_pos y ltac:(lia)) as Hpy.
  split; [| split].
  - exists (MkShape (width sa + 2 ^ width sb - 1) (is_signed sa)). split.
    + rewrite (shape_binary _ a b sa sb Ha Hb). unfold Operator_shape. simpl.
      rewrite Hsb. apply Shape_init_ok. lia.
    + rewrite Z.shiftl_mul_pow2 by lia.
      pose proof (pow2_le y (2 ^ width sb - 1) ltac:(lia)) as Hle.
      unfold holds in *. cbn [width is_signed].
      destruct (is_signed sa).
      * specialize (Hsa eq_refl Hx).
        replace (width sa + 2 ^ width sb - 1 - 1)
          with ((width sa - 1) + (2 ^ width sb - 1)) by lia.
        rewrite Z.pow_add_r by lia.
        pose proof (pow2_pos (width sa - 1) ltac:(lia)). nia.
      * replace (width sa + 2 ^ width sb - 1)
          with (width sa + (2 ^ width sb - 1)) by lia.
        rewrite Z.pow_add_r by lia.
        pose proof (pow2_pos (width sa) ltac:(lia)). nia.
  - rewrite (shape_binary _ a b sa sb Ha Hb). unfold Operator_shape. simpl.
    rewrite Hsb, Shape_init_ok by exact Hwa. destruct sa; reflexivity.
  - rewrite Z.shiftr_div_pow2 by lia.
    pose proof (div_by_positive_between x (2 ^ y) Hpy).
    unfold holds in *. destruct (is_signed sa); lia.
Qed.

Lemma shift_shapes_hold_results_witness :
  (exists sh,
     shape (Operator "<<" [Signal 0 4 true "a" 0 false; Signal 1 2 false "n" 0 false])
     = Ok sh /\ holds sh (Z.shiftl (-8) 3)) /\
  shape (Operator ">>" [Signal 0 4 true "a" 0 false; Signal 1 2 false "n" 0 false])
  = Ok (MkShape 4 true) /\
  holds (MkShape 4 true) (Z.shiftr (-8) 3).
Proof.
  apply (shift_shapes_hold_results _ _ (MkShape 4 true) (MkShape 2 false));
    try reflexivity; unfold holds; simpl; lia.
Defined.

Lemma promote_holds_left (sa sb : Shape) (x : Z) :
  holds sa x -> holds (promote sa sb) x.
Proof.
  apply holds_widen. unfold promote.
  destruct (is_signed sa), (is_signed sb); cbn [width is_signed];
    try (left; split; [reflexivity | lia]).
  right. repeat split; lia.
Qed.

Lemma promote_holds_right (sa sb : Shape) (y : Z) :
  holds sb y -> holds (promote sa sb) y.
Proof.
  apply holds_widen. unfold promote.
  destruct (is_signed sa), (is_signed sb); cbn [width is_signed];
    try (left; split; [reflexivity | lia]).
  right. repeat split; lia.
Qed.

(** The shape of [Mux(sel, val1, val0)] does not depend on the selector and
    holds whatever either input holds. *)
Theorem Mux_shape_holds_both (sel val1 val0 : Value) (ss s1 s0 : Shape) :
  shape sel = Ok ss -> shape val1 = Ok s1 -> shape val0 = Ok s0 ->
  exists m,
    Mux (AsValue sel) (AsValue val1) (AsValue val0) = Ok m /\
    shape m = Ok (promote s1 s0) /\
    forall x, holds s1 x \/ holds s0 x -> holds (promote s1 s0) x.
Proof.
  intros Hsel H1 H0. exists (Operator "m" [sel; val1; val0]).
  split; [reflexivity |]. split.
  - rewrite shape_Operator. cbn [shapes]. rewrite Hsel, H1, H0. cbn [bind].
    unfold Operator_shape. simpl.
    apply _bitwise_binary_shape_promote; eapply shape_width_nonneg; eassumption.
  - intros x [Hx | Hx]; [apply promote_holds_left | apply promote_holds_right];
      exact Hx.
Qed.

Lemma Mux_shape_holds_both_witness :
  exists m,
    Mux (AsValue (Signal 0 1 false "s" 0 false))
        (AsValue (Const 3 2 false)) (AsValue (Const (-1) 2 true)) = Ok m /\
    shape m = Ok (MkShape 3 true) /\
    forall x, holds (MkShape 2 false) x \/ holds (MkShape 2 true) x ->
              holds (MkShape 3 true) x.
Proof.
  exact (Mux_shape_holds_both (Signal 0 1 false "s" 0 false)
           (Const 3 2 false) (Const (-1) 2 true)
           (MkShape 1 false) (MkShape 2 false) (MkShape 2 true)
           eq_refl eq_refl eq_refl).
Defined.

(** [abs(self)] is [self] itself when [self] is unsigned; when it is signed
    it is the multiplexer that selects [self] where [self >= 0] and [-self]
    elsewhere, one bit wider than [self] and signed.  Either way its shape
    holds the magnitude of whatever [self] holds. *)
Theorem abs_shape_holds_magnitude (self : Value) (sa : Shape) (x : Z) :
  shape self = Ok sa -> holds sa x ->
  exists v sh,
    Value_abs self = Ok v /\
    shape v = Ok sh /\
    holds sh (Z.abs x) /\
    (is_signed sa = false -> v = self /\ sh = sa) /\
    (is_signed sa = true ->
     v = Operator "m" [Operator ">=" [self; Const 0 1 false];
                       self;
                       Operator "-" [self]] /\
     sh = MkShape (width sa + 1) true).
Proof.
  intros Ha Hx.
  pose proof (shape_width_nonneg self sa Ha) as Hwa.
  unfold Value_abs. rewrite Ha. cbn [bind].
  destruct (is_signed sa) eqn:Hs.
  - assert (Hzero : Value_cast (AsInt 0) = Ok (Const 0 1 false))
      by (vm_compute; reflexivity).
    unfold Operator_init. cbn [cast_all bind]. rewrite Hzero. cbn [bind Value_cast].
    unfold Mux, Operator_init. cbn [cast_all bind Value_cast].
    eexists. exists (MkShape (width sa + 1) true).
    split; [reflexivity |].
    split; [| split; [| split; [discriminate | split; reflexivity]]].
    + rewrite shape_Operator. cbn [shapes].
      rewrite (shape_binary ">=" self (Const 0 1 false) sa (MkShape 1 false)
                 Ha eq_refl).
      rewrite (shape_unary "-" self sa Ha), Ha.
      unfold Operator_shape at 1 2. simpl.
      rewrite (Shape_init_ok (width sa + 1)) by lia. cbn [bind].
      unfold Operator_shape. simpl.
      rewrite _bitwise_binary_shape_promote by (cbn [width]; lia).
      unfold promote. rewrite Hs. cbn [is_signed width].
      f_equal. f_equal. lia.
    + pose proof (holds_signed_width sa x Hwa Hs Hx) as Hw1.
      unfold holds in *. rewrite Hs in Hx. cbn [width is_signed].
      replace (width sa + 1 - 1) with (width sa) by lia.
      pose proof (pow2_double (width sa) Hw1). lia.
  - exists self, sa. split; [reflexivity |]. split; [exact Ha |].
    split; [| split; [split; reflexivity | discriminate]].
    unfold holds in *. rewrite Hs in *. lia.
Qed.

Lemma abs_shape_holds_magnitude_witness :
  let a := Signal 0 4 true "a" 0 false in
  Value_abs a
  = Ok (Operator "m" [Operator ">=" [a; Const 0 1 false]; a; Operator "-" [a]]) /\
  holds (MkShape 5 true) (Z.abs (-8)).
Proof.
  intros a.
  assert (Hx : holds (MkShape 4 true) (-8)) by (unfold holds; simpl; lia).
  destruct (abs_shape_holds_magnitude a (MkShape 4 true) (-8) eq_refl Hx)
    as [v [sh [Habs [_ [Hheld [_ Hsigned]]]]]].
  destruct (Hsigned eq_refl) as [Hv Hsh]. subst v sh.
  split; [exact Habs | exact Hheld].
Defined.

(** ** Slices and indexing *)

Lemma Cat_parts_values (values : list Value) (index : Z) :
  Cat_parts index (map AsValue values) = ([], Ok values).
Proof.
  revert index. induction values as [| v values IH]; intros index; [reflexivity |].
  cbn [map Cat_parts Value_cast]. rewrite IH. reflexivity.
Qed.

(** Concatenating values warns about nothing and always succeeds. *)
Lemma Cat_init_values (values : list Value) :
  Cat_init (map AsValue values) = ([], Ok (Cat values)).
Proof. unfold Cat_init. rewrite Cat_parts_values. reflexivity. Qed.

Lemma Cat_values_ok (values : list Value) :
  Cat_values values = Ok (Cat values).
Proof. unfold Cat_values. rewrite Cat_init_values. reflexivity. Qed.

(** [Slice.__init__] either raises [IndexError] or stores bounds with
    [-1 <= start <= stop <= len(value)], so that the shape of the slice is
    always defined; the stored start is negative only when the start given
    is [-(len(value) + 1)], which the range test lets through. *)
Theorem Slice_init_bounds (value : Value) (n start stop : Z) :
  Value_len value = Ok n ->
  (Slice_init value start stop = raise IndexError \/
   exists s e,
     Slice_init value start stop = Ok (Slice value s e) /\
     -1 <= s <= e /\ e <= n /\
     (start <> - (n + 1) -> 0 <= s) /\
     shape (Slice value s e) = Ok (MkShape (e - s) false)) /\
  Slice_init value (- (n + 1)) 0 = Ok (Slice value (-1) 0).
Proof.
  intros Hlen.
  assert (Hn : 0 <= n).
  { unfold Value_len in Hlen. apply bind_ok_inv in Hlen.
    destruct Hlen as [sh [Hsh Heq]]. inversion Heq. subst.
    eapply shape_width_nonneg; exact Hsh. }
  split.
  - unfold Slice_init. rewrite Hlen. cbn [bind].
    destruct (Z.leb_spec (- (n + 1)) start); cbn [andb negb];
      [| left; reflexivity].
    destruct (Z.ltb_spec start (n + 1)); cbn [negb]; [| left; reflexivity].
    destruct (Z.leb_spec (- (n + 1)) stop); cbn [andb negb];
      [| left; reflexivity].
    destruct (Z.ltb_spec stop (n + 1)); cbn [negb]; [| left; reflexivity].
    match goal with
    | |- context [if ?a <? ?b then raise IndexError else _] =>
        destruct (Z.ltb_spec a b); [left; reflexivity |]
    end.
    right. eexists. eexists. split; [reflexivity |].
    destruct (Z.ltb_spec start 0), (Z.ltb_spec stop 0);
      (repeat split; try lia; cbn [shape]; apply Shape_init_ok; lia).
  - unfold Slice_init. rewrite Hlen. cbn [bind].
    destruct (Z.leb_spec (- (n + 1)) (- (n + 1))); [| lia].
    destruct (Z.ltb_spec (- (n + 1)) (n + 1)); [| lia].
    destruct (Z.leb_spec (- (n + 1)) 0); [| lia].
    destruct (Z.ltb_spec 0 (n + 1)); [| lia].
    cbn [andb negb].
    destruct (Z.ltb_spec (- (n + 1)) 0); [| lia].
    cbn [Z.ltb Z.compare].
    replace (- (n + 1) + n) with (-1) by lia. reflexivity.
Qed.

Lemma Slice_init_bounds_witness :
  Slice_init (Signal 0 4 false "v" 0 false) (-5) 0
  = Ok (Slice (Signal 0 4 false "v" 0 false) (-1) 0).
Proof.
  exact (proj2 (Slice_init_bounds (Signal 0 4 false "v" 0 false) 4 1 3 eq_refl)).
Defined.

Lemma Value_len_nonneg (v : Value) (n : Z) : Value_len v = Ok n -> 0 <= n.
Proof.
  unfold Value_len. intros H. apply bind_ok_inv in H.
  destruct H as [sh [Hsh Heq]]. inversion Heq. subst.
  eapply shape_width_nonneg; exact Hsh.
Qed.

Lemma Slice_init_ok (value : Value) (n s e : Z) :
  Value_len value = Ok n -> 0 <= s <= e -> e <= n ->
  Slice_init value s e = Ok (Slice value s e).
Proof.
  intros Hlen Hs He. unfold Slice_init. rewrite Hlen. cbn [bind].
  destruct (Z.leb_spec (- (n + 1)) s); [| lia].
  destruct (Z.ltb_spec s (n + 1)); [| lia].
  destruct (Z.leb_spec (- (n + 1)) e); [| lia].
  destruct (Z.ltb_spec e (n + 1)); [| lia].
  cbn [andb negb].
  destruct (Z.ltb_spec s 0); [lia |].
  destruct (Z.ltb_spec e 0); [lia |].
  destruct (Z.ltb_spec e s); [lia | reflexivity].
Qed.

Lemma Value_getitem_int_ok (self : Value) (n i : Z) :
  Value_len self = Ok n -> 0 <= i < n ->
  Value_getitem_int self i = Ok (Slice self i (i + 1)).
Proof.
  intros Hlen Hi. unfold Value_getitem_int. rewrite Hlen. cbn [bind].
  destruct (Z.leb_spec (- n) i); [| lia].
  destruct (Z.ltb_spec i n); [| lia]. cbn [andb negb].
  destruct (Z.ltb_spec i 0); [lia |].
  apply (Slice_init_ok self n); [exact Hlen | lia | lia].
Qed.

Lemma getitem_not_proxy (self : Value) (key : index_key) :
  is_ArrayProxy self = false -> getitem self key = Value_getitem self key.
Proof. destruct self; intros H; try reflexivity; discriminate H. Qed.



(** [Value.__getitem__] with an integer: one bit, counted from the end for
    a negative index. *)
Lemma Value_getitem_int_one_bit (self : Value) (n i : Z) :
  Value_len self = Ok n ->
  (- n <= i < n ->
   Value_getitem self (IdxInt i) = Ok (Slice self (i mod n) (i mod n + 1)) /\
   shape (Slice self (i mod n) (i mod n + 1)) = Ok (MkShape 1 false) /\
   Value_getitem self (IdxInt (i mod n)) = Value_getitem self (IdxInt i)) /\
  (~ - n <= i < n -> Value_getitem self (IdxInt i) = raise IndexError).
Proof.
  intros Hlen. split.
  - intros Hi.
    assert (Hmod : 0 <= i mod n < n) by (apply Z.mod_pos_bound; lia).
    assert (Hget : Value_getitem self (IdxInt i)
                   = Ok (Slice self (i mod n) (i mod n + 1))).
    { unfold Value_getitem. rewrite Hlen. cbn [bind].
      unfold Value_getitem_int. rewrite Hlen. cbn [bind].
      destruct (Z.leb_spec (- n) i); [| lia].
      destruct (Z.ltb_spec i n); [| lia]. cbn [andb negb].
      destruct (Z.ltb_spec i 0) as [Hneg | Hpos].
      - replace (i mod n) with (i + n).
        + apply (Slice_init_ok self n); [exact Hlen | lia | lia].
        + symmetry. replace i with ((i + n) + (-1) * n) at 1 by lia.
          rewrite Z.mod_add by lia. apply Z.mod_small. lia.
      - rewrite Z.mod_small by lia.
        apply (Slice_init_ok self n); [exact Hlen | lia | lia]. }
    split; [exact Hget |]. split.
    + cbn [shape]. replace (i mod n + 1 - i mod n) with 1 by lia. reflexivity.
    + rewrite Hget. unfold Value_getitem. rewrite Hlen. cbn [bind].
      apply (Value_getitem_int_ok self n); assumption.
  - intros Hi. unfold Value_getitem. rewrite Hlen. cbn [bind].
    unfold Value_getitem_int. rewrite Hlen. cbn [bind].
    destruct (Z.leb_spec (- n) i); cbn [andb negb]; [| reflexivity].
    destruct (Z.ltb_spec i n); [lia | reflexivity].
Qed.


Lemma slice_indices_unit_step (start stop : option Z) (n : Z) :
  0 <= n ->
  slice_indices start stop None n =
  Ok (match start with None => 0 | Some x => clamp_bound n x end,
      match stop with None => n | Some x => clamp_bound n x end,
      1).
Proof.
  intros Hn. unfold slice_indices. cbn [Z.eqb Z.ltb Z.compare].
  assert (Hadj : forall x,
            (if x <? 0 then Z.max (x + n) 0 else Z.min x n) = clamp_bound n x).
  { intros x. unfold clamp_bound. destruct (Z.ltb_spec x 0); lia. }
  destruct start as [x |], stop as [y |]; rewrite ?Hadj; reflexivity.
Qed.
(** Indexing a value that is not an [ArrayProxy] with an integer takes one
    bit: an index in [[-n, n)] counts from the end when it is negative and
    gives a one-bit unsigned slice; any other index raises [IndexError]. *)
Theorem getitem_int_one_bit (self : Value) (n i : Z) :
  is_ArrayProxy self = false ->
  Value_len self = Ok n ->
  (- n <= i < n ->
   getitem self (IdxInt i) = Ok (Slice self (i mod n) (i mod n + 1)) /\
   shape (Slice self (i mod n) (i mod n + 1)) = Ok (MkShape 1 false) /\
   getitem self (IdxInt (i mod n)) = getitem self (IdxInt i)) /\
  (~ - n <= i < n -> getitem self (IdxInt i) = raise IndexError).
Proof.
  intros Hproxy Hlen. rewrite !(getitem_not_proxy self _ Hproxy).
  exact (Value_getitem_int_one_bit self n i Hlen).
Qed.

Lemma getitem_int_one_bit_witness :
  getitem (Signal 0 4 false "v" 0 false) (IdxInt (-1))
  = Ok (Slice (Signal 0 4 false "v" 0 false) 3 4) /\
  getitem (Signal 0 4 false "v" 0 false) (IdxInt 4) = raise IndexError.
Proof.
  destruct (getitem_int_one_bit (Signal 0 4 false "v" 0 false) 4 (-1)
              eq_refl eq_refl) as [Hin _].
  destruct (getitem_int_one_bit (Signal 0 4 false "v" 0 false) 4 4
              eq_refl eq_refl) as [_ Hout].
  split.
  - apply Hin. lia.
  - apply Hout. lia.
Defined.

Lemma clamp_bound_range (n x : Z) : 0 <= n -> 0 <= clamp_bound n x <= n.
Proof. intros Hn. unfold clamp_bound. destruct (x <? 0); lia. Qed.

(** [Value.__getitem__] with a slice of step 1: the bounds are brought into
    [[0, n]] first. *)
Lemma Value_getitem_slice_clamps (self : Value) (n : Z) (start stop : option Z) :
  Value_len self = Ok n ->
  let s := match start with None => 0 | Some x => clamp_bound n x end in
  let e := match stop with None => n | Some x => clamp_bound n x end in
  0 <= s <= n /\ 0 <= e <= n /\
  (s <= e ->
   Value_getitem self (IdxSlice start stop None) = Ok (Slice self s e) /\
   shape (Slice self s e) = Ok (MkShape (e - s) false)) /\
  (e < s -> Value_getitem self (IdxSlice start stop None) = raise IndexError) /\
  Value_getitem self (IdxSlice None None None) = Ok (Slice self 0 n).
Proof.
  intros Hlen s e.
  pose proof (Value_len_nonneg self n Hlen) as Hn.
  assert (Hs : 0 <= s <= n).
  { unfold s. destruct start; [apply clamp_bound_range; exact Hn | lia]. }
  assert (He : 0 <= e <= n).
  { unfold e. destruct stop; [apply clamp_bound_range; exact Hn | lia]. }
  assert (Hget : Value_getitem self (IdxSlice start stop None)
                 = Slice_init self s e).
  { unfold Value_getitem. rewrite Hlen. cbn [bind].
    rewrite slice_indices_unit_step by exact Hn. reflexivity. }
  split; [exact Hs |]. split; [exact He |]. split; [| split].
  - intros Hle. rewrite Hget. split.
    + apply (Slice_init_ok self n); [exact Hlen | lia | lia].
    + cbn [shape]. apply Shape_init_ok. lia.
  - intros Hlt. rewrite Hget. unfold Slice_init. rewrite Hlen. cbn [bind].
    destruct (Z.leb_spec (- (n + 1)) s); [| lia].
    destruct (Z.ltb_spec s (n + 1)); [| lia].
    destruct (Z.leb_spec (- (n + 1)) e); [| lia].
    destruct (Z.ltb_spec e (n + 1)); [| lia].
    cbn [andb negb].
    destruct (Z.ltb_spec s 0); [lia |].
    destruct (Z.ltb_spec e 0); [lia |].
    destruct (Z.ltb_spec e s); [reflexivity | lia].
  - unfold Value_getitem. rewrite Hlen. cbn [bind].
    rewrite slice_indices_unit_step by exact Hn. cbn [bind Z.eqb negb].
    apply (Slice_init_ok self n); [exact Hlen | lia | lia].
Qed.

(** Slicing a value that is not an [ArrayProxy] with step 1 never reaches
    outside the value: the bounds are brought into [[0, n]] first.  With the
    bounds so placed in order the result is that slice; placed the other way
    round, [IndexError] is raised, where a Python sequence would give an
    empty slice.  [v[:]] is the whole value. *)
Theorem getitem_slice_clamps (self : Value) (n : Z) (start stop : option Z) :
  is_ArrayProxy self = false ->
  Value_len self = Ok n ->
  let s := match start with None => 0 | Some x => clamp_bound n x end in
  let e := match stop with None => n | Some x => clamp_bound n x end in
  0 <= s <= n /\ 0 <= e <= n /\
  (s <= e ->
   getitem self (IdxSlice start stop None) = Ok (Slice self s e) /\
   shape (Slice self s e) = Ok (MkShape (e - s) false)) /\
  (e < s -> getitem self (IdxSlice start stop None) = raise IndexError) /\
  getitem self (IdxSlice None None None) = Ok (Slice self 0 n).
Proof.
  intros Hproxy Hlen s e. rewrite !(getitem_not_proxy self _ Hproxy).
  exact (Value_getitem_slice_clamps self n start stop Hlen).
Qed.

Lemma getitem_slice_clamps_witness :
  getitem (Signal 0 4 false "v" 0 false) (IdxSlice (Some (-3)) (Some 9) None)
  = Ok (Slice (Signal 0 4 false "v" 0 false) 1 4) /\
  getitem (Signal 0 4 false "v" 0 false) (IdxSlice (Some 3) (Some 1) None)
  = raise IndexError.
Proof.
  destruct (getitem_slice_clamps (Signal 0 4 false "v" 0 false) 4
              (Some (-3)) (Some 9) eq_refl eq_refl) as [_ [_ [Hok _]]].
  destruct (getitem_slice_clamps (Signal 0 4 false "v" 0 false) 4
              (Some 3) (Some 1) eq_refl eq_refl) as [_ [_ [_ [Hbad _]]]].
  split.
  - apply Hok. vm_compute. discriminate.
  - apply Hbad. vm_compute. reflexivity.
Defined.


(** The elements of a range lie between its bounds. *)
Lemma range_elems_between (r : Py.range) (x : Z) :
  Py.step r <> 0 ->
  In x (Py.range_elems r) ->
  if 0 <? Py.step r
  then Py.start r <= x < Py.stop r
  else Py.stop r < x <= Py.start r.
Proof.
  intros Hstep. unfold Py.range_elems, Py.range_len.
  rewrite in_map_iff. intros [i [Hx Hi]]. apply in_seq in Hi.
  destruct (Z.ltb_spec 0 (Py.step r)) as [Hpos | Hneg].
  - destruct (Z.ltb_spec (Py.start r) (Py.stop r)) as [Hlt | Hge];
      [| simpl in Hi; lia].
    pose proof (Z.mul_div_le (Py.stop r - Py.start r - 1) (Py.step r) Hpos).
    assert (0 <= (Py.stop r - Py.start r - 1) / Py.step r)
      by (apply Z.div_pos; lia).
    assert (Z.of_nat i <= (Py.stop r - Py.start r - 1) / Py.step r) by lia.
    nia.
  - destruct (Z.ltb_spec (Py.stop r) (Py.start r)) as [Hlt | Hge];
      [| simpl in Hi; lia].
    pose proof (Z.mul_div_le (Py.start r - Py.stop r - 1) (- Py.step r)
                  ltac:(lia)).
    assert (0 <= (Py.start r - Py.stop r - 1) / (- Py.step r))
      by (apply Z.div_pos; lia).
    assert (Z.of_nat i <= (Py.start r - Py.stop r - 1) / (- Py.step r)) by lia.
    nia.
Qed.

Lemma Value_bits_ok (self : Value) (n : Z) (indices : list Z) :
  Value_len self = Ok n ->
  Forall (fun i => 0 <= i < n) indices ->
  Value_bits self indices = Ok (map (fun i => Slice self i (i + 1)) indices).
Proof.
  intros Hlen. induction 1 as [| i indices Hi _ IH]; [reflexivity |].
  cbn [Value_bits map]. rewrite (Value_getitem_int_ok self n i Hlen Hi), IH.
  reflexivity.
Qed.

Lemma sum_widths_from (shs : list Shape) (acc : Z) :
  fold_left (fun acc sh => acc + width sh) shs acc = acc + sum_widths shs.
Proof.
  unfold sum_widths. revert acc.
  induction shs as [| sh shs IH]; intros acc; cbn [fold_left]; [lia |].
  rewrite IH, (IH (0 + width sh)). lia.
Qed.

Lemma sum_widths_cons (sh : Shape) (shs : list Shape) :
  sum_widths (sh :: shs) = width sh + sum_widths shs.
Proof. unfold sum_widths at 1. cbn [fold_left]. rewrite sum_widths_from. lia. Qed.

Lemma shape_Cat_bits (self : Value) (indices : list Z) :
  shape (Cat (map (fun i => Slice self i (i + 1)) indices))
  = Ok (MkShape (Z.of_nat (List.length indices)) false).
Proof.
  rewrite shape_Cat.
  assert (Hshapes : shapes (map (fun i => Slice self i (i + 1)) indices)
                    = Ok (map (fun _ => MkShape 1 false) indices)).
  { induction indices as [| i indices IH]; [reflexivity |].
    cbn [map shapes shape]. replace (i + 1 - i) with 1 by lia.
    cbn [Shape_init Z.ltb Z.compare bind]. rewrite IH. reflexivity. }
  rewrite Hshapes. cbn [bind]. clear Hshapes.
  assert (Hsum : sum_widths (map (fun _ : Z => MkShape 1 false) indices)
                 = Z.of_nat (List.length indices)).
  { induction indices as [| i indices IH]; [reflexivity |].
    cbn [map List.length]. rewrite sum_widths_cons, IH. cbn [width]. lia. }
  rewrite Hsum. apply Shape_init_ok. lia.
Qed.

(** [Value.__getitem__] with a slice of a step other than 1: the bits at
    the indices of the range, concatenated. *)
Lemma Value_getitem_slice_stepped (self : Value) (n : Z)
      (start stop : option Z) (step : Z) :
  Value_len self = Ok n ->
  (step = 0 ->
   Value_getitem self (IdxSlice start stop (Some step)) = raise ValueError) /\
  (step <> 0 -> step <> 1 ->
   exists indices,
     Forall (fun i => 0 <= i < n) indices /\
     Value_getitem self (IdxSlice start stop (Some step))
     = Ok (Cat (map (fun i => Slice self i (i + 1)) indices)) /\
     shape (Cat (map (fun i => Slice self i (i + 1)) indices))
     = Ok (MkShape (Z.of_nat (List.length indices)) false) /\
     exists s e,
       slice_indices start stop (Some step) n = Ok (s, e, step) /\
       indices = Py.range_elems (Py.Range s e step)).
Proof.
  intros Hlen. pose proof (Value_len_nonneg self n Hlen) as Hn. split.
  - intros ->. unfold Value_getitem. rewrite Hlen. reflexivity.
  - intros H0 H1.
    unfold Value_getitem. rewrite Hlen. cbn [bind].
    unfold slice_indices.
    destruct (Z.eqb_spec step 0) as [| _]; [contradiction |].
    set (lower := if step <? 0 then -1 else 0).
    set (upper := if step <? 0 then n - 1 else n).
    set (adjust := fun x => if x <? 0 then Z.max (x + n) lower else Z.min x upper).
    set (s := match start with
              | None => if step <? 0 then upper else lower
              | Some x => adjust x
              end).
    set (e := match stop with
              | None => if step <? 0 then lower else upper
              | Some x => adjust x
              end).
    cbn [bind].
    destruct (Z.eqb_spec step 1) as [| _]; [contradiction |]. cbn [negb].
    assert (Hadj : forall x, lower <= adjust x <= upper).
    { intros x. unfold adjust, lower, upper.
      destruct (Z.ltb_spec step 0), (Z.ltb_spec x 0); lia. }
    assert (Hs : lower <= s <= upper).
    { unfold s. destruct start; [apply Hadj |].
      unfold lower, upper. destruct (Z.ltb_spec step 0); lia. }
    assert (He : lower <= e <= upper).
    { unfold e. destruct stop; [apply Hadj |].
      unfold lower, upper. destruct (Z.ltb_spec step 0); lia. }
    assert (Hall : Forall (fun i => 0 <= i < n)
                     (Py.range_elems (Py.Range s e step))).
    { apply Forall_forall. intros x Hx.
      apply range_elems_between in Hx; [| exact H0].
      cbn [Py.start Py.stop Py.step] in Hx.
      unfold lower, upper in Hs, He.
      destruct (Z.ltb_spec 0 step), (Z.ltb_spec step 0); lia. }
    exists (Py.range_elems (Py.Range s e step)).
    split; [exact Hall |]. split; [| split].
    + change (bind (Value_bits self (Py.range_elems (Py.Range s e step)))
                   Cat_values
              = Ok (Cat (map (fun i => Slice self i (i + 1))
                             (Py.range_elems (Py.Range s e step))))).
      rewrite (Value_bits_ok self n _ Hlen Hall). cbn [bind].
      apply Cat_values_ok.
    + apply shape_Cat_bits.
    + exists s, e. split; reflexivity.
Qed.

(** Slicing a value that is not an [ArrayProxy] with a step other than 1
    never fails, whatever the bounds: it concatenates the bits at the
    indices that [key.indices(n)] ranges over, in that order, the first one
    in the low bit, each taken as a one-bit slice inside the value; the
    result is as wide as there are indices.  A step of 0 is a
    [ValueError]. *)
Theorem getitem_slice_stepped (self : Value) (n : Z)
        (start stop : option Z) (step : Z) :
  is_ArrayProxy self = false ->
  Value_len self = Ok n ->
  (step = 0 ->
   getitem self (IdxSlice start stop (Some step)) = raise ValueError) /\
  (step <> 0 -> step <> 1 ->
   exists indices,
     Forall (fun i => 0 <= i < n) indices /\
     getitem self (IdxSlice start stop (Some step))
     = Ok (Cat (map (fun i => Slice self i (i + 1)) indices)) /\
     shape (Cat (map (fun i => Slice self i (i + 1)) indices))
     = Ok (MkShape (Z.of_nat (List.length indices)) false) /\
     exists s e,
       slice_indices start stop (Some step) n = Ok (s, e, step) /\
       indices = Py.range_elems (Py.Range s e step)).
Proof.
  intros Hproxy Hlen. rewrite !(getitem_not_proxy self _ Hproxy).
  exact (Value_getitem_slice_stepped self n start stop step Hlen).
Qed.

Lemma getitem_slice_stepped_witness :
  getitem (Signal 0 4 false "v" 0 false) (IdxSlice None None (Some (-1)))
  = Ok (Cat [Slice (Signal 0 4 false "v" 0 false) 3 4;
             Slice (Signal 0 4 false "v" 0 false) 2 3;
             Slice (Signal 0 4 false "v" 0 false) 1 2;
             Slice (Signal 0 4 false "v" 0 false) 0 1]).
Proof.
  destruct (getitem_slice_stepped (Signal 0 4 false "v" 0 false) 4
              None None (-1) eq_refl eq_refl) as [_ H].
  assert (H0 : -1 <> 0) by discriminate.
  assert (H1 : -1 <> 1) by discriminate.
  destruct (H H0 H1) as [indices [_ [Hget [_ [s [e [Hse Hind]]]]]]].
  vm_compute in Hse. inversion Hse. subst s e.
  vm_compute in Hind. subst indices. exact Hget.
Defined.


(** ** Shifts and rotations by a constant *)

Lemma Const_zeros (amount : Z) :
  0 <= amount -> Const_init 0 (ShapeWidth amount) = Ok (Const 0 amount false).
Proof.
  intros Ha. unfold Const_init. cbn [Z.ltb Z.compare].
  rewrite Shape_init_ok by exact Ha. cbn [bind width is_signed].
  rewrite Const_normalize_spec.
  destruct (Z.ltb_spec amount 0); [lia |]. cbn [orb andb bind].
  unfold normalized. cbn [andb]. rewrite Z.land_0_l. reflexivity.
Qed.

Lemma shape_as_signed (v : Value) (sh : Shape) :
  shape v = Ok sh ->
  Value_as_signed v = Ok (Operator "s" [v]) /\
  shape (Operator "s" [v]) = Ok (MkShape (width sh) true).
Proof.
  intros Hv. split; [reflexivity |].
  rewrite (shape_unary "s" v sh Hv). unfold Operator_shape. simpl.
  apply Shape_init_ok. eapply shape_width_nonneg; exact Hv.
Qed.

Lemma shift_left_by_shape (self : Value) (sa : Shape) (amount : Z) :
  shape self = Ok sa -> 0 <= amount ->
  exists v, shift_left_by self amount = Ok v /\
            shape v = Ok (MkShape (width sa + amount) (is_signed sa)).
Proof.
  intros Ha Hamount.
  pose proof (shape_width_nonneg self sa Ha) as Hwa.
  assert (Hcat : shape (Cat [Const 0 amount false; self])
                 = Ok (MkShape (width sa + amount) false)).
  { rewrite shape_Cat. cbn [shapes shape].
    rewrite Shape_init_ok by exact Hamount. cbn [bind]. rewrite Ha. cbn [bind].
    rewrite !sum_widths_cons. cbn [width]. unfold sum_widths. cbn [fold_left].
    rewrite Shape_init_ok by lia. f_equal. f_equal. lia. }
  unfold shift_left_by. rewrite Ha. cbn [bind].
  rewrite Const_zeros by exact Hamount. cbn [bind].
  rewrite Cat_values_ok. cbn [bind].
  destruct (is_signed sa).
  - destruct (shape_as_signed _ _ Hcat) as [Hs Hshape].
    eexists. split; [exact Hs | exact Hshape].
  - eexists. split; [reflexivity | exact Hcat].
Qed.

Lemma shift_right_by_shape (self : Value) (sa : Shape) (amount : Z) :
  is_ArrayProxy self = false ->
  shape self = Ok sa -> 0 <= amount ->
  exists v, shift_right_by self amount = Ok v /\
            shape v = Ok (MkShape (Z.max 0 (width sa - amount)) (is_signed sa)).
Proof.
  intros Hproxy Ha Hamount.
  pose proof (shape_width_nonneg self sa Ha) as Hwa.
  assert (Hlen : Value_len self = Ok (width sa))
    by (unfold Value_len; rewrite Ha; reflexivity).
  destruct (Value_getitem_slice_clamps self (width sa) (Some amount) None Hlen)
    as [_ [_ [Hget _]]].
  assert (Hclamp : clamp_bound (width sa) amount = Z.min (width sa) amount).
  { unfold clamp_bound. destruct (Z.ltb_spec amount 0); lia. }
  rewrite Hclamp in Hget. destruct (Hget ltac:(lia)) as [Hrest Hshape].
  replace (width sa - Z.min (width sa) amount)
    with (Z.max 0 (width sa - amount)) in Hshape by lia.
  unfold shift_right_by. rewrite Ha. cbn [bind].
  rewrite (getitem_not_proxy self _ Hproxy), Hrest. cbn [bind].
  destruct (is_signed sa).
  - destruct (shape_as_signed _ _ Hshape) as [Hs Hshape'].
    eexists. split; [exact Hs | exact Hshape'].
  - eexists. split; [reflexivity | exact Hshape].
Qed.

(** Shifting a value that is not an [ArrayProxy] by a constant never fails
    and keeps the signedness: shifting left by [amount] gives
    [max(0, n + amount)] bits and shifting right gives [max(0, n - amount)]
    bits, for every integer [amount]; a shift by a negative amount is the
    opposite shift by its magnitude. *)
Theorem shift_by_constant_shape (self : Value) (sa : Shape) (amount : Z) :
  is_ArrayProxy self = false ->
  shape self = Ok sa ->
  (exists v, Value_shift_left self amount = Ok v /\
             shape v = Ok (MkShape (Z.max 0 (width sa + amount)) (is_signed sa))) /\
  (exists v, Value_shift_right self amount = Ok v /\
             shape v = Ok (MkShape (Z.max 0 (width sa - amount)) (is_signed sa))) /\
  (amount <> 0 ->
   Value_shift_left self (- amount) = Value_shift_right self amount /\
   Value_shift_right self (- amount) = Value_shift_left self amount).
Proof.
  intros Hproxy Ha.
  pose proof (shape_width_nonneg self sa Ha) as Hwa.
  unfold Value_shift_left, Value_shift_right.
  split; [| split].
  - destruct (Z.ltb_spec amount 0) as [Hneg | Hpos].
    + destruct (shift_right_by_shape self sa (- amount) Hproxy Ha ltac:(lia))
        as [v [Hv Hshape]].
      exists v. split; [exact Hv |]. rewrite Hshape. f_equal. f_equal. lia.
    + destruct (shift_left_by_shape self sa amount Ha Hpos) as [v [Hv Hshape]].
      exists v. split; [exact Hv |]. rewrite Hshape. f_equal. f_equal. lia.
  - destruct (Z.ltb_spec amount 0) as [Hneg | Hpos].
    + destruct (shift_left_by_shape self sa (- amount) Ha ltac:(lia))
        as [v [Hv Hshape]].
      exists v. split; [exact Hv |]. rewrite Hshape. f_equal. f_equal. lia.
    + destruct (shift_right_by_shape self sa amount Hproxy Ha Hpos)
        as [v [Hv Hshape]].
      exists v. split; [exact Hv |]. exact Hshape.
  - intros Hne.
    destruct (Z.ltb_spec amount 0), (Z.ltb_spec (- amount) 0); try lia;
      rewrite ?Z.opp_involutive; split; reflexivity.
Qed.

Lemma shift_by_constant_shape_witness :
  (exists v, Value_shift_left (Signal 0 4 true "a" 0 false) (-6) = Ok v /\
             shape v = Ok (MkShape 0 true)) /\
  Value_shift_left (Signal 0 4 true "a" 0 false) (- 3)
  = Value_shift_right (Signal 0 4 true "a" 0 false) 3.
Proof.
  destruct (shift_by_constant_shape (Signal 0 4 true "a" 0 false)
              (MkShape 4 true) (-6) eq_refl eq_refl) as [Hleft _].
  destruct (shift_by_constant_shape (Signal 0 4 true "a" 0 false)
              (MkShape 4 true) 3 eq_refl eq_refl) as [_ [_ Hopp]].
  assert (H3 : 3 <> 0) by discriminate.
  split; [exact Hleft | exact (proj1 (Hopp H3))].
Defined.

Lemma getitem_from (self : Value) (n k : Z) :
  is_ArrayProxy self = false ->
  Value_len self = Ok n -> 0 <= k <= n ->
  forall x, clamp_bound n x = k ->
  getitem self (IdxSlice (Some x) None None) = Ok (Slice self k n) /\
  getitem self (IdxSlice None (Some x) None) = Ok (Slice self 0 k).
Proof.
  intros Hproxy Hlen Hk x Hx. rewrite !(getitem_not_proxy self _ Hproxy).
  destruct (Value_getitem_slice_clamps self n (Some x) None Hlen)
    as [_ [_ [H1 _]]].
  destruct (Value_getitem_slice_clamps self n None (Some x) Hlen)
    as [_ [_ [H2 _]]].
  rewrite Hx in H1, H2.
  split; [apply H1 | apply H2]; lia.
Qed.

(** Rotating a value of width [n >= 1] that is not an [ArrayProxy] takes
    the amount modulo [n] and concatenates two slices that share one cut:
    rotating left by [amount] cuts at [(- amount) mod n], rotating right at
    [amount mod n], so that rotating left by [amount] builds the very node
    that rotating right by [- amount] builds; the result is unsigned and [n]
    bits wide.  Rotating a value of width zero raises
    [ZeroDivisionError]. *)
Theorem rotate_by_constant (self : Value) (n amount : Z) :
  is_ArrayProxy self = false ->
  Value_len self = Ok n ->
  (n = 0 ->
   Value_rotate_left self amount = ZeroDivisionError /\
   Value_rotate_right self amount = ZeroDivisionError) /\
  (1 <= n ->
   let cut := amount mod n in
   Value_rotate_right self amount
   = Rotated (Ok (Cat [Slice self cut n; Slice self 0 cut])) /\
   Value_rotate_left self (- amount) = Value_rotate_right self amount /\
   shape (Cat [Slice self cut n; Slice self 0 cut]) = Ok (MkShape n false)).
Proof.
  intros Hproxy Hlen. split.
  - intros ->. unfold Value_rotate_left, Value_rotate_right.
    rewrite Hlen. split; reflexivity.
  - intros Hn cut.
    assert (Hcut : 0 <= cut < n) by (apply Z.mod_pos_bound; lia).
    assert (Hright : Value_rotate_right self amount
                     = Rotated (Ok (Cat [Slice self cut n; Slice self 0 cut]))).
    { unfold Value_rotate_right. rewrite Hlen.
      destruct (Z.eqb_spec n 0); [lia |].
      destruct (getitem_from self n cut Hproxy Hlen ltac:(lia) cut)
        as [Hhigh Hlow].
      { unfold clamp_bound. destruct (Z.ltb_spec cut 0); lia. }
      fold cut. rewrite Hhigh, Hlow. cbn [bind]. rewrite Cat_values_ok.
      reflexivity. }
    split; [exact Hright |]. split.
    + rewrite Hright. unfold Value_rotate_left. rewrite Hlen.
      destruct (Z.eqb_spec n 0); [lia |].
      assert (Hback : clamp_bound n (- (- amount mod n)) = cut).
      { unfold clamp_bound, cut.
        destruct (Z.eq_dec (amount mod n) 0) as [Hz | Hnz].
        - rewrite Z.mod_opp_l_z by lia. rewrite Hz. simpl. lia.
        - rewrite Z.mod_opp_l_nz by lia.
          pose proof (Z.mod_pos_bound amount n ltac:(lia)).
          destruct (Z.ltb_spec (- (n - amount mod n)) 0); lia. }
      destruct (getitem_from self n cut Hproxy Hlen ltac:(lia)
                  (- (- amount mod n)) Hback) as [Hhigh Hlow].
      rewrite Hhigh, Hlow. cbn [bind]. rewrite Cat_values_ok. reflexivity.
    + rewrite shape_Cat. cbn [shapes shape].
      rewrite !Shape_init_ok by lia. cbn [bind].
      rewrite !sum_widths_cons. cbn [width]. unfold sum_widths. cbn [fold_left].
      rewrite Shape_init_ok by lia. f_equal. f_equal. lia.
Qed.

Lemma rotate_by_constant_witness :
  Value_rotate_right (Signal 0 4 false "v" 0 false) 5
  = Rotated (Ok (Cat [Slice (Signal 0 4 false "v" 0 false) 1 4;
                      Slice (Signal 0 4 false "v" 0 false) 0 1])) /\
  Value_rotate_left (Signal 0 4 false "v" 0 false) (- 5)
  = Value_rotate_right (Signal 0 4 false "v" 0 false) 5 /\
  Value_rotate_left (Const 0 0 false) 1 = ZeroDivisionError.
Proof.
  destruct (rotate_by_constant (Signal 0 4 false "v" 0 false) 4 5
              eq_refl eq_refl) as [_ Hrot].
  destruct (rotate_by_constant (Const 0 0 false) 0 1 eq_refl eq_refl)
    as [Hzero _].
  assert (H4 : 1 <= 4) by lia.
  destruct (Hrot H4) as [Hright [Hleft _]].
  split; [exact Hright |]. split; [exact Hleft |].
  exact (proj1 (Hzero eq_refl)).
Defined.

(** ** Part selection *)

(** With a constant offset [k >= 0], [bit_select] and [word_select] on a
    value that is not an [ArrayProxy] reduce to a slice whose bounds are cut
    off at the width [n] of the value: the
    window [[k, k + w)] for bits and [[k * w, (k + 1) * w)] for words.  The
    slice is never wider than [w], and it is [w] bits wide exactly when the
    window ends inside the value (or [w] is 0); the windows of two
    different words never overlap. *)
Theorem select_constant_offset_is_slice
        (self : Value) (n k w cw : Z) (cs : bool) :
  is_ArrayProxy self = false ->
  Value_len self = Ok n -> 0 <= k -> 0 <= w ->
  let offset := AsValue (Const k cw cs) in
  Value_bit_select self offset w
  = Ok (Slice self (Z.min k n) (Z.min (k + w) n)) /\
  Value_word_select self offset w
  = Ok (Slice self (Z.min (k * w) n) (Z.min ((k + 1) * w) n)) /\
  (Z.min (k + w) n - Z.min k n <= w) /\
  (Z.min (k + w) n - Z.min k n = w <-> (k + w <= n \/ w = 0)) /\
  (forall k', k < k' -> Z.min ((k + 1) * w) n <= Z.min (k' * w) n).
Proof.
  intros Hproxy Hlen Hk Hw offset.
  pose proof (Value_len_nonneg self n Hlen) as Hn.
  assert (Hclamp : forall x, 0 <= x -> clamp_bound n x = Z.min x n).
  { intros x Hx. unfold clamp_bound. destruct (Z.ltb_spec x 0); lia. }
  split; [| split; [| split; [| split]]].
  - unfold Value_bit_select, offset. cbn [Value_cast bind].
    rewrite (getitem_not_proxy self _ Hproxy).
    destruct (Value_getitem_slice_clamps self n (Some k) (Some (k + w)) Hlen)
      as [_ [_ [Hget _]]].
    rewrite !Hclamp in Hget by lia. apply Hget. lia.
  - unfold Value_word_select, offset. cbn [Value_cast bind].
    rewrite (getitem_not_proxy self _ Hproxy).
    destruct (Value_getitem_slice_clamps self n (Some (k * w))
                (Some ((k + 1) * w)) Hlen) as [_ [_ [Hget _]]].
    rewrite !Hclamp in Hget by nia. apply Hget. nia.
  - lia.
  - lia.
  - intros k' Hk'. assert ((k + 1) * w <= k' * w) by nia. lia.
Qed.

Lemma select_constant_offset_is_slice_witness :
  Value_bit_select (Signal 0 8 false "v" 0 false) (AsValue (Const 6 3 false)) 4
  = Ok (Slice (Signal 0 8 false "v" 0 false) 6 8) /\
  Value_word_select (Signal 0 8 false "v" 0 false) (AsValue (Const 1 1 false)) 4
  = Ok (Slice (Signal 0 8 false "v" 0 false) 4 8).
Proof.
  assert (H6 : 0 <= 6) by lia. assert (H1 : 0 <= 1) by lia.
  assert (H4 : 0 <= 4) by lia.
  destruct (select_constant_offset_is_slice (Signal 0 8 false "v" 0 false)
              8 6 4 3 false eq_refl eq_refl H6 H4) as [Hbit _].
  destruct (select_constant_offset_is_slice (Signal 0 8 false "v" 0 false)
              8 1 4 1 false eq_refl eq_refl H1 H4) as [_ [Hword _]].
  split; [exact Hbit | exact Hword].
Defined.

(** With an offset that is not a constant, [bit_select] and [word_select]
    build a [Part], of stride 1 and of stride [w]; its width is [w] whatever
    the width of the value, which is never looked at.  A negative [w] is a
    [TypeError], and so is [w = 0] for [word_select], whose stride must be
    positive. *)
Theorem select_dynamic_offset_is_part (self offset : Value) (w : Z) :
  is_Const offset = false ->
  Value_bit_select self (AsValue offset) w
  = (if w <? 0 then raise TypeError else Ok (Part self offset w 1)) /\
  Value_word_select self (AsValue offset) w
  = (if w <=? 0 then raise TypeError else Ok (Part self offset w w)) /\
  (0 <= w -> shape (Part self offset w 1) = Ok (MkShape w false)).
Proof.
  intros Hoffset. split; [| split].
  - unfold Value_bit_select, Part_init. cbn [Value_cast bind].
    destruct offset; try discriminate; destruct (w <? 0); reflexivity.
  - unfold Value_word_select, Part_init. cbn [Value_cast bind].
    destruct offset; try discriminate;
      destruct (Z.ltb_spec w 0), (Z.leb_spec w 0); try lia; reflexivity.
  - intros Hw. cbn [shape]. apply Shape_init_ok. exact Hw.
Qed.

Lemma select_dynamic_offset_is_part_witness :
  Value_word_select (Signal 0 8 false "v" 0 false)
                    (AsValue (Signal 1 2 false "i" 0 false)) 0
  = raise TypeError /\
  shape (Part (Signal 0 8 false "v" 0 false) (Signal 1 2 false "i" 0 false) 16 1)
  = Ok (MkShape 16 false).
Proof.
  destruct (select_dynamic_offset_is_part (Signal 0 8 false "v" 0 false)
              (Signal 1 2 false "i" 0 false) 0 eq_refl) as [_ [Hword _]].
  destruct (select_dynamic_offset_is_part (Signal 0 8 false "v" 0 false)
              (Signal 1 2 false "i" 0 false) 16 eq_refl) as [_ [_ Hshape]].
  assert (H16 : 0 <= 16) by lia.
  split; [exact Hword | exact (Hshape H16)].
Defined.

(** ** Constant concatenations *)

Lemma Value_as_const_Cat (parts : list Value) :
  Value_as_const (Cat parts) = Cat_as_const parts.
Proof. reflexivity. Qed.

Lemma lor_shiftl_low (v c w : Z) :
  0 <= w -> 0 <= c < 2 ^ w -> Z.lor (Z.shiftl v w) c = c + 2 ^ w * v.
Proof.
  intros Hw Hc.
  assert (Hland : Z.land (Z.shiftl v w) c = 0).
  { apply Z.bits_inj'. intros i Hi. rewrite Z.land_spec, Z.bits_0.
    destruct (Z.lt_ge_cases i w) as [Hlow | Hhigh].
    - rewrite Z.shiftl_spec_low by exact Hlow. reflexivity.
    - rewrite <- (Z.mod_small c (2 ^ w)) by exact Hc.
      rewrite Z.mod_pow2_bits_high by lia. apply andb_false_r. }
  rewrite <- Z.lxor_lor by exact Hland.
  rewrite <- Z.add_nocarry_lxor by exact Hland.
  rewrite Z.shiftl_mul_pow2 by exact Hw. lia.
Qed.

(** The constant value of a concatenation: when every part is constant and
    its value lies in [[0, 2 ^ width)], the value of [Cat] is the parts'
    values side by side, the first part in the low bits, and the unsigned
    shape of the [Cat] holds it.  Only [Const] and [Cat] have a constant
    value. *)
Theorem Cat_as_const_concatenates (parts : list Value) (cws : list (Z * Z)) :
  Forall2 (fun part cw =>
             Value_as_const part = Ok (fst cw) /\
             Value_len part = Ok (snd cw) /\
             0 <= fst cw < 2 ^ snd cw) parts cws ->
  Value_as_const (Cat parts) = Ok (concat_value cws) /\
  (exists n, Value_len (Cat parts) = Ok n /\
             holds (MkShape n false) (concat_value cws)) /\
  (forall duid width signed name reset reset_less,
     Value_as_const (Signal duid width signed name reset reset_less)
     = raise TypeError).
Proof.
  intros Hparts.
  assert (Hboth : Cat_as_const parts = Ok (concat_value cws) /\
                  exists shs, shapes parts = Ok shs /\
                              0 <= concat_value cws < 2 ^ sum_widths shs /\
                              0 <= sum_widths shs).
  { induction Hparts as [| part [c w] parts cws [Hc [Hlen Hrange]] _ IH].
    - split; [reflexivity |]. exists []. split; [reflexivity |].
      unfold sum_widths. simpl. lia.
    - destruct IH as [IHc [shs [Hshs [Hbound Hsum]]]].
      cbn [fst snd] in *.
      pose proof (Value_len_nonneg part w Hlen) as Hw.
      split.
      + cbn [Cat_as_const]. rewrite IHc. cbn [bind]. rewrite Hlen. cbn [bind].
        unfold Py.shl. destruct (Z.ltb_spec w 0); [lia |]. cbn [bind].
        rewrite Hc. cbn [bind concat_value].
        rewrite lor_shiftl_low by assumption. reflexivity.
      + unfold Value_len in Hlen. apply bind_ok_inv in Hlen.
        destruct Hlen as [sh [Hsh Heq]]. inversion Heq. subst w.
        exists (sh :: shs). split.
        * cbn [shapes]. rewrite Hsh, Hshs. reflexivity.
        * rewrite sum_widths_cons. cbn [concat_value].
          rewrite Z.pow_add_r by lia.
          assert (0 < 2 ^ width sh) by (apply Z.pow_pos_nonneg; lia).
          split; [nia | lia]. }
  destruct Hboth as [Hc [shs [Hshs [Hbound Hsum]]]].
  split; [rewrite Value_as_const_Cat; exact Hc |]. split.
  - exists (sum_widths shs). split.
    + unfold Value_len. rewrite shape_Cat, Hshs. cbn [bind].
      rewrite Shape_init_ok by exact Hsum. reflexivity.
    + exact Hbound.
  - reflexivity.
Qed.

Lemma Cat_as_const_concatenates_witness :
  Value_as_const (Cat [Const 2 2 false; Const 1 1 false; Const 5 3 false])
  = Ok 46.
Proof.
  apply (Cat_as_const_concatenates
           [Const 2 2 false; Const 1 1 false; Const 5 3 false]
           [(2, 2); (1, 1); (5, 3)]).
  repeat constructor; cbn [fst snd]; lia.
Defined.

(** ** Signal keys are totally ordered *)

Lemma ascii_compare_lt_trans (a b c : ascii) :
  Ascii.compare a b = Lt -> Ascii.compare b c = Lt -> Ascii.compare a c = Lt.
Proof.
  unfold Ascii.compare. rewrite !N.compare_lt_iff. lia.
Qed.

Lemma string_compare_lt_trans (a b c : string) :
  String.compare a b = Lt -> String.compare b c = Lt -> String.compare a c = Lt.
Proof.
  revert b c. induction a as [| x a IH]; intros [| y b] [| z c];
    cbn [String.compare]; try discriminate; try reflexivity.
  destruct (Ascii.compare x y) eqn:Hxy; try discriminate;
    destruct (Ascii.compare y z) eqn:Hyz; try discriminate; intros Hab Hbc.
  - apply Ascii.compare_eq_iff in Hxy, Hyz. subst.
    assert (Hzz : Ascii.compare z z = Eq).
    { unfold Ascii.compare. apply N.compare_refl. }
    rewrite Hzz. eapply IH; eassumption.
  - apply Ascii.compare_eq_iff in Hxy. subst. rewrite Hyz. reflexivity.
  - apply Ascii.compare_eq_iff in Hyz. subst. rewrite Hxy. reflexivity.
  - rewrite (ascii_compare_lt_trans x y z Hxy Hyz). reflexivity.
Qed.

Lemma string_compare_refl (a : string) : String.compare a a = Eq.
Proof.
  induction a as [| x a IH]; [reflexivity |]. cbn [String.compare].
  assert (Hxx : Ascii.compare x x = Eq).
  { unfold Ascii.compare. apply N.compare_refl. }
  rewrite Hxx. exact IH.
Qed.

Lemma string_ltb_trans (a b c : string) :
  String.ltb a b = true -> String.ltb b c = true -> String.ltb a c = true.
Proof.
  unfold String.ltb.
  destruct (String.compare a b) eqn:Hab; try discriminate.
  destruct (String.compare b c) eqn:Hbc; try discriminate. intros _ _.
  rewrite (string_compare_lt_trans a b c Hab Hbc). reflexivity.
Qed.

Lemma string_ltb_irrefl (a : string) : String.ltb a a = false.
Proof. unfold String.ltb. rewrite string_compare_refl. reflexivity. Qed.

Lemma string_ltb_total (a b : string) :
  String.eqb a b = false -> String.ltb a b = negb (String.ltb b a).
Proof.
  intros Hne. unfold String.ltb. rewrite (String.compare_antisym b a).
  destruct (String.compare a b) eqn:Hab; try reflexivity.
  apply String.compare_eq_iff in Hab. subst.
  rewrite String.eqb_refl in Hne. discriminate.
Qed.

Lemma SignalKey_init_built (signal : Value) (key : SignalKey) :
  SignalKey_init signal = Ok key ->
  key_signal key = signal /\ built_intern (_intern key).
Proof.
  destruct signal; cbn [SignalKey_init]; intros H; inversion H;
    (split; [reflexivity | constructor]).
Qed.

Lemma SignalKey_lt_irrefl (k : SignalKey) :
  built_intern (_intern k) -> SignalKey_lt k k = Ok false.
Proof.
  unfold SignalKey_lt. intros H. destruct H; simpl;
    rewrite ?Z.eqb_refl, ?String.eqb_refl; reflexivity.
Qed.

Lemma SignalKey_lt_total (ka kb : SignalKey) :
  built_intern (_intern ka) -> built_intern (_intern kb) ->
  SignalKey_eq ka kb = false ->
  exists r, SignalKey_lt ka kb = Ok r /\ SignalKey_lt kb ka = Ok (negb r).
Proof.
  unfold SignalKey_lt, SignalKey_eq. intros Ha Hb.
  destruct Ha as [x | x | x], Hb as [y | y | y]; simpl;
    try (intros _; eexists; split; reflexivity).
  - intros Hne. rewrite Hne, Z.eqb_sym, Hne. simpl.
    exists (x <? y). split; [reflexivity |]. f_equal.
    apply Z.eqb_neq in Hne.
    destruct (Z.ltb_spec x y), (Z.ltb_spec y x); try reflexivity; lia.
  - intros Hne. rewrite Hne, String.eqb_sym, Hne. simpl.
    exists (String.ltb x y). split; [reflexivity |]. f_equal.
    rewrite (string_ltb_total x y Hne). symmetry. apply negb_involutive.
  - intros Hne. rewrite Hne, String.eqb_sym, Hne. simpl.
    exists (String.ltb x y). split; [reflexivity |]. f_equal.
    rewrite (string_ltb_total x y Hne). symmetry. apply negb_involutive.
Qed.

Lemma SignalKey_lt_equal (ka kb : SignalKey) :
  built_intern (_intern ka) -> built_intern (_intern kb) ->
  SignalKey_eq ka kb = true ->
  _intern ka = _intern kb /\
  SignalKey_lt ka kb = Ok false /\ SignalKey_lt kb ka = Ok false.
Proof.
  unfold SignalKey_lt, SignalKey_eq. intros Ha Hb.
  destruct Ha as [x | x | x], Hb as [y | y | y]; simpl; try discriminate.
  - intros Heq. apply Z.eqb_eq in Heq. subst. rewrite Z.eqb_refl.
    repeat split.
  - intros Heq. apply String.eqb_eq in Heq. subst. rewrite String.eqb_refl.
    repeat split.
  - intros Heq. apply String.eqb_eq in Heq. subst. rewrite String.eqb_refl.
    repeat split.
Qed.

Lemma string_lt_chain (x y z : string) :
  (if negb (String.eqb x y) then Ok (String.ltb x y) else Ok false) = Ok true ->
  (if negb (String.eqb y z) then Ok (String.ltb y z) else Ok false) = Ok true ->
  (if negb (String.eqb x z) then Ok (String.ltb x z) else Ok false) = Ok true.
Proof.
  destruct (String.eqb_spec x y); simpl; [discriminate |].
  destruct (String.eqb_spec y z); simpl; [discriminate |].
  intros Hxy Hyz. injection Hxy as Hxy'. injection Hyz as Hyz'.
  pose proof (string_ltb_trans x y z Hxy' Hyz') as Hxz.
  destruct (String.eqb_spec x z) as [-> | _]; simpl.
  - rewrite string_ltb_irrefl in Hxz. discriminate.
  - rewrite Hxz. reflexivity.
Qed.

Lemma SignalKey_lt_trans (ka kb kc : SignalKey) :
  built_intern (_intern ka) -> built_intern (_intern kb) ->
  built_intern (_intern kc) ->
  SignalKey_lt ka kb = Ok true -> SignalKey_lt kb kc = Ok true ->
  SignalKey_lt ka kc = Ok true.
Proof.
  unfold SignalKey_lt. intros Ha Hb Hc.
  destruct Ha as [x | x | x], Hb as [y | y | y], Hc as [z | z | z]; simpl;
    try discriminate; try (intros; reflexivity);
    try apply string_lt_chain.
  destruct (Z.eqb_spec x y); simpl; [discriminate |].
  destruct (Z.eqb_spec y z); simpl; [discriminate |].
  intros Hxy Hyz. injection Hxy as Hxy'. injection Hyz as Hyz'.
  apply Z.ltb_lt in Hxy', Hyz'.
  destruct (Z.eqb_spec x z); simpl; [lia |].
  f_equal. apply Z.ltb_lt. lia.
Qed.

(** [SignalKey] orders the keys that can be built, strictly and totally:
    [<] never raises on them, no key is below itself, [<] is transitive,
    equal keys are not below one another, and of two unequal keys exactly
    one is below the other.  Signals come first, ordered by [duid], then
    clock signals, then reset signals, each ordered by domain name: the key
    of a signal is below the key of every clock signal and of every reset
    signal, and the key of a clock signal is below the key of every reset
    signal. *)
Theorem SignalKey_strict_total_order
        (a b c : Value) (ka kb kc : SignalKey) :
  SignalKey_init a = Ok ka ->
  SignalKey_init b = Ok kb ->
  SignalKey_init c = Ok kc ->
  SignalKey_lt ka ka = Ok false /\
  (SignalKey_lt ka kb = Ok true -> SignalKey_lt kb kc = Ok true ->
   SignalKey_lt ka kc = Ok true) /\
  (SignalKey_eq ka kb = true ->
   SignalKey_lt ka kb = Ok false /\ SignalKey_lt kb ka = Ok false) /\
  (SignalKey_eq ka kb = false ->
   exists r, SignalKey_lt ka kb = Ok r /\ SignalKey_lt kb ka = Ok (negb r)) /\
  match a, b with
  | Signal duid_a _ _ _ _ _, Signal duid_b _ _ _ _ _ =>
      SignalKey_lt ka kb = Ok (duid_a <? duid_b)
  | ClockSignal domain_a, ClockSignal domain_b
  | ResetSignal domain_a _, ResetSignal domain_b _ =>
      SignalKey_lt ka kb = Ok (String.ltb domain_a domain_b)
  | Signal _ _ _ _ _ _, ClockSignal _
  | Signal _ _ _ _ _ _, ResetSignal _ _
  | ClockSignal _, ResetSignal _ _ =>
      SignalKey_lt ka kb = Ok true /\ SignalKey_lt kb ka = Ok false
  | ClockSignal _, Signal _ _ _ _ _ _
  | ResetSignal _ _, Signal _ _ _ _ _ _
  | ResetSignal _ _, ClockSignal _ =>
      SignalKey_lt ka kb = Ok false /\ SignalKey_lt kb ka = Ok true
  | _, _ => True
  end.
Proof.
  intros Ha Hb Hc.
  destruct (SignalKey_init_built a ka Ha) as [_ Hka].
  destruct (SignalKey_init_built b kb Hb) as [_ Hkb].
  destruct (SignalKey_init_built c kc Hc) as [_ Hkc].
  split; [apply SignalKey_lt_irrefl; exact Hka |].
  split; [apply SignalKey_lt_trans; assumption |].
  split; [| split].
  - intros Heq. apply (SignalKey_lt_equal ka kb Hka Hkb Heq).
  - apply SignalKey_lt_total; assumption.
  - clear Hc Hka Hkb Hkc.
    destruct a; try discriminate Ha; destruct b; try discriminate Hb;
      injection Ha as <-; injection Hb as <-;
      unfold SignalKey_lt; cbn [_intern fst snd intern_tail_eqb intern_tail_lt];
      try (split; reflexivity).
    + change (0 =? 0) with true. cbn [negb].
      destruct (Z.eqb_spec duid duid0) as [-> | Hne]; cbn [negb].
      * rewrite Z.ltb_irrefl. reflexivity.
      * reflexivity.
    + change (1 =? 1) with true. cbn [negb].
      destruct (String.eqb_spec domain domain0) as [-> | Hne]; cbn [negb].
      * rewrite string_ltb_irrefl. reflexivity.
      * reflexivity.
    + change (2 =? 2) with true. cbn [negb].
      destruct (String.eqb_spec domain domain0) as [-> | Hne]; cbn [negb].
      * rewrite string_ltb_irrefl. reflexivity.
      * reflexivity.
Qed.

Lemma SignalKey_strict_total_order_witness :
  exists ks kc kr,
    SignalKey_init (Signal 7 1 false "s" 0 false) = Ok ks /\
    SignalKey_init (ClockSignal "sync") = Ok kc /\
    SignalKey_init (ResetSignal "sync" false) = Ok kr /\
    SignalKey_lt ks kc = Ok true /\
    SignalKey_lt kc kr = Ok true /\
    SignalKey_lt ks kr = Ok true /\
    SignalKey_lt kr ks = Ok false.
Proof.
  exists (MkSignalKey (Signal 7 1 false "s" 0 false) (0, InternDuid 7)),
         (MkSignalKey (ClockSignal "sync") (1, InternDomain "sync")),
         (MkSignalKey (ResetSignal "sync" false) (2, InternDomain "sync")).
  destruct (SignalKey_strict_total_order
              (Signal 7 1 false "s" 0 false) (ClockSignal "sync")
              (ResetSignal "sync" false) _ _ _
              eq_refl eq_refl eq_refl) as [_ [Htrans [_ [_ Hsc]]]].
  destruct (SignalKey_strict_total_order
              (ClockSignal "sync") (ResetSignal "sync" false)
              (Signal 7 1 false "s" 0 false) _ _ _
              eq_refl eq_refl eq_refl) as [_ [_ [_ [_ Hcr]]]].
  destruct (SignalKey_strict_total_order
              (ResetSignal "sync" false) (Signal 7 1 false "s" 0 false)
              (ClockSignal "sync") _ _ _
              eq_refl eq_refl eq_refl) as [_ [_ [_ [_ Hrs]]]].
  cbv iota in Hsc, Hcr, Hrs.
  split; [reflexivity |]. split; [reflexivity |]. split; [reflexivity |].
  split; [exact (proj1 Hsc) |]. split; [exact (proj1 Hcr) |].
  split; [apply Htrans; [exact (proj1 Hsc) | exact (proj1 Hcr)] |].
  exact (proj1 Hrs).
Defined.

(** ** Shapes cast from enumerations and widths *)

Lemma min_list_spec (m : Z) (ms : list Z) :
  In (min_list m ms) (m :: ms) /\ forall x, In x (m :: ms) -> min_list m ms <= x.
Proof.
  unfold min_list. revert m. induction ms as [| y ms IH]; intros m.
  - cbn [fold_left]. split; [left; reflexivity |].
    intros x [-> | []]. lia.
  - cbn [fold_left]. destruct (IH (Z.min m y)) as [Hin Hle]. split.
    + destruct Hin as [Heq | Hin].
      * rewrite <- Heq. destruct (Z.min_spec m y) as [[_ ->] | [_ ->]];
          [left | right; left]; reflexivity.
      * right. right. exact Hin.
    + intros x [-> | [-> | Hx]].
      * specialize (Hle (Z.min x y) (or_introl eq_refl)). lia.
      * specialize (Hle (Z.min m x) (or_introl eq_refl)). lia.
      * apply Hle. right. exact Hx.
Qed.

Lemma max_list_spec (m : Z) (ms : list Z) :
  In (max_list m ms) (m :: ms) /\ forall x, In x (m :: ms) -> x <= max_list m ms.
Proof.
  unfold max_list. revert m. induction ms as [| y ms IH]; intros m.
  - cbn [fold_left]. split; [left; reflexivity |].
    intros x [-> | []]. lia.
  - cbn [fold_left]. destruct (IH (Z.max m y)) as [Hin Hle]. split.
    + destruct Hin as [Heq | Hin].
      * rewrite <- Heq. destruct (Z.max_spec m y) as [[_ ->] | [_ ->]];
          [right; left | left]; reflexivity.
      * right. right. exact Hin.
    + intros x [-> | [-> | Hx]].
      * specialize (Hle (Z.max x y) (or_introl eq_refl)). lia.
      * specialize (Hle (Z.max m x) (or_introl eq_refl)). lia.
      * apply Hle. right. exact Hx.
Qed.

(** The cast of an enumeration with at least one member gives a shape that
    holds every member and is signed exactly when some member is negative;
    an enumeration without members raises, as [min()] of nothing does. *)
Theorem Shape_cast_enum_holds_members (member : Z) (members : list Z) :
  (exists sh,
     Shape_cast (FromEnum (member :: members)) = Ok sh /\
     (forall x, In x (member :: members) -> holds sh x) /\
     (is_signed sh = true <-> exists x, In x (member :: members) /\ x < 0)) /\
  Shape_cast (FromEnum []) = raise ValueError.
Proof.
  split; [| reflexivity].
  destruct (min_list_spec member members) as [Hmin_in Hmin].
  destruct (max_list_spec member members) as [Hmax_in Hmax].
  set (lo := min_list member members) in *.
  set (hi := max_list member members) in *.
  set (sg := (lo <? 0) || (hi <? 0)).
  set (w := Z.max (bits_for lo sg) (bits_for hi sg)).
  assert (Hlohi : lo <= hi) by (apply Hmin; exact Hmax_in).
  assert (Hsg : sg = (lo <? 0)).
  { unfold sg. destruct (Z.ltb_spec lo 0); [reflexivity |].
    destruct (Z.ltb_spec hi 0); [lia | reflexivity]. }
  exists (MkShape w sg). split; [| split].
  - cbn [Shape_cast]. fold lo hi. fold sg. fold w. apply Shape_init_ok.
    pose proof (bits_for_positive lo sg). lia.
  - intros x Hx.
    apply (holds_between _ lo hi); [| | split; [apply Hmin | apply Hmax]; exact Hx].
    + apply (holds_widen (MkShape (bits_for lo sg) sg)).
      * left. cbn [width is_signed]. split; [reflexivity | lia].
      * apply bits_for_holds. rewrite Hsg. intros H. apply Z.ltb_lt. exact H.
    + apply (holds_widen (MkShape (bits_for hi sg) sg)).
      * left. cbn [width is_signed]. split; [reflexivity | lia].
      * apply bits_for_holds. rewrite Hsg. intros H. apply Z.ltb_lt. lia.
  - cbn [is_signed]. rewrite Hsg, Z.ltb_lt. split.
    + intros Hneg. exists lo. split; [exact Hmin_in | exact Hneg].
    + intros [x [Hx Hneg]]. specialize (Hmin x Hx). lia.
Qed.

(** ** Bitwise operators stay within the promoted shape *)

Lemma below_pow2_iff_masked (x w : Z) :
  0 <= w -> (0 <= x < 2 ^ w <-> Z.land x (Z.ones w) = x).
Proof.
  intros Hw. rewrite Z.land_ones by exact Hw. split.
  - intros Hx. apply Z.mod_small. exact Hx.
  - intros <-. apply Z.mod_pos_bound. apply Z.pow_pos_nonneg; lia.
Qed.

(** Anything and-ed with a number below [2 ^ w] is below [2 ^ w]. *)
Lemma land_below_pow2 (x z w : Z) :
  0 <= w -> 0 <= x < 2 ^ w -> 0 <= Z.land x z < 2 ^ w.
Proof.
  intros Hw Hx. apply below_pow2_iff_masked in Hx; [| exact Hw].
  apply below_pow2_iff_masked; [exact Hw |].
  rewrite <- Hx at 2.
  rewrite <- !Z.land_assoc. f_equal. apply Z.land_comm.
Qed.

Lemma lor_below_pow2 (x y w : Z) :
  0 <= w -> 0 <= x < 2 ^ w -> 0 <= y < 2 ^ w -> 0 <= Z.lor x y < 2 ^ w.
Proof.
  intros Hw Hx Hy.
  apply below_pow2_iff_masked in Hx; [| exact Hw].
  apply below_pow2_iff_masked in Hy; [| exact Hw].
  apply below_pow2_iff_masked; [exact Hw |].
  rewrite Z.land_lor_distr_l, Hx, Hy. reflexivity.
Qed.

Lemma land_lxor_distr (x y m : Z) :
  Z.land (Z.lxor x y) m = Z.lxor (Z.land x m) (Z.land y m).
Proof.
  apply Z.bits_inj'. intros i Hi.
  rewrite Z.land_spec, !Z.lxor_spec, !Z.land_spec.
  destruct (Z.testbit x i), (Z.testbit y i), (Z.testbit m i); reflexivity.
Qed.

Lemma lxor_below_pow2 (x y w : Z) :
  0 <= w -> 0 <= x < 2 ^ w -> 0 <= y < 2 ^ w -> 0 <= Z.lxor x y < 2 ^ w.
Proof.
  intros Hw Hx Hy.
  apply below_pow2_iff_masked in Hx; [| exact Hw].
  apply below_pow2_iff_masked in Hy; [| exact Hw].
  apply below_pow2_iff_masked; [exact Hw |].
  rewrite land_lxor_distr, Hx, Hy. reflexivity.
Qed.

(** What a signed range holds, seen through its ones' complement. *)
Lemma lnot_range (x p : Z) : - p <= x < 0 <-> 0 <= Z.lnot x < p.
Proof. unfold Z.lnot. lia. Qed.

Lemma signed_closed_land (x y w : Z) :
  0 <= w -> - 2 ^ w <= x < 2 ^ w -> - 2 ^ w <= y < 2 ^ w ->
  - 2 ^ w <= Z.land x y < 2 ^ w.
Proof.
  intros Hw Hx Hy.
  destruct (Z.lt_ge_cases x 0) as [Hxn | Hxp];
    destruct (Z.lt_ge_cases y 0) as [Hyn | Hyp].
  - assert (Heq : Z.land x y = Z.lnot (Z.lor (Z.lnot x) (Z.lnot y)))
      by (rewrite Z.lnot_lor, !Z.lnot_involutive; reflexivity).
    pose proof (lor_below_pow2 (Z.lnot x) (Z.lnot y) w Hw
                  ltac:(apply lnot_range; lia) ltac:(apply lnot_range; lia)).
    rewrite Heq. unfold Z.lnot at 1 4. lia.
  - rewrite Z.land_comm.
    pose proof (land_below_pow2 y x w Hw ltac:(lia)). lia.
  - pose proof (land_below_pow2 x y w Hw ltac:(lia)). lia.
  - pose proof (land_below_pow2 x y w Hw ltac:(lia)). lia.
Qed.

Lemma signed_closed_lor (x y w : Z) :
  0 <= w -> - 2 ^ w <= x < 2 ^ w -> - 2 ^ w <= y < 2 ^ w ->
  - 2 ^ w <= Z.lor x y < 2 ^ w.
Proof.
  intros Hw Hx Hy.
  assert (Hx' : - 2 ^ w <= Z.lnot x < 2 ^ w) by (unfold Z.lnot; lia).
  assert (Hy' : - 2 ^ w <= Z.lnot y < 2 ^ w) by (unfold Z.lnot; lia).
  pose proof (signed_closed_land (Z.lnot x) (Z.lnot y) w Hw Hx' Hy') as H.
  rewrite <- Z.lnot_lor in H. unfold Z.lnot in H. lia.
Qed.

Lemma signed_closed_lxor (x y w : Z) :
  0 <= w -> - 2 ^ w <= x < 2 ^ w -> - 2 ^ w <= y < 2 ^ w ->
  - 2 ^ w <= Z.lxor x y < 2 ^ w.
Proof.
  intros Hw Hx Hy.
  destruct (Z.lt_ge_cases x 0) as [Hxn | Hxp];
    destruct (Z.lt_ge_cases y 0) as [Hyn | Hyp].
  - rewrite <- (Z.lxor_lnot_lnot x y).
    pose proof (lxor_below_pow2 (Z.lnot x) (Z.lnot y) w Hw
                  ltac:(apply lnot_range; lia) ltac:(apply lnot_range; lia)).
    lia.
  - pose proof (lxor_below_pow2 (Z.lnot x) y w Hw
                  ltac:(apply lnot_range; lia) ltac:(lia)) as H.
    rewrite <- Z.lnot_lxor_l in H. unfold Z.lnot in H. lia.
  - pose proof (lxor_below_pow2 x (Z.lnot y) w Hw
                  ltac:(lia) ltac:(apply lnot_range; lia)) as H.
    rewrite <- Z.lnot_lxor_r in H. unfold Z.lnot in H. lia.
  - pose proof (lxor_below_pow2 x y w Hw ltac:(lia) ltac:(lia)). lia.
Qed.

Lemma holds_bitwise_closed (sh : Shape) (x y : Z) :
  0 <= width sh -> holds sh x -> holds sh y ->
  holds sh (Z.land x y) /\ holds sh (Z.lor x y) /\ holds sh (Z.lxor x y).
Proof.
  intros Hw Hx Hy.
  pose proof (holds_signed_width sh x Hw) as Hs.
  unfold holds in *. destruct (is_signed sh).
  - specialize (Hs eq_refl Hx).
    split; [| split].
    + apply signed_closed_land; [lia | assumption | assumption].
    + apply signed_closed_lor; [lia | assumption | assumption].
    + apply signed_closed_lxor; [lia | assumption | assumption].
  - split; [| split].
    + apply land_below_pow2; assumption.
    + apply lor_below_pow2; assumption.
    + apply lxor_below_pow2; assumption.
Qed.

(** The shape of [a & b], [a | b] and [a ^ b] is the promoted shape, with
    no guard bit, and it holds the bitwise and, or and exclusive or of
    whatever the operands hold. *)
Theorem bitwise_shape_holds_result (a b : Value) (sa sb : Shape) (x y : Z) :
  shape a = Ok sa -> shape b = Ok sb ->
  holds sa x -> holds sb y ->
  shape (Operator "&" [a; b]) = Ok (promote sa sb) /\
  shape (Operator "|" [a; b]) = Ok (promote sa sb) /\
  shape (Operator "^" [a; b]) = Ok (promote sa sb) /\
  holds (promote sa sb) (Z.land x y) /\
  holds (promote sa sb) (Z.lor x y) /\
  holds (promote sa sb) (Z.lxor x y).
Proof.
  intros Ha Hb Hx Hy.
  pose proof (shape_width_nonneg a sa Ha) as Hwa.
  pose proof (shape_width_nonneg b sb Hb) as Hwb.
  assert (Hshape : forall op, tag_in op ["&"; "^"; "|"]%string = true ->
                     tag_in op ["+"; "-"]%string = false ->
                     String.eqb op "*" = false -> String.eqb op "//" = false ->
                     String.eqb op "%" = false ->
                     tag_in op ["<"; "<="; "=="; "!="; ">"; ">="]%string = false ->
                     shape (Operator op [a; b]) = Ok (promote sa sb)).
  { intros op H1 H2 H3 H4 H5 H6.
    rewrite (shape_binary op a b sa sb Ha Hb). unfold Operator_shape.
    rewrite H2, H3, H4, H5, H6, H1.
    apply _bitwise_binary_shape_promote; assumption. }
  split; [apply Hshape; reflexivity |].
  split; [apply Hshape; reflexivity |].
  split; [apply Hshape; reflexivity |].
  apply holds_bitwise_closed.
  - apply promote_nonneg; assumption.
  - apply promote_holds_left. exact Hx.
  - apply promote_holds_right. exact Hy.
Qed.

Lemma bitwise_shape_holds_result_witness :
  shape (Operator "&" [Signal 0 3 false "a" 0 false; Signal 1 2 true "b" 0 false])
  = Ok (MkShape 4 true) /\
  holds (MkShape 4 true) (Z.lor 7 (-2)).
Proof.
  destruct (bitwise_shape_holds_result
              (Signal 0 3 false "a" 0 false) (Signal 1 2 true "b" 0 false)
              (MkShape 3 false) (MkShape 2 true) 7 (-2) eq_refl eq_refl)
    as [Hand [_ [_ [_ [Hor _]]]]].
  - unfold holds. simpl. lia.
  - unfold holds. simpl. lia.
  - split; [exact Hand | exact Hor].
Defined.

(** ** The cases of a switch *)

Lemma keys_eqb_eq (a b : list string) : keys_eqb a b = true <-> a = b.
Proof.
  unfold keys_eqb. destruct (list_eq_dec string_dec a b); split;
    try discriminate; try reflexivity; intros; assumption || contradiction.
Qed.

Lemma keys_eqb_refl (a : list string) : keys_eqb a a = true.
Proof. apply keys_eqb_eq. reflexivity. Qed.

Lemma keys_eqb_sym (a b : list string) : keys_eqb a b = keys_eqb b a.
Proof.
  destruct (keys_eqb a b) eqn:Hab, (keys_eqb b a) eqn:Hba; try reflexivity.
  - apply keys_eqb_eq in Hab. subst. rewrite keys_eqb_refl in Hba. discriminate.
  - apply keys_eqb_eq in Hba. subst. rewrite keys_eqb_refl in Hab. discriminate.
Qed.

Section Ordered_mapping.

Context {V : Type}.

Lemma odict_get_set (d : list (list string * V)) (k k' : list string) (v : V) :
  odict_get (odict_set d k v) k' =
  if keys_eqb k k' then Some v else odict_get d k'.
Proof.
  induction d as [| [k0 v0] d IH]; cbn [odict_set odict_get].
  - reflexivity.
  - destruct (keys_eqb k0 k) eqn:H0k; cbn [odict_get].
    + apply keys_eqb_eq in H0k. subst k0.
      destruct (keys_eqb k k'); reflexivity.
    + destruct (keys_eqb k0 k') eqn:H0k'; [| exact IH].
      apply keys_eqb_eq in H0k'. subst k0.
      rewrite keys_eqb_sym, H0k. reflexivity.
Qed.

Lemma odict_set_keys (d : list (list string * V)) (k : list string) (v : V) :
  map fst (odict_set d k v) =
  if has_key d k then map fst d else map fst d ++ [k].
Proof.
  unfold has_key. induction d as [| [k0 v0] d IH]; cbn [odict_set map existsb fst].
  - reflexivity.
  - rewrite (keys_eqb_sym k k0).
    destruct (keys_eqb k0 k) eqn:H0k; cbn [map fst orb].
    + apply keys_eqb_eq in H0k. subst. reflexivity.
    + rewrite IH. destruct (existsb (keys_eqb k) (map fst d)); reflexivity.
Qed.

Lemma odict_get_set_all (l acc : list (list string * V)) (k : list string) :
  odict_get (set_all l acc) k =
  match odict_get (rev l) k with
  | Some v => Some v
  | None => odict_get acc k
  end.
Proof.
  unfold set_all. revert acc.
  induction l as [| [k0 v0] l IH]; intros acc; cbn [fold_left rev].
  - reflexivity.
  - rewrite IH. cbn [fst snd]. rewrite odict_get_set.
    assert (Hrev : forall (a b : list (list string * V)),
               odict_get (a ++ b) k =
               match odict_get a k with
               | Some v => Some v
               | None => odict_get b k
               end).
    { intros a b. induction a as [| [ka va] a IHa]; cbn [app odict_get];
        [reflexivity |]. destruct (keys_eqb ka k); [reflexivity | exact IHa]. }
    rewrite Hrev. cbn [odict_get].
    destruct (odict_get (rev l) k); [reflexivity |].
    destruct (keys_eqb k0 k); reflexivity.
Qed.

Lemma filter_twice (f g : list string -> bool) (l : list (list string)) :
  filter f (filter g l) = filter (fun k => g k && f k) l.
Proof.
  induction l as [| k l IH]; cbn [filter]; [reflexivity |].
  destruct (g k); cbn [filter andb]; [| exact IH].
  destruct (f k); rewrite IH; reflexivity.
Qed.

Lemma set_all_keys (l acc : list (list string * V)) :
  map fst (set_all l acc) =
  map fst acc ++ filter (fun k => negb (has_key acc k)) (keep_first (map fst l)).
Proof.
  unfold set_all. revert acc.
  induction l as [| [k0 v0] l IH]; intros acc; cbn [fold_left map keep_first fst snd].
  - cbn [filter]. rewrite app_nil_r. reflexivity.
  - rewrite IH, odict_set_keys. cbn [filter].
    destruct (has_key acc k0) eqn:Hin; cbn [negb].
    + f_equal. rewrite filter_twice. apply filter_ext. intros k.
      unfold has_key. rewrite odict_set_keys. fold (has_key acc k0). rewrite Hin.
      fold (has_key acc k).
      destruct (keys_eqb k0 k) eqn:H0k; cbn [negb andb]; [| reflexivity].
      apply keys_eqb_eq in H0k. subst. rewrite Hin. reflexivity.
    + rewrite <- app_assoc. cbn [app]. f_equal. f_equal.
      rewrite filter_twice. apply filter_ext. intros k.
      unfold has_key. rewrite odict_set_keys. fold (has_key acc k0). rewrite Hin.
      rewrite existsb_app. cbn [existsb]. fold (has_key acc k).
      rewrite orb_false_r, (keys_eqb_sym k k0).
      destruct (has_key acc k), (keys_eqb k0 k); reflexivity.
Qed.

Lemma keep_first_NoDup (ks : list (list string)) : NoDup (keep_first ks).
Proof.
  induction ks as [| k ks IH]; cbn [keep_first]; constructor.
  - intros Hin. apply filter_In in Hin. destruct Hin as [_ Hne].
    rewrite keys_eqb_refl in Hne. discriminate.
  - apply NoDup_filter. exact IH.
Qed.

End Ordered_mapping.

Lemma fst_combine {A B : Type} (a : list A) (b : list B) :
  List.length a = List.length b -> map fst (combine a b) = a.
Proof.
  revert b. induction a as [| x a IH]; intros [| y b] Hlen; try discriminate;
    [reflexivity |].
  cbn [combine map fst]. f_equal. apply IH.
  simpl in Hlen. injection Hlen as Hlen. exact Hlen.
Qed.

Lemma Switch_cases_set_all (test : Value)
      (cases : list (case_keys * list Statement))
      (acc d : list (list string * list Statement)) :
  Switch_cases test cases acc = Ok d ->
  exists ks,
    Forall2 (fun c k => Switch_case_keys test (fst c) = Ok k) cases ks /\
    d = set_all (combine ks (map snd cases)) acc.
Proof.
  revert acc. induction cases as [| [orig stmts] cases IH]; intros acc H.
  - cbn [Switch_cases] in H. inversion H. exists []. split; [constructor | reflexivity].
  - cbn [Switch_cases] in H. apply bind_ok_inv in H.
    destruct H as [k [Hk H]]. destruct (IH _ H) as [ks [Hall Hd]].
    exists (k :: ks). split; [constructor; assumption |].
    rewrite Hd. reflexivity.
Qed.

(** The cases of a [Switch] that was built form an ordered mapping: its key
    tuples are the normalized key tuples of the cases given, each once and
    at the place of its first case, and the statements under a key tuple
    are those of the last case given with it. *)
Theorem Switch_cases_ordered_mapping
        (test : value_castable) (cases : list (case_keys * list Statement))
        (t : Value) (d : list (list string * list Statement)) :
  Switch_init test cases = Ok (Switch t d) ->
  Value_cast test = Ok t /\
  exists ks,
    Forall2 (fun c k => Switch_case_keys t (fst c) = Ok k) cases ks /\
    map fst d = keep_first ks /\
    NoDup (map fst d) /\
    forall k, odict_get d k = odict_get (rev (combine ks (map snd cases))) k.
Proof.
  unfold Switch_init. intros H.
  apply bind_ok_inv in H. destruct H as [t' [Ht H]].
  apply bind_ok_inv in H. destruct H as [d' [Hd H]].
  inversion H. subst t' d'. clear H.
  split; [exact Ht |].
  destruct (Switch_cases_set_all t cases [] d Hd) as [ks [Hall ->]].
  exists ks. split; [exact Hall |].
  assert (Hlen : List.length ks = List.length (map snd cases)).
  { rewrite length_map. symmetry. eapply Forall2_length. exact Hall. }
  assert (Hkeys : map fst (set_all (combine ks (map snd cases)) []) = keep_first ks).
  { rewrite set_all_keys. cbn [map app].
    rewrite (filter_ext _ (fun _ => true)) by reflexivity.
    assert (Hfst : map fst (combine ks (map snd cases)) = ks)
      by (apply fst_combine; exact Hlen).
    rewrite Hfst. clear. induction (keep_first ks) as [| k l IH];
      [reflexivity |]. cbn [filter]. rewrite IH. reflexivity. }
  split; [exact Hkeys |]. split.
  - rewrite Hkeys. apply keep_first_NoDup.
  - intros k. rewrite odict_get_set_all.
    destruct (odict_get (rev (combine ks (map snd cases))) k); reflexivity.
Qed.

Lemma Switch_cases_ordered_mapping_witness :
  let test := Signal 0 4 false "sel" 0 false in
  let a := Assign (Signal 1 1 false "x" 0 false) (Const 0 1 false) in
  let b := Assign (Signal 1 1 false "x" 0 false) (Const 1 1 false) in
  let d := [(["0010"%string], [b]); ([], [])] in
  NoDup (map fst d) /\ odict_get d ["0010"%string] = Some [b].
Proof.
  intros test a b d.
  destruct (Switch_cases_ordered_mapping (AsValue test)
              [(KeysOne (KInt 2), [a]); (KeysNone, []);
               (KeysOne (KStr "00 10"), [b])] test d eq_refl)
    as [_ [ks [_ [_ [Hnodup _]]]]].
  split; [exact Hnodup | reflexivity].
Defined.

Lemma Switch_key_fits (w : Z) (key : switch_key) :
  0 <= w ->
  (exists k, Switch_key w (Z.shiftl 1 w - 1) key = Ok k) <-> key_fits w key = true.
Proof.
  intros Hw. destruct key as [s | n | n |]; cbn [key_fits].
  - unfold Switch_key. cbn [bind]. rewrite join_split_length.
    destruct (non_whitespace_length s =? w); split; intros H.
    + reflexivity.
    + eauto.
    + destruct H as [k Hk]. discriminate Hk.
    + discriminate H.
  - destruct (Z.leb_spec 1 w) as [H1 | H0].
    + rewrite Switch_key_int by exact H1. split; [reflexivity | eauto].
    + assert (w = 0) by lia. subst w. split; [| intros Hf; discriminate Hf].
      intros [k Hk]. unfold Switch_key in Hk. cbn [bind] in Hk.
      change (Z.shiftl 1 0 - 1) with 0 in Hk. rewrite Z.land_0_r in Hk.
      vm_compute in Hk. discriminate Hk.
  - rewrite Switch_key_enum. destruct (Z.leb_spec 1 w) as [H1 | H0].
    + rewrite Switch_key_int by exact H1. split; [reflexivity | eauto].
    + assert (w = 0) by lia. subst w. split; [| intros Hf; discriminate Hf].
      intros [k Hk]. unfold Switch_key in Hk. cbn [bind] in Hk.
      change (Z.shiftl 1 0 - 1) with 0 in Hk. rewrite Z.land_0_r in Hk.
      vm_compute in Hk. discriminate Hk.
  - split; [intros [k Hk]; discriminate Hk | intros Hf; discriminate Hf].
Qed.

Lemma Switch_keys_fit (w : Z) (keys : list switch_key) :
  0 <= w ->
  (exists ks, Switch_keys w (Z.shiftl 1 w - 1) keys = Ok ks)
  <-> forallb (key_fits w) keys = true.
Proof.
  intros Hw. induction keys as [| key keys IH]; cbn [Switch_keys forallb].
  - split; [reflexivity | eauto].
  - rewrite andb_true_iff, <- IH, <- (Switch_key_fits w key Hw). split.
    + intros [ks Hks]. apply bind_ok_inv in Hks. destruct Hks as [k [Hk Hks]].
      apply bind_ok_inv in Hks. destruct Hks as [ks' [Hks' _]]. eauto.
    + intros [[k Hk] [ks Hks]]. rewrite Hk, Hks. cbn [bind]. eauto.
Qed.

(** A [Switch] is built exactly when every key of every case fits the
    test: an integer or enumeration member fits a test of at least one bit,
    a string fits when it has as many characters apart from whitespace as
    the test has bits -- which characters is not looked at -- and an object
    of another type never fits. *)
Theorem Switch_init_accepts_fitting_keys
        (test : Value) (w : Z) (cases : list (case_keys * list Statement)) :
  Value_len test = Ok w ->
  (exists d, Switch_init (AsValue test) cases = Ok (Switch test d))
  <-> forallb (fun c => forallb (key_fits w) (keys_tuple (fst c))) cases = true.
Proof.
  intros Hlen. pose proof (Value_len_nonneg test w Hlen) as Hw.
  unfold Switch_init. cbn [Value_cast bind].
  assert (Hgen : forall acc,
            (exists d, Switch_cases test cases acc = Ok d)
            <-> forallb (fun c => forallb (key_fits w) (keys_tuple (fst c))) cases
                = true).
  { induction cases as [| [orig stmts] cases IH]; intros acc;
      cbn [Switch_cases forallb fst].
    - split; [reflexivity | eauto].
    - rewrite andb_true_iff, <- (Switch_keys_fit w _ Hw).
      rewrite (Switch_case_keys_eq test w orig Hlen Hw). split.
      + intros [d Hd]. apply bind_ok_inv in Hd. destruct Hd as [ks [Hks Hd]].
        split; [eauto |]. apply (IH (odict_set acc ks stmts)). eauto.
      + intros [[ks Hks] Hrest]. rewrite Hks. cbn [bind].
        apply IH. exact Hrest. }
  split.
  - intros [d Hd]. apply (Hgen []).
    destruct (Switch_cases test cases []) as [d' | e]; [eauto | discriminate].
  - intros Hfit. apply (Hgen []) in Hfit. destruct Hfit as [d Hd].
    exists d. rewrite Hd. reflexivity.
Qed.

Lemma Switch_init_accepts_fitting_keys_witness :
  exists d,
    Switch_init (AsValue (Signal 0 4 false "sel" 0 false))
                [(KeysTuple [KStr "1-x z"; KStr "zz zz"; KInt 99;
                             KStr ("10" ++ String (ascii_of_nat 160) "10")], [])]
    = Ok (Switch (Signal 0 4 false "sel" 0 false) d).
Proof.
  apply (Switch_init_accepts_fitting_keys (Signal 0 4 false "sel" 0 false) 4).
  - reflexivity.
  - reflexivity.
Defined.

(** ** Signals are numbered as they are built *)

Lemma Signal_init_counter (next_uid : Z) (shape : option shape_castable)
      (name : string) (reset : Z) (reset_less : bool) :
  fst (fst (Signal_init next_uid shape name reset reset_less)) = next_uid + 1 /\
  forall v, snd (Signal_init next_uid shape name reset reset_less) = Ok v ->
            exists width signed,
              v = Signal next_uid width signed name reset reset_less.
Proof.
  unfold Signal_init, DUID_init.
  destruct (Shape_cast _) as [sh | e]; cbn [fst snd]; split;
    try reflexivity; intros v H; inversion H; eauto.
Qed.

(** Signals built one after the other are numbered in the order of the
    calls: a call takes the next identifier whether or not it builds its
    signal, the counter ends as many steps further as there were calls, and
    so two signals from different calls have different identifiers and
    unequal keys, whatever their shapes and names. *)
Theorem Signal_ids_follow_calls
        (next_uid : Z) (args : list (option shape_castable * string * Z * bool)) :
  fst (Signal_inits next_uid args) = next_uid + Z.of_nat (List.length args) /\
  (forall i v,
     nth_error (snd (Signal_inits next_uid args)) i = Some (Ok v) ->
     exists width signed name reset reset_less,
       v = Signal (next_uid + Z.of_nat i) width signed name reset reset_less) /\
  (forall i j vi vj,
     i <> j ->
     nth_error (snd (Signal_inits next_uid args)) i = Some (Ok vi) ->
     nth_error (snd (Signal_inits next_uid args)) j = Some (Ok vj) ->
     ValueKey_eq vi vj = Ok false).
Proof.
  assert (Hids : forall args next_uid,
            fst (Signal_inits next_uid args) = next_uid + Z.of_nat (List.length args) /\
            forall i v,
              nth_error (snd (Signal_inits next_uid args)) i = Some (Ok v) ->
              exists width signed name reset reset_less,
                v = Signal (next_uid + Z.of_nat i) width signed name reset reset_less).
  { clear. induction args as [| [[[shape name] reset] reset_less] args IH];
      intros next_uid.
    - cbn [Signal_inits fst snd List.length]. split; [lia |].
      intros [| i] v H; discriminate.
    - cbn [Signal_inits].
      destruct (Signal_init_counter next_uid shape name reset reset_less)
        as [Hnext Hbuilt].
      destruct (Signal_init next_uid shape name reset reset_less)
        as [[next' ws] r] eqn:Hinit.
      cbn [fst snd] in Hnext, Hbuilt. subst next'.
      destruct (IH (next_uid + 1)) as [Hlast Hrest].
      destruct (Signal_inits (next_uid + 1) args) as [last rs].
      cbn [fst snd] in *.
      split; [cbn [List.length]; rewrite Nat2Z.inj_succ; lia |].
      intros [| i] v H; cbn [nth_error] in H.
      + inversion H. subst r. destruct (Hbuilt v eq_refl) as [w [s ->]].
        replace (next_uid + Z.of_nat 0) with next_uid by lia. eauto 6.
      + destruct (Hrest i v H) as [w [s [n [rs' [rl ->]]]]].
        replace (next_uid + Z.of_nat (S i)) with (next_uid + 1 + Z.of_nat i) by lia.
        eauto 6. }
  destruct (Hids args next_uid) as [Hlast Hnth].
  split; [exact Hlast |]. split; [exact Hnth |].
  intros i j vi vj Hij Hi Hj.
  destruct (Hnth i vi Hi) as [wi [si [ni [ri [rli ->]]]]].
  destruct (Hnth j vj Hj) as [wj [sj [nj [rj [rlj ->]]]]].
  unfold ValueKey_eq. simpl.
  destruct (Z.eqb_spec (next_uid + Z.of_nat i) (next_uid + Z.of_nat j));
    [lia | reflexivity].
Qed.

Lemma Signal_ids_follow_calls_witness :
  ValueKey_eq (Signal 5 1 false "s" 0 false) (Signal 7 1 false "s" 0 false)
  = Ok false.
Proof.
  destruct (Signal_ids_follow_calls 5
              [(None, "s"%string, 0, false);
               (Some (FromInt (-1)), "bad"%string, 0, false);
               (None, "s"%string, 0, false)]) as [_ [_ Hdistinct]].
  apply (Hdistinct 0%nat 2%nat); [discriminate | reflexivity | reflexivity].
Defined.

(** ** Key equality as a relation *)

Lemma domain_eqb_refl (d : option string) : domain_eqb d d = true.
Proof. destruct d as [s |]; [apply String.eqb_refl | reflexivity]. Qed.

Lemma ValueKey_init_all_error (vs : list Value) (e : exn) :
  Forall (fun v => forall e, ValueKey_init v = Error e -> e = MkExn TypeError None) vs ->
  ValueKey_init_all vs = Error e -> e = MkExn TypeError None.
Proof.
  induction 1 as [| v vs Hv _ IH]; intros Hinit; [discriminate |].
  cbn [ValueKey_init_all] in Hinit.
  destruct (ValueKey_init v) as [[] | e'] eqn:Hv'; cbn [bind] in Hinit.
  - apply IH. exact Hinit.
  - inversion Hinit. subst e'. apply Hv. reflexivity.
Qed.

(** Whatever cannot be given a key fails with the one [TypeError]. *)
Lemma ValueKey_init_error (v : Value) :
  forall e, ValueKey_init v = Error e -> e = MkExn TypeError None.
Proof.
  induction v using Value_nested_ind; intros e Hinit; try discriminate.
  - rewrite ValueKey_init_Operator in Hinit.
    apply (ValueKey_init_all_error operands); assumption.
  - simpl in Hinit. apply IHv. exact Hinit.
  - simpl in Hinit.
    destruct (ValueKey_init v1) as [[] | e'] eqn:Hv1; cbn [bind] in Hinit.
    + apply IHv2. exact Hinit.
    + inversion Hinit. subst e'. apply IHv1. reflexivity.
  - rewrite ValueKey_init_Cat in Hinit.
    apply (ValueKey_init_all_error parts); assumption.
  - inversion Hinit. reflexivity.
  - rewrite ValueKey_init_ArrayProxy in Hinit.
    destruct (ValueKey_init v) as [[] | e'] eqn:Hv; cbn [bind] in Hinit.
    + apply (ValueKey_init_all_error elems); assumption.
    + inversion Hinit. subst e'. apply IHv. reflexivity.
  - simpl in Hinit. apply IHv. exact Hinit.
Qed.

Lemma ValueKey_eq_all_nil_r (xs : list Value) : ValueKey_eq_all xs [] = Ok true.
Proof. destruct xs; reflexivity. Qed.

Lemma ValueKey_eq_all_sym (xs : list Value) :
  Forall (fun a => forall b, ValueKey_init a = Ok tt -> ValueKey_init b = Ok tt ->
                             ValueKey_eq_values a b = ValueKey_eq_values b a) xs ->
  forall ys,
    ValueKey_init_all xs = Ok tt -> ValueKey_init_all ys = Ok tt ->
    ValueKey_eq_all xs ys = ValueKey_eq_all ys xs.
Proof.
  induction 1 as [| x xs Hx _ IH]; intros ys Hxs Hys.
  - rewrite ValueKey_eq_all_nil_r. reflexivity.
  - destruct ys as [| y ys]; [reflexivity |].
    cbn [ValueKey_init_all] in Hxs, Hys.
    apply bind_unit_inv in Hxs. destruct Hxs as [Hx' Hxs].
    apply bind_unit_inv in Hys. destruct Hys as [Hy' Hys].
    cbn [ValueKey_eq_all]. rewrite Hx', Hy'. cbn [bind].
    rewrite (Hx y Hx' Hy').
    destruct (ValueKey_eq_values y x) as [[|] | e]; cbn [bind];
      [apply IH; assumption | reflexivity | reflexivity].
Qed.

Lemma ValueKey_eq_values_sym (a : Value) :
  forall b, ValueKey_init a = Ok tt -> ValueKey_init b = Ok tt ->
            ValueKey_eq_values a b = ValueKey_eq_values b a.
Proof.
  induction a using Value_nested_ind; intros b Ha Hb; destruct b;
    try reflexivity; try discriminate Ha.
  - simpl. rewrite Z.eqb_sym. reflexivity.
  - simpl. rewrite Z.eqb_sym. reflexivity.
  - simpl. rewrite Z.eqb_sym. reflexivity.
  - rewrite !ValueKey_eq_values_Operator.
    match goal with
    | |- context [String.eqb ?p ?q && (?m =? ?n)] =>
        rewrite (String.eqb_sym p q), (Z.eqb_sym m n)
    end.
    destruct (_ && _); [| reflexivity].
    apply ValueKey_eq_all_sym; assumption.
  - simpl in Ha, Hb. simpl. rewrite Ha, Hb. cbn [bind].
    rewrite (IHa b Ha Hb).
    destruct (ValueKey_eq_values b a) as [r | e]; cbn [bind]; [| reflexivity].
    f_equal. f_equal; [f_equal |]; apply Z.eqb_sym.
  - simpl in Ha, Hb.
    apply bind_unit_inv in Ha. destruct Ha as [Ha1 Ha2].
    apply bind_unit_inv in Hb. destruct Hb as [Hb1 Hb2].
    simpl. rewrite Ha1, Hb1. cbn [bind]. rewrite (IHa1 b1 Ha1 Hb1).
    destruct (ValueKey_eq_values b1 a1) as [[|] | e]; cbn [bind];
      try reflexivity.
    rewrite Ha2, Hb2. cbn [bind]. rewrite (IHa2 b2 Ha2 Hb2).
    destruct (ValueKey_eq_values b2 a2) as [r | e]; cbn [bind]; [| reflexivity].
    f_equal. f_equal; [f_equal |]; apply Z.eqb_sym.
  - rewrite !ValueKey_eq_values_Cat. apply ValueKey_eq_all_sym; assumption.
  - simpl. rewrite Z.eqb_sym. reflexivity.
  - simpl. rewrite String.eqb_sym. reflexivity.
  - simpl. rewrite String.eqb_sym. reflexivity.
  - rewrite ValueKey_init_ArrayProxy in Ha, Hb.
    apply bind_unit_inv in Ha. destruct Ha as [Ha1 Ha2].
    apply bind_unit_inv in Hb. destruct Hb as [Hb1 Hb2].
    rewrite !ValueKey_eq_values_ArrayProxy. rewrite Ha1, Hb1. cbn [bind].
    rewrite (IHa b Ha1 Hb1).
    destruct (ValueKey_eq_values b a) as [r | e]; cbn [bind]; [| reflexivity].
    match goal with
    | |- context [r && (?m =? ?n)] => rewrite (Z.eqb_sym m n)
    end.
    destruct (_ && _); [| reflexivity].
    apply ValueKey_eq_all_sym; assumption.
  - simpl in Ha, Hb. simpl. rewrite Ha, Hb. cbn [bind].
    rewrite (IHa b Ha Hb).
    destruct (ValueKey_eq_values b a) as [r | e]; cbn [bind]; [| reflexivity].
    rewrite !domain_eqb_refl. f_equal. f_equal. f_equal. apply Z.eqb_sym.
Qed.

(** Equality of keys is reflexive on every value that has a key and
    symmetric on all values, the error of a value without a key included,
    but it is not transitive: the key of the empty [Cat] equals the key of
    every [Cat], also of two whose keys differ. *)
Theorem ValueKey_eq_symmetric_not_transitive :
  (forall a, ValueKey_init a = Ok tt -> ValueKey_eq a a = Ok true) /\
  (forall a b, ValueKey_eq a b = ValueKey_eq b a) /\
  (forall x y,
     ValueKey_eq x y = Ok false ->
     ValueKey_eq (Cat [x]) (Cat []) = Ok true /\
     ValueKey_eq (Cat []) (Cat [y]) = Ok true /\
     ValueKey_eq (Cat [x]) (Cat [y]) = Ok false).
Proof.
  split; [| split].
  - intros a Ha. unfold ValueKey_eq. rewrite Ha. cbn [bind].
    apply ValueKey_eq_values_refl. exact Ha.
  - intros a b. unfold ValueKey_eq.
    destruct (ValueKey_init a) as [[] | ea] eqn:Ha;
      destruct (ValueKey_init b) as [[] | eb] eqn:Hb; cbn [bind];
      try reflexivity.
    + apply ValueKey_eq_values_sym; assumption.
    + rewrite (ValueKey_init_error a ea Ha), (ValueKey_init_error b eb Hb).
      reflexivity.
  - intros x y Hxy. unfold ValueKey_eq in Hxy.
    destruct (ValueKey_init x) as [[] | ex] eqn:Hx; [| discriminate].
    destruct (ValueKey_init y) as [[] | ey] eqn:Hy; [| discriminate].
    cbn [bind] in Hxy.
    unfold ValueKey_eq. rewrite !ValueKey_init_Cat, !ValueKey_eq_values_Cat.
    cbn [ValueKey_init_all ValueKey_eq_all]. rewrite Hx, Hy. cbn [bind].
    rewrite Hxy. cbn [bind]. repeat split; reflexivity.
Qed.

Lemma ValueKey_eq_symmetric_not_transitive_witness :
  let x := Signal 0 1 false "a" 0 false in
  let y := Signal 1 1 false "b" 0 false in
  ValueKey_eq (Cat [x]) (Cat []) = Ok true /\
  ValueKey_eq (Cat []) (Cat [y]) = Ok true /\
  ValueKey_eq (Cat [x]) (Cat [y]) = Ok false.
Proof.
  intros x y.
  destruct ValueKey_eq_symmetric_not_transitive as [_ [_ Hcat]].
  apply (Hcat x y). reflexivity.
Defined.

(** ** Conversions between signed and unsigned *)

Lemma normalized_within (v w : Z) (s : bool) :
  0 <= w -> (s = true -> 1 <= w) ->
  holds (MkShape w s) (normalized v w s) /\
  normalized v w s mod 2 ^ w = v mod 2 ^ w.
Proof.
  intros Hw Hs. rewrite normalized_arith by assumption.
  assert (Hp : 0 < 2 ^ w) by (apply Z.pow_pos_nonneg; lia).
  assert (Hr : 0 <= v mod 2 ^ w < 2 ^ w) by (apply Z.mod_pos_bound; exact Hp).
  unfold holds. cbn [width is_signed].
  destruct s; cbn [andb].
  - pose proof (pow2_double w (Hs eq_refl)) as Hd.
    destruct (Z.leb_spec (2 ^ (w - 1)) (v mod 2 ^ w)).
    + split; [lia |].
      replace (v mod 2 ^ w - 2 ^ w) with (v mod 2 ^ w + (-1) * 2 ^ w) by lia.
      rewrite Z.mod_add by lia. apply Z.mod_mod. lia.
    + split; [lia | apply Z.mod_mod; lia].
  - split; [lia | apply Z.mod_mod; lia].
Qed.

Lemma normalized_congruent (v v' w : Z) (s : bool) :
  0 <= w -> (s = true -> 1 <= w) ->
  v mod 2 ^ w = v' mod 2 ^ w -> normalized v w s = normalized v' w s.
Proof.
  intros Hw Hs Hmod. rewrite !normalized_arith by assumption.
  rewrite Hmod. reflexivity.
Qed.

Lemma Const_normalize_ok (v w : Z) (s : bool) :
  1 <= w -> Const_normalize v (w, s) = Ok (normalized v w s).
Proof.
  intros Hw. rewrite Const_normalize_spec.
  destruct (Z.ltb_spec w 0); [lia |].
  destruct (Z.ltb_spec (w - 1) 0); [lia |].
  destruct s; reflexivity.
Qed.

(** [as_unsigned] and [as_signed] keep the width and set the signedness.
    Reading what the value holds in the converted shape, as
    [Const.normalize] does, gives an integer the converted shape holds, and
    reading that one in the original shape gives the first integer back. *)
Theorem conversions_keep_width_and_bits (self : Value) (sa : Shape) (x : Z) :
  shape self = Ok sa -> 1 <= width sa -> holds sa x ->
  forall signed,
    let target := MkShape (width sa) signed in
    exists v y,
      (if signed then Value_as_signed self else Value_as_unsigned self) = Ok v /\
      shape v = Ok target /\
      Const_normalize x (width sa, signed) = Ok y /\
      holds target y /\
      Const_normalize y (width sa, is_signed sa) = Ok x.
Proof.
  intros Hshape Hw Hx signed target.
  assert (Hw0 : 0 <= width sa) by lia.
  destruct (normalized_within x (width sa) signed Hw0 (fun _ => Hw))
    as [Hheld Hmod].
  exists (Operator (if signed then "s" else "u") [self]),
         (normalized x (width sa) signed).
  split; [destruct signed; reflexivity |].
  split.
  { rewrite shape_Operator. cbn [shapes]. rewrite Hshape. cbn [bind].
    destruct sa as [w s]. cbn [width] in *.
    destruct signed; unfold Operator_shape; simpl;
      unfold Shape_init; destruct (Z.ltb_spec w 0); try lia; reflexivity. }
  split; [apply Const_normalize_ok; exact Hw |].
  split; [exact Hheld |].
  rewrite Const_normalize_ok by exact Hw. f_equal.
  rewrite (normalized_congruent _ x) by (try exact Hmod; auto).
  apply normalized_fixes_held; [exact Hw0 |].
  destruct sa as [w s]. exact Hx.
Qed.

Lemma conversions_keep_width_and_bits_witness :
  exists v y,
    Value_as_signed (Signal 0 4 false "a" 0 false) = Ok v /\
    shape v = Ok (MkShape 4 true) /\
    Const_normalize 13 (4, true) = Ok y /\
    holds (MkShape 4 true) y /\
    Const_normalize y (4, false) = Ok 13.
Proof.
  assert (Hw : 1 <= width (MkShape 4 false)) by (simpl; lia).
  assert (Hx : holds (MkShape 4 false) 13) by (unfold holds; simpl; lia).
  exact (conversions_keep_width_and_bits
           (Signal 0 4 false "a" 0 false) (MkShape 4 false) 13 eq_refl Hw Hx true).
Defined.

(** ** Replication *)

Lemma shapes_repeat (value : Value) (sh : Shape) (n : nat) :
  shape value = Ok sh -> shapes (repeat value n) = Ok (repeat sh n).
Proof.
  intros Hshape. induction n as [| n IH]; [reflexivity |].
  cbn [repeat shapes]. rewrite Hshape, IH. reflexivity.
Qed.

Lemma sum_widths_repeat (sh : Shape) (n : nat) :
  sum_widths (repeat sh n) = width sh * Z.of_nat n.
Proof.
  induction n as [| n IH]; [cbn [repeat]; unfold sum_widths; simpl; lia |].
  cbn [repeat]. rewrite sum_widths_cons, IH. lia.
Qed.

(** [Repl(value, count)] takes every count that is not negative, and its
    shape is the shape of the concatenation of [count] copies of the value:
    unsigned, [count] times as wide.  A negative count is a [TypeError]. *)
Theorem Repl_shape_is_Cat_of_copies (value : Value) (n count : Z) :
  Value_len value = Ok n ->
  (0 <= count ->
   Repl_init value count = Ok (Repl value count) /\
   shape (Repl value count) = Ok (MkShape (n * count) false) /\
   shape (Cat (repeat value (Z.to_nat count))) = shape (Repl value count)) /\
  (count < 0 -> Repl_init value count = raise TypeError).
Proof.
  intros Hlen. unfold Value_len in Hlen.
  apply bind_ok_inv in Hlen. destruct Hlen as [sh [Hshape Hn]].
  inversion Hn. subst n. clear Hn.
  pose proof (shape_width_nonneg value sh Hshape) as Hw.
  split.
  - intros Hcount.
    assert (Hrepl : shape (Repl value count) = Ok (MkShape (width sh * count) false)).
    { cbn [shape]. rewrite Hshape. cbn [bind]. apply Shape_init_ok. nia. }
    split; [| split].
    + unfold Repl_init. destruct (Z.ltb_spec count 0); [lia | reflexivity].
    + exact Hrepl.
    + rewrite Hrepl, shape_Cat, (shapes_repeat value sh) by exact Hshape.
      cbn [bind]. rewrite sum_widths_repeat, Z2Nat.id by exact Hcount.
      apply Shape_init_ok. nia.
  - intros Hcount. unfold Repl_init.
    destruct (Z.ltb_spec count 0); [reflexivity | lia].
Qed.

Lemma Repl_shape_is_Cat_of_copies_witness :
  let value := Signal 0 3 false "a" 0 false in
  Repl_init value 2 = Ok (Repl value 2) /\
  shape (Repl value 2) = Ok (MkShape (3 * 2) false) /\
  shape (Cat (repeat value (Z.to_nat 2))) = shape (Repl value 2).
Proof.
  intros value.
  destruct (Repl_shape_is_Cat_of_copies value 3 2 eq_refl) as [Hok _].
  apply Hok. lia.
Defined.

(** ** Indexing an array proxy *)




